(** * POS pricing-rule engine: rule evaluation, cart application,
      free-line synchronisation and server reconciliation

    A shallow embedding of
      - [frontend/src/lib/pricingEngine.js] (the pure rule evaluator) and
      - the pricing methods of the invoice component
        ([_applyPricingToLine], [_syncAutoFreeLines],
        [_applyServerPricingRules] and their helpers),
    followed by the properties established about them.

    Modelling conventions.
      - A JavaScript number is a [num]: an exact rational, or one of the three
        non-finite values.  Arithmetic on finite numbers is exact (the binary
        rounding of IEEE doubles and the sign of zero are not represented).
      - A JavaScript value is a [value]; an object is a finite map from
        property names to values, absent properties read as [undefined].
      - Cart lines are objects with an identity: the cart is a list of
        [(oid, fields)] pairs, and mutating a line rewrites the fields stored
        under its [oid].
      - Functions of the host environment that the sources call but do not
        define are fields of [Host] (language built-ins whose result is
        implementation-defined) and of [Component] (methods and data of
        [this]). *)

From Stdlib Require Import ZArith QArith Qround Qminmax Qabs Lqa Lia Btauto.
From Stdlib Require Import Ascii String OrderedTypeEx DecimalString.
From stdpp Require Import base strings gmap list option.

#[local] Set Warnings "-register-all".

(** ** JavaScript numbers *)

Module Js.

Inductive num := Fin (q : Q) | NaN | PInf | NInf.

Definition isFinite (n : num) : bool :=
  match n with Fin _ => true | _ => false end.

Definition sgn (q : Q) : comparison := (q ?= 0)%Q.

Definition neg (a : num) : num :=
  match a with
  | Fin x => Fin (- x)
  | NaN => NaN
  | PInf => NInf
  | NInf => PInf
  end.

Definition add (a b : num) : num :=
  match a, b with
  | NaN, _ | _, NaN => NaN
  | Fin x, Fin y => Fin (x + y)
  | PInf, NInf | NInf, PInf => NaN
  | PInf, _ | _, PInf => PInf
  | NInf, _ | _, NInf => NInf
  end.

Definition sub (a b : num) : num := add a (neg b).

(** An infinity scaled by the sign of a finite factor; [Eq] is the factor 0. *)
Definition inf_signed (positive : bool) (c : comparison) : num :=
  match c with
  | Eq => NaN
  | Gt => if positive then PInf else NInf
  | Lt => if positive then NInf else PInf
  end.

Definition mul (a b : num) : num :=
  match a, b with
  | NaN, _ | _, NaN => NaN
  | Fin x, Fin y => Fin (x * y)
  | PInf, Fin y | Fin y, PInf => inf_signed true (sgn y)
  | NInf, Fin y | Fin y, NInf => inf_signed false (sgn y)
  | PInf, PInf | NInf, NInf => PInf
  | PInf, NInf | NInf, PInf => NInf
  end.

(** Division; a zero divisor counts as +0. *)
Definition div (a b : num) : num :=
  match a, b with
  | NaN, _ | _, NaN => NaN
  | Fin x, Fin y =>
      if Qeq_bool y 0 then inf_signed true (sgn x) else Fin (x / y)
  | Fin _, (PInf | NInf) => Fin 0
  | PInf, Fin y => if Qle_bool 0 y then PInf else NInf
  | NInf, Fin y => if Qle_bool 0 y then NInf else PInf
  | (PInf | NInf), (PInf | NInf) => NaN
  end.

Definition lt (a b : num) : bool :=
  match a, b with
  | NaN, _ | _, NaN => false
  | Fin x, Fin y => negb (Qle_bool y x)
  | Fin _, PInf | NInf, Fin _ | NInf, PInf => true
  | Fin _, NInf | PInf, _ | NInf, NInf => false
  end.

Definition le (a b : num) : bool :=
  match a, b with
  | NaN, _ | _, NaN => false
  | Fin x, Fin y => Qle_bool x y
  | NInf, _ | _, PInf => true
  | PInf, _ | _, NInf => false
  end.

Definition gt (a b : num) : bool := lt b a.
Definition ge (a b : num) : bool := le b a.

(** [a === b] on numbers. *)
Definition eqb (a b : num) : bool :=
  match a, b with
  | Fin x, Fin y => Qeq_bool x y
  | PInf, PInf | NInf, NInf => true
  | _, _ => false
  end.

Definition abs (a : num) : num :=
  match a with
  | Fin x => Fin (Qabs x)
  | NaN => NaN
  | PInf | NInf => PInf
  end.

(** [Math.max(a, b)] and [Math.min(a, b)]: [NaN] if either argument is. *)
Definition max (a b : num) : num :=
  match a, b with
  | NaN, _ | _, NaN => NaN
  | _, _ => if le a b then b else a
  end.

Definition min (a b : num) : num :=
  match a, b with
  | NaN, _ | _, NaN => NaN
  | _, _ => if le a b then a else b
  end.

Definition floor (a : num) : num :=
  match a with
  | Fin x => Fin (inject_Z (Qfloor x))
  | _ => a
  end.

(** [Math.round]: the nearest integer, ties towards +Infinity. *)
Definition mround (a : num) : num :=
  match a with
  | Fin x => Fin (inject_Z (Qfloor (x + (1 # 2))))
  | _ => a
  end.

Definition of_Z (z : Z) : num := Fin (inject_Z z).
Definition of_nat (n : nat) : num := of_Z (Z.of_nat n).

(** ** Strings *)

Definition is_space (c : ascii) : bool :=
  let n := nat_of_ascii c in
  (n =? 32)%nat || ((9 <=? n)%nat && (n <=? 13)%nat).

Fixpoint trimStart (s : string) : string :=
  match s with
  | String c r => if is_space c then trimStart r else s
  | EmptyString => s
  end.

Definition rev_string (s : string) : string :=
  string_of_list_ascii (rev (list_ascii_of_string s)).

Definition trim (s : string) : string :=
  rev_string (trimStart (rev_string (trimStart s))).

Fixpoint startsWith (s p : string) : bool :=
  match p, s with
  | EmptyString, _ => true
  | String a p', String b s' => Ascii.eqb a b && startsWith s' p'
  | String _ _, EmptyString => false
  end.

Definition endsWith (s p : string) : bool :=
  startsWith (rev_string s) (rev_string p).

Definition lower_ascii (c : ascii) : ascii :=
  let n := nat_of_ascii c in
  if (65 <=? n)%nat && (n <=? 90)%nat then ascii_of_nat (n + 32) else c.

(** [toLowerCase] on the ASCII letters; the results are only ever compared
    with ASCII literals. *)
Fixpoint toLowerCase (s : string) : string :=
  match s with
  | String c r => String (lower_ascii c) (toLowerCase r)
  | EmptyString => EmptyString
  end.

(** [s.split("::")]: the segments between occurrences of the separator. *)
Fixpoint split_colons (s : string) (cur : list ascii) : list string :=
  match s with
  | String ":" (String ":" r) =>
      string_of_list_ascii (rev cur) :: split_colons r []
  | String c r => split_colons r (c :: cur)
  | EmptyString => [string_of_list_ascii (rev cur)]
  end.

Fixpoint join (sep : string) (l : list string) : string :=
  match l with
  | [] => ""
  | [x] => x
  | x :: r => x ++ sep ++ join sep r
  end.

(** ** Values and objects *)

Inductive value :=
| VUndef
| VNull
| VBool (b : bool)
| VNum (n : num)
| VStr (s : string)
| VArr (l : list value)
| VObj (o : gmap string value).

(** Property read [o.k]: absent properties are [undefined]. *)
Definition get (o : gmap string value) (k : string) : value :=
  default VUndef (o !! k).

(** Property read through a value, [v.k] (with [v?.k] on null/undefined). *)
Definition prop (v : value) (k : string) : value :=
  match v with VObj o => get o k | _ => VUndef end.

Definition truthy (v : value) : bool :=
  match v with
  | VUndef | VNull => false
  | VBool b => b
  | VNum (Fin q) => negb (Qeq_bool q 0)
  | VNum NaN => false
  | VNum _ => true
  | VStr s => negb (String.eqb s "")
  | VArr _ | VObj _ => true
  end.

Definition nullish (v : value) : bool :=
  match v with VUndef | VNull => true | _ => false end.

(** [a || b] and [a ?? b]. *)
Definition or_ (a b : value) : value := if truthy a then a else b.
Definition coalesce (a b : value) : value := if nullish a then b else a.

(** [a === b]; two object or array values never denote the same reference
    here, every object compared by the sources being a primitive. *)
Definition strict_eq (a b : value) : bool :=
  match a, b with
  | VUndef, VUndef | VNull, VNull => true
  | VBool x, VBool y => Bool.eqb x y
  | VNum x, VNum y => eqb x y
  | VStr x, VStr y => String.eqb x y
  | _, _ => false
  end.

Definition is_true (v : value) : bool :=
  match v with VBool true => true | _ => false end.

Definition Number_isFinite (v : value) : bool :=
  match v with VNum (Fin _) => true | _ => false end.

(** *** Numeric literals in strings *)

Definition digit_of (radix : N) (c : ascii) : option N :=
  let n := N_of_ascii c in
  let d :=
    if (48 <=? n)%N && (n <=? 57)%N then Some (n - 48)%N
    else if (97 <=? n)%N && (n <=? 122)%N then Some (n - 87)%N
    else if (65 <=? n)%N && (n <=? 90)%N then Some (n - 55)%N
    else None in
  match d with
  | Some k => if (k <? radix)%N then Some k else None
  | None => None
  end.

(** The longest prefix of digits: its value, its length, and the rest. *)
Fixpoint take_digits (radix : N) (s : string) (acc : N) (cnt : nat)
  : N * nat * string :=
  match s with
  | String c r =>
      match digit_of radix c with
      | Some d => take_digits radix r (acc * radix + d)%N (S cnt)
      | None => (acc, cnt, s)
      end
  | EmptyString => (acc, cnt, s)
  end.

Definition pow10 (z : Z) : Q := Qpower (10 # 1) z.

(** An optional exponent part: the exponent and the rest; an [e] that is not
    followed by digits is not part of the literal. *)
Definition take_exponent (s : string) : Z * string :=
  match s with
  | String c r =>
      if Ascii.eqb (lower_ascii c) "e" then
        let '(negative, r') :=
          match r with
          | String "-" t => (true, t)
          | String "+" t => (false, t)
          | _ => (false, r)
          end in
        let '(e, n, rest) := take_digits 10 r' 0%N 0%nat in
        match n with
        | O => (0%Z, s)
        | _ => ((if negative then - Z.of_N e else Z.of_N e)%Z, rest)
        end
      else (0%Z, s)
  | EmptyString => (0%Z, s)
  end.

(** An unsigned decimal literal at the start of [s]: the number (or [NaN]
    when there is none) and the rest. *)
Definition take_decimal (s : string) : num * string :=
  if startsWith s "Infinity" then (PInf, String.substring 8 (String.length s - 8) s)
  else
    let '(ip, ni, r1) := take_digits 10 s 0%N 0%nat in
    let '(fp, nf, r2) :=
      match r1 with
      | String "." t => take_digits 10 t 0%N 0%nat
      | _ => (0%N, 0%nat, r1)
      end in
    match (ni + nf)%nat with
    | O => (NaN, s)
    | _ =>
        let '(e, r3) := take_exponent r2 in
        let mant := (inject_Z (Z.of_N ip) +
                     inject_Z (Z.of_N fp) / pow10 (Z.of_nat nf))%Q in
        (Fin (mant * pow10 e), r3)
    end.

Definition take_signed (s : string) : num * string :=
  match s with
  | String "-" r => let '(n, rest) := take_decimal r in (neg n, rest)
  | String "+" r => take_decimal r
  | _ => take_decimal s
  end.

(** [Number.parseFloat] on a string: the longest numeric prefix after leading
    white space. *)
Definition parseFloat_string (s : string) : num :=
  fst (take_signed (trimStart s)).

(** [Number(s)]: the whole trimmed string must be one numeric literal; the
    empty string is 0. *)
Definition number_of_string (s : string) : num :=
  let t := trim s in
  match t with
  | EmptyString => Fin 0
  | String "0" (String x r) =>
      let radix :=
        match lower_ascii x with
        | "x"%char => Some 16%N
        | "o"%char => Some 8%N
        | "b"%char => Some 2%N
        | _ => None
        end in
      match radix with
      | Some k =>
          match take_digits k r 0%N 0%nat with
          | (v, S _, EmptyString) => Fin (inject_Z (Z.of_N v))
          | _ => NaN
          end
      | None =>
          match take_signed t with
          | (n, EmptyString) => n
          | _ => NaN
          end
      end
  | _ =>
      match take_signed t with
      | (n, EmptyString) => n
      | _ => NaN
      end
  end.

(** [Number.parseFloat(v)]: the argument is converted to a string first; an
    array prints as its elements separated by commas, so only its first
    element can contribute a numeric prefix. *)
Fixpoint parseFloat (v : value) : num :=
  match v with
  | VNum n => n
  | VStr s => parseFloat_string s
  | VArr (x :: _) => parseFloat x
  | _ => NaN
  end.

(** *** The host environment

    Built-ins whose result the language leaves to the implementation or
    whose definition lies outside the sources. *)
Class Host := {
  (** [Number.prototype.toString] *)
  number_to_string : num -> string;
  (** [a.localeCompare(b)]: negative, zero or positive *)
  localeCompare : string -> string -> Z;
  (** [JSON.parse]; [None] when it throws *)
  JSON_parse : string -> option value;
  (** [JSON.stringify] *)
  JSON_stringify : value -> string;
  (** [new Date(v).getTime()]; [None] for an invalid date *)
  date_time : value -> option Z;
  (** the translation function [__] *)
  translate : string -> string;
}.

Section WithHost.
Context `{Host}.

(** [String(v)] and template-literal interpolation. *)
Fixpoint to_string (v : value) : string :=
  match v with
  | VUndef => "undefined"
  | VNull => "null"
  | VBool true => "true"
  | VBool false => "false"
  | VNum n => number_to_string n
  | VStr s => s
  | VArr l =>
      join "," (map (fun x => match x with
                              | VUndef | VNull => ""%string
                              | _ => to_string x
                              end) l)
  | VObj _ => "[object Object]"
  end.

(** [Number(v)], the conversion applied by arithmetic operators and [Math]
    functions. *)
Definition to_number (v : value) : num :=
  match v with
  | VUndef => NaN
  | VNull => Fin 0
  | VBool true => Fin 1
  | VBool false => Fin 0
  | VNum n => n
  | VStr s => number_of_string s
  | VArr _ => number_of_string (to_string v)
  | VObj _ => NaN
  end.

End WithHost.

End Js.

Import Js.
Abbreviation obj := (gmap string value).


Definition vnum (q : Q) : value := VNum (Fin q).
Definition vstr (s : string) : value := VStr s.
Definition vopt (o : option num) : value :=
  match o with Some n => VNum n | None => VNull end.

(** [n || d] on numbers: [0] and [NaN] are falsy. *)
Definition num_or (n d : num) : num := if truthy (VNum n) then n else d.

(** * The rule evaluator ([pricingEngine.js])

    Rules, slabs, cart items and the pricing context are objects.  Entries of
    the arrays handed to the evaluator (index buckets, [slabs]) are objects:
    the type errors JavaScript raises on a [null] entry are not modelled. *)

Section PricingEngine.
Context `{Host}.

Definition parseOptionalFloat (v : value) : option num :=
  let numeric := parseFloat v in
  if isFinite numeric then Some numeric else None.

Definition DEFAULT_PRECISION : Z := 6.

(** [round(value)] at the default precision. *)
Definition round (v : value) : num :=
  let numeric := parseFloat (or_ v (vnum 0)) in
  if negb (isFinite numeric) then Fin 0
  else
    let factor := Fin (pow10 DEFAULT_PRECISION) in
    div (mround (mul numeric factor)) factor.

Definition inDateRange (currentDate start end_ : value) : bool :=
  if negb (truthy currentDate) then true
  else
    match date_time currentDate with
    | None => true
    | Some now =>
        let before_start :=
          truthy start &&
          match date_time start with
          | Some from => (now <? from)%Z
          | None => false
          end in
        if before_start then false
        else
          let after_end :=
            truthy end_ &&
            match date_time end_ with
            | Some to => (to <? now)%Z
            | None => false
            end in
          negb after_end
    end.

(** The shape shared by every filter of [matchParty] and
    [matchPriceListAndCurrency]: a filter set on the rule must be matched by
    a value that is present. *)
Definition mismatch (want have : value) : bool :=
  truthy want && truthy have && negb (strict_eq want have).
Definition missing (want have : value) : bool :=
  truthy want && negb (truthy have).

Definition matchParty (rule : obj) (customer customerGroup territory : value)
  : bool :=
  if mismatch (get rule "customer") customer then false
  else if mismatch (get rule "customer_group") customerGroup then false
  else if mismatch (get rule "territory") territory then false
  else if missing (get rule "customer") customer then false
  else if missing (get rule "customer_group") customerGroup then false
  else if missing (get rule "territory") territory then false
  else true.

Definition matchPriceListAndCurrency (rule : obj) (priceList currency : value)
  : bool :=
  if mismatch (get rule "price_list") priceList then false
  else if mismatch (get rule "currency") currency then false
  else if missing (get rule "price_list") priceList then false
  else if missing (get rule "currency") currency then false
  else true.

(** Membership in a [Set] (the SameValueZero comparison). *)
Definition same_value_zero (a b : value) : bool :=
  match a, b with
  | VNum NaN, VNum NaN => true
  | _, _ => strict_eq a b
  end.

Definition set_has (seen : list value) (v : value) : bool :=
  existsb (same_value_zero v) seen.

(** [pushUnique], threading the bucket and the set of names seen. *)
Definition pushUnique (acc : list obj * list value) (rule : obj)
  : list obj * list value :=
  let '(bucket, seen) := acc in
  if set_has seen (get rule "name") then acc
  else (bucket ++ [rule], seen ++ [get rule "name"]).

(** The rule index: three [Map]s from a code to a bucket and the general
    bucket.  A field is [None] when the bundle does not carry a [Map] (an
    array for [general]) there. *)
Record IndexBundle := {
  byItem : option (gmap string (list obj));
  byGroup : option (gmap string (list obj));
  byBrand : option (gmap string (list obj));
  general : option (list obj);
}.

(** [key && m instanceof Map && m.has(key)] followed by [m.get(key)]; the
    keys of the index are strings. *)
Definition bucket_of (m : option (gmap string (list obj))) (key : value)
  : list obj :=
  match m, key with
  | Some m, VStr k => if truthy key then default [] (m !! k) else []
  | _, _ => []
  end.

Definition collectCandidates (item : obj) (indexBundle : IndexBundle)
  : list obj :=
  let acc := ([], []) in
  let acc := fold_left pushUnique
               (bucket_of (byItem indexBundle) (get item "item_code")) acc in
  let acc := fold_left pushUnique
               (bucket_of (byGroup indexBundle) (get item "item_group")) acc in
  let acc := fold_left pushUnique
               (bucket_of (byBrand indexBundle) (get item "brand")) acc in
  let acc := fold_left pushUnique (default [] (general indexBundle)) acc in
  fst acc.

Definition max3 (a b c : num) : num := max (max a b) c.

Definition ruleBenefitScore (rule : obj) : num :=
  let discount := abs (to_number (or_ (get rule "rate_or_discount") (vnum 0))) in
  let margin :=
    abs (to_number (or_ (get rule "margin_rate_or_amount") (vnum 0))) in
  let freebies :=
    add (abs (to_number (or_ (get rule "free_qty") (vnum 0))))
        (abs (to_number (or_ (get rule "free_qty_per_unit") (vnum 0)))) in
  max3 discount margin freebies.

Definition ruleSort (a b : obj) : num :=
  let spec_a := or_ (get a "specificity") (vnum 0) in
  let spec_b := or_ (get b "specificity") (vnum 0) in
  if negb (strict_eq spec_b spec_a) then
    sub (to_number spec_b) (to_number spec_a)
  else
    let prio_a := or_ (get a "priority") (vnum 0) in
    let prio_b := or_ (get b "priority") (vnum 0) in
    if negb (strict_eq prio_b prio_a) then
      sub (to_number prio_b) (to_number prio_a)
    else
      let benefitDelta := sub (ruleBenefitScore b) (ruleBenefitScore a) in
      if negb (eqb benefitDelta (Fin 0)) then benefitDelta
      else
        of_Z (localeCompare (to_string (or_ (get a "name") (vstr "")))
                            (to_string (or_ (get b "name") (vstr "")))).

(** [Array.prototype.sort(cmp)]: a stable sort; [x] goes before the first
    element that does not compare below it. *)
Fixpoint sort_insert (cmp : obj -> obj -> num) (x : obj) (l : list obj)
  : list obj :=
  match l with
  | [] => [x]
  | y :: l' =>
      if lt (cmp y x) (Fin 0) then y :: sort_insert cmp x l'
      else x :: y :: l'
  end.

Definition sort_by (cmp : obj -> obj -> num) (l : list obj) : list obj :=
  foldr (fun x acc => sort_insert cmp x acc) [] l.

(** [rule.slabs] as an array, when it is a non-empty one. *)
Definition slabs_of (rule : obj) : list value :=
  match get rule "slabs" with VArr l => l | _ => [] end.

Definition selectSlab_step (qty : num) (chosen : option value) (slab : value)
  : option value :=
  let minQty := parseFloat (or_ (prop slab "min_qty") (vnum 0)) in
  if ge qty minQty &&
     match chosen with
     | None => true
     | Some c => ge minQty (parseFloat (or_ (prop c "min_qty") (vnum 0)))
     end
  then Some slab else chosen.

Definition selectSlab (rule : obj) (qty : num) : option value :=
  fold_left (selectSlab_step qty) (slabs_of rule) None.

Definition applyMargin (baseRate : num) (rule : obj) : num :=
  let marginType := or_ (get rule "margin_type") (get rule "discount_type") in
  let marginValue :=
    parseFloat (or_ (or_ (get rule "margin_rate_or_amount")
                         (get rule "rate_or_discount")) (vnum 0)) in
  if negb (truthy (VNum marginValue)) then baseRate
  else if strict_eq marginType (vstr "Amount") then add baseRate marginValue
  else if strict_eq marginType (vstr "Percentage") then
    mul baseRate (add (Fin 1) (div marginValue (Fin 100)))
  else baseRate.

Definition resolveSlabValue (rule : obj) (slab : option value) : num :=
  match slab with
  | Some sl =>
      if negb (nullish (prop sl "rate_or_discount"))
      then parseFloat (prop sl "rate_or_discount")
      else parseFloat (or_ (get rule "rate_or_discount") (vnum 0))
  | None => parseFloat (or_ (get rule "rate_or_discount") (vnum 0))
  end.

Record RuleResult := {
  newRate : num;
  discount : num;
  detail : option obj;
}.

(** [String(v || "").toLowerCase()] *)
Definition lower_of (v : value) : string :=
  toLowerCase (to_string (or_ v (vstr ""))).

Definition applyOneRule (currentRate : num) (rule : obj) (qty baseRate : num)
  : RuleResult :=
  let slab := selectSlab rule qty in
  let value := resolveSlabValue rule slab in
  let rawType := lower_of (get rule "rate_or_discount_type") in
  let priceMode := lower_of (get rule "price_or_discount") in
  let discountType := lower_of (get rule "discount_type") in
  let isAmount :=
    String.eqb rawType "discount amount" || String.eqb discountType "amount" in
  let isMargin :=
    String.eqb discountType "margin" || truthy (get rule "margin_type") in
  let isPriceOverride :=
    String.eqb priceMode "price" &&
    (String.eqb rawType "rate" || String.eqb rawType "price" ||
     (String.eqb rawType "" && String.eqb discountType "rate")) in
  if truthy (get rule "is_free_item_rule") then
    {| newRate := currentRate; discount := Fin 0; detail := None |}
  else
    let '(newRate, type) :=
      if isPriceOverride then
        if isAmount then (sub currentRate value, vstr "Amount")
        else (num_or value currentRate, vstr "Rate")
      else if isMargin then
        (applyMargin baseRate rule, or_ (get rule "margin_type") (vstr "Margin"))
      else if isAmount then (sub currentRate value, vstr "Amount")
      else
        let percent := value in
        (mul currentRate (sub (Fin 1) (div percent (Fin 100))), vstr "Rate") in
    let newRate := if negb (isFinite newRate) then currentRate else newRate in
    let newRate := max (Fin 0) newRate in
    let change := sub currentRate newRate in
    let detail : obj :=
      {[ "name" := get rule "name"; "type" := type;
         "value" := VNum value; "change" := VNum change ]} in
    {| newRate := newRate; discount := change; detail := Some detail |}.

(** [(rule.price_or_discount || "").toLowerCase() === "product"]; the method
    exists on strings only. *)
Definition isFreeRule (rule : obj) : bool :=
  truthy (get rule "is_free_item_rule") ||
  match or_ (get rule "price_or_discount") (vstr "") with
  | VStr s => String.eqb (toLowerCase s) "product"
  | _ => false
  end.

Definition computeThresholdInfo (rule : obj) (qty : num) : num * num :=
  let minimum :=
    num_or (parseFloat (or_ (or_ (get rule "min_qty") (get rule "recurse_for"))
                            (vnum 1))) (Fin 1) in
  let multiplier :=
    if truthy (get rule "apply_per_threshold") then
      let divisor :=
        num_or (parseFloat (or_ (or_ (get rule "recurse_for")
                                     (get rule "min_qty")) (vnum 1))) (Fin 1) in
      floor (div qty divisor)
    else if ge qty minimum then Fin 1 else Fin 0 in
  (minimum, multiplier).

(** [a ?? b] on the results of [parseOptionalFloat]. *)
Definition orElse {A} (a b : option A) : option A :=
  match a with Some _ => a | None => b end.

(** Optional properties of an object literal, [...(c ? {...} : {})]. *)
Definition with_opt (k : string) (v : option value) (o : obj) : obj :=
  match v with Some x => <[k := x]> o | None => o end.

Definition applyFreeItemRule (rule item : obj) (effectiveQty : num)
  : option obj :=
  let '(minimum, multiplier) := computeThresholdInfo rule effectiveQty in
  let thresholdQty := minimum in
  let freePerThreshold :=
    if truthy (get rule "free_qty_per_unit")
    then num_or (parseFloat (or_ (get rule "free_qty_per_unit") (vnum 0))) (Fin 0)
    else num_or (parseFloat (or_ (get rule "free_qty") (vnum 0))) (Fin 0) in
  let freeQty :=
    if truthy (get rule "apply_per_threshold") then
      mul multiplier freePerThreshold
    else if truthy (get rule "free_qty_per_unit") then
      mul effectiveQty (parseFloat (or_ (get rule "free_qty_per_unit") (vnum 0)))
    else num_or (parseFloat (or_ (get rule "free_qty") (vnum 0))) (Fin 0) in
  let freeQty :=
    if negb (nullish (get rule "max_free_qty"))
    then min freeQty (parseFloat (get rule "max_free_qty"))
    else freeQty in
  let freeQty :=
    if truthy (get rule "round_free_qty") then floor freeQty else freeQty in
  if le freeQty (Fin 0) then None
  else
    let sameItem := truthy (get rule "same_item") in
    let uom :=
      if sameItem then or_ (get item "stock_uom") (get item "uom") else VNull in
    let conversionFactor := if sameItem then vnum 1 else VNull in
    let rawBaseRate :=
      orElse (parseOptionalFloat (get rule "free_item_base_rate"))
        (orElse (parseOptionalFloat (get rule "base_free_item_rate"))
                (parseOptionalFloat (get rule "free_item_rate"))) in
    let rawDisplayRate :=
      orElse (parseOptionalFloat (get rule "free_item_rate"))
             (parseOptionalFloat (get rule "rate_for_free_item")) in
    let baseRate := orElse rawBaseRate rawDisplayRate in
    let rawBasePriceListRate :=
      orElse (parseOptionalFloat (get rule "free_item_base_price_list_rate"))
        (orElse (parseOptionalFloat (get rule "free_item_price_list_rate"))
                (parseOptionalFloat (get rule "base_for_price_list_rate"))) in
    let rawDisplayPriceListRate :=
      orElse (parseOptionalFloat (get rule "free_item_price_list_rate"))
             (parseOptionalFloat (get rule "for_price_list_rate")) in
    let basePriceListRate :=
      orElse rawBasePriceListRate (orElse rawDisplayPriceListRate baseRate) in
    let baseDiscount :=
      orElse (parseOptionalFloat (get rule "free_item_base_discount_amount"))
             (parseOptionalFloat (get rule "free_item_discount_amount")) in
    let baseDiscount :=
      match baseDiscount, basePriceListRate, baseRate with
      | None, Some plr, Some r => Some (max (sub plr r) (Fin 0))
      | _, _, _ => baseDiscount
      end in
    let discountPercentage :=
      orElse (parseOptionalFloat (get rule "free_item_discount_percentage"))
        match basePriceListRate with
        | Some plr =>
            if truthy (VNum plr) then
              Some (max (mul (div (default (Fin 0) baseDiscount) plr) (Fin 100))
                        (Fin 0))
            else None
        | None => None
        end in
    let d : obj :=
      {[ "item_code" :=
           (if sameItem then get item "item_code"
            else or_ (get rule "free_item") (get item "item_code"));
         "qty" := VNum freeQty;
         "stock_qty" := VNum freeQty;
         "rule" := get rule "name";
         "same_item" := VBool sameItem;
         "min_qty" := VNum minimum;
         "multiplier" := VNum multiplier;
         "apply_per_threshold" :=
           VBool (truthy (get rule "apply_per_threshold") ||
                  truthy (get rule "is_recursive") ||
                  truthy (get rule "recurse_for"));
         "max_free_qty" := get rule "max_free_qty";
         "threshold_qty" := VNum thresholdQty;
         "free_qty_per_threshold" := VNum freePerThreshold;
         "uom" := uom;
         "conversion_factor" := conversionFactor ]} in
    let d :=
      match baseRate with
      | Some r =>
          <["rate" := VNum (default r rawDisplayRate)]> (<["base_rate" := VNum r]> d)
      | None => d
      end in
    let d :=
      match basePriceListRate with
      | Some plr =>
          <["price_list_rate" := VNum (default plr rawDisplayPriceListRate)]>
            (<["base_price_list_rate" := VNum plr]> d)
      | None => d
      end in
    let d :=
      match baseDiscount with
      | Some bd =>
          <["discount_amount" :=
              VNum (default bd
                      (parseOptionalFloat (get rule "free_item_discount_amount")))]>
            (<["base_discount_amount" := VNum bd]> d)
      | None => d
      end in
    let d :=
      match discountPercentage with
      | Some dp => <["discount_percentage" := VNum dp]> d
      | None => d
      end in
    Some d.

Record Pricing := {
  rate : num;
  discountPerUnit : num;
  applied : list obj;
}.

Record Evaluation := {
  pricing : Pricing;
  freebies : list obj;
}.

(** The argument object of [evaluatePricingRules]; [ctx] is the empty object
    when the caller passes none. *)
Record EvalArgs := {
  arg_item : obj;
  arg_qty : value;
  arg_docQty : value;
  arg_baseRate : value;
  arg_ctx : obj;
  arg_indexes : IndexBundle;
}.

Definition nonneg_finite (n : num) : num :=
  max (Fin 0) (if isFinite n then n else Fin 0).

Definition effectiveQty_of (a : EvalArgs) : num :=
  let item := arg_item a in
  let rawRuleQty :=
    parseFloat (coalesce (coalesce (arg_qty a) (get item "qty")) (vnum 0)) in
  let rawDocQty :=
    if negb (strict_eq (arg_docQty a) VUndef) then parseFloat (arg_docQty a)
    else parseFloat (coalesce (get item "qty") (VNum rawRuleQty)) in
  let rawStockQty :=
    parseFloat (coalesce (coalesce (coalesce (get item "stock_qty")
                                             (get item "base_qty"))
                                   (get item "base_quantity")) (vnum 0)) in
  let absoluteQty := nonneg_finite rawRuleQty in
  let absoluteDocQty := nonneg_finite rawDocQty in
  let absoluteStockQty := nonneg_finite rawStockQty in
  max3 absoluteQty absoluteDocQty absoluteStockQty.

Definition startRate_of (a : EvalArgs) : num :=
  let item := arg_item a in
  let effectiveBase :=
    if Number_isFinite (arg_baseRate a) then parseFloat (arg_baseRate a)
    else parseFloat (or_ (or_ (or_ (get item "base_price_list_rate")
                                   (get item "price_list_rate"))
                              (get item "rate")) (vnum 0)) in
  if isFinite effectiveBase then effectiveBase else Fin 0.

Definition validCandidates_of (a : EvalArgs) : list obj :=
  let ctx := arg_ctx a in
  let candidates := collectCandidates (arg_item a) (arg_indexes a) in
  let l := List.filter (fun rule =>
             inDateRange (get ctx "date") (get rule "valid_from")
                         (get rule "valid_upto")) candidates in
  let l := List.filter (fun rule =>
             matchParty rule (get ctx "customer") (get ctx "customer_group")
                        (get ctx "territory")) l in
  List.filter (fun rule =>
    matchPriceListAndCurrency rule (get ctx "price_list") (get ctx "currency")) l.

Definition pricingRules_of (a : EvalArgs) : list obj :=
  let effectiveQty := effectiveQty_of a in
  sort_by ruleSort
    (List.filter (fun rule =>
       let minimum := parseFloat (or_ (get rule "min_qty") (vnum 0)) in
       ge effectiveQty minimum)
       (List.filter (fun rule => negb (isFreeRule rule)) (validCandidates_of a))).

Definition freeRules_of (a : EvalArgs) : list obj :=
  let effectiveQty := effectiveQty_of a in
  sort_by ruleSort
    (List.filter (fun rule =>
       let minimum :=
         num_or (parseFloat (or_ (or_ (get rule "min_qty") (get rule "recurse_for"))
                                 (vnum 1))) (Fin 1) in
       ge effectiveQty minimum)
       (List.filter isFreeRule (validCandidates_of a))).

(** The loop over the sorted pricing rules, with its two [break]s. *)
Fixpoint apply_chain (effectiveQty startRate : num) (rules : list obj)
  (rate : num) (applied : list obj) : num * list obj :=
  match rules with
  | [] => (rate, applied)
  | rule :: rest =>
      let r := applyOneRule rate rule effectiveQty startRate in
      let rate := newRate r in
      let applied :=
        match detail r with Some d => applied ++ [d] | None => applied end in
      if truthy (get rule "stop_further_rules") then (rate, applied)
      else if negb (truthy (get rule "apply_multiple_pricing_rules"))
      then (rate, applied)
      else apply_chain effectiveQty startRate rest rate applied
  end.

(** The loop over the sorted free-item rules. *)
Fixpoint collect_freebies (item : obj) (effectiveQty : num) (rules : list obj)
  (freebies : list obj) : list obj :=
  match rules with
  | [] => freebies
  | rule :: rest =>
      let freebies :=
        match applyFreeItemRule rule item effectiveQty with
        | Some freebie => freebies ++ [freebie]
        | None => freebies
        end in
      if truthy (get rule "stop_further_rules") then freebies
      else collect_freebies item effectiveQty rest freebies
  end.

Definition evaluatePricingRules (a : EvalArgs) : Evaluation :=
  let effectiveQty := effectiveQty_of a in
  let startRate := startRate_of a in
  let pricingRules := pricingRules_of a in
  let pricing :=
    match pricingRules with
    | [] => {| rate := round (VNum startRate);
               discountPerUnit := Fin 0;
               applied := [] |}
    | _ =>
        let '(rate, applied) :=
          apply_chain effectiveQty startRate pricingRules startRate [] in
        {| rate := round (VNum rate);
           discountPerUnit := round (VNum (sub startRate rate));
           applied := applied |}
    end in
  let freeRules := freeRules_of a in
  {| pricing := pricing;
     freebies := collect_freebies (arg_item a) effectiveQty freeRules [] |}.

End PricingEngine.

(** * The invoice component (pricing methods)

    [this] is split in two: the data and methods the pricing pass only reads
    ([Component]) and the part it mutates ([Cart]). *)

Record Component := {
  exchange_rate : value;
  currency_precision : value;
  float_precision : value;
  (** [this.flt(value, precision)].  The method is part of the component and
      [_applyPricingToLine] calls it unguarded, so the guards
      [this.flt ? ... : ...] always take their first branch. *)
  flt : value -> value -> num;
  (** [this.calc_stock_qty(line, qty)], which updates [line] in place;
      defined through [calcStockQty], outside the sources. *)
  calc_stock_qty : obj -> value -> obj;
  (** [this.get_new_item(template)], defined through [getNewItem], outside
      the sources; the first argument is the identity of the new object. *)
  get_new_item : nat -> obj -> obj;
  (** [this._getItemsStore().getItemByCode(code)]: an item object or [null]. *)
  getItemByCode : value -> value;
}.

(** A cart line is an object with an identity. *)
Abbreviation line := (nat * obj)%type.

Record Cart := {
  items : list line;
  packed_items : list obj;
  (** the identity given to the next object created *)
  next_oid : nat;
}.

(** A [Map] with string keys, in insertion order. *)
Abbreviation smap := (list (string * obj)).

Fixpoint smap_get (m : smap) (k : string) : option obj :=
  match m with
  | [] => None
  | (k', v) :: r => if String.eqb k' k then Some v else smap_get r k
  end.

Fixpoint smap_set (m : smap) (k : string) (v : obj) : smap :=
  match m with
  | [] => [(k, v)]
  | (k', v') :: r =>
      if String.eqb k' k then (k', v) :: r else (k', v') :: smap_set r k v
  end.

Definition smap_keys (m : smap) : list string := map fst m.

Definition newline : string := String (ascii_of_nat 10) EmptyString.

Section InvoiceItemMethods.
Context `{Host}.
Variable this : Component.

Definition _toBaseCurrency (v : value) : num :=
  let rate := num_or (parseFloat (or_ (exchange_rate this) (vnum 1))) (Fin 1) in
  if negb (truthy (VNum rate)) || eqb rate (Fin 0)
  then num_or (parseFloat (or_ v (vnum 0))) (Fin 0)
  else div (parseFloat (or_ v (vnum 0))) rate.

Definition _fromBaseCurrency (v : value) : num :=
  let rate := num_or (parseFloat (or_ (exchange_rate this) (vnum 1))) (Fin 1) in
  let numeric := num_or (parseFloat (or_ v (vnum 0))) (Fin 0) in
  if truthy (VNum rate) then mul numeric rate else numeric.

(** The first entry that parses to a finite number. *)
Definition first_finite (candidates : list value) : option num :=
  head (omap parseOptionalFloat candidates).

Definition _resolveBaseRate (item : obj) : num :=
  default (Fin 0)
    (first_finite [get item "base_price_list_rate"; get item "price_list_rate";
                   get item "base_rate"; get item "rate"]).

Definition _resolvePricingQty (item : obj) : num :=
  let parse := parseOptionalFloat in
  match first_finite [get item "stock_qty"; get item "base_qty";
                      get item "base_quantity"; get item "transfer_qty"] with
  | Some direct => direct
  | None =>
      match parse (get item "qty") with
      | None => Fin 0
      | Some qty =>
          let factor :=
            head (List.filter
                    (fun v => negb (eqb v (Fin 0)) && negb (eqb v (Fin 1)))
                    (omap parse [get item "conversion_factor";
                                 get item "uom_conversion_factor"])) in
          match factor with
          | Some factor => mul qty factor
          | None => qty
          end
      end
  end.

Definition _updatePricingBadge (item : obj) (applied : list obj) : obj :=
  match applied with
  | [] =>
      let item := delete "pricing_rule_badge" item in
      let item := <["pricing_rule_details" := VArr []]> item in
      <["pricing_rules" := VNull]> item
  | _ =>
      let names :=
        List.filter truthy (map (fun detail => get detail "name") applied) in
      let first := default VUndef (head names) in
      let extraCount :=
        if (1 <? length names)%nat then (length names - 1)%nat else 0%nat in
      let label :=
        match extraCount with
        | O => translate "Pricing Rule" +:+ ": " +:+ to_string first
        | _ => translate "Pricing Rule" +:+ ": " +:+ to_string first +:+
               " (+" +:+ to_string (VNum (of_nat extraCount)) +:+ ")"
        end in
      let tooltip :=
        join newline
          (map (fun detail =>
                  let typeLabel :=
                    if truthy (get detail "type")
                    then " (" +:+ to_string (get detail "type") +:+ ")"
                    else "" in
                  to_string (get detail "name") +:+ typeLabel) applied) in
      let item :=
        <["pricing_rule_badge" :=
            VObj {[ "label" := VStr label; "tooltip" := VStr tooltip;
                    "names" := VArr names ]}]> item in
      let item := <["pricing_rule_details" := VArr (map VObj applied)]> item in
      <["pricing_rules" := VStr (JSON_stringify (VArr names))]> item
  end.

(** The key under which [_applyPricingToLine] files a freebie. *)
Definition freebie_key (entry item : obj) : string :=
  to_string (get entry "rule") +:+ "::" +:+ to_string (get entry "item_code") +:+
  "::" +:+ to_string (get item "posa_row_id").

Definition merge_freebie (item : obj) (freebiesMap : smap) (entry : obj)
  : smap :=
  let key := freebie_key entry item in
  let existing := default {[ "qty" := vnum 0 ]} (smap_get freebiesMap key) in
  let parsedEntryQty :=
    num_or (parseFloat (or_ (get entry "qty") (vnum 0))) (Fin 0) in
  let parsedExistingQty :=
    num_or (parseFloat (or_ (get existing "qty") (vnum 0))) (Fin 0) in
  let parsedEntryStock :=
    num_or (parseFloat (or_ (or_ (get entry "stock_qty") (get entry "qty"))
                            (vnum 0))) (Fin 0) in
  let parsedExistingStock :=
    num_or (parseFloat (or_ (or_ (get existing "stock_qty") (get existing "qty"))
                            (vnum 0))) (Fin 0) in
  smap_set freebiesMap key
    (<["parentRowId" := get item "posa_row_id"]>
       (<["stock_qty" := VNum (add parsedEntryStock parsedExistingStock)]>
          (<["qty" := VNum (add parsedEntryQty parsedExistingQty)]>
             (entry ∪ existing)))).

Definition manualOverride_of (item : obj) : bool :=
  let manualFromUom := is_true (get item "_manual_rate_set_from_uom") in
  is_true (get item "_manual_rate_set") && negb manualFromUom.

Definition allowRateUpdate_of (item : obj) : bool :=
  negb (truthy (get item "locked_price")) &&
  negb (truthy (get item "posa_offer_applied")) &&
  negb (manualOverride_of item).

Definition signedDocQty_of (item : obj) : num :=
  let rawDocQty := parseFloat (or_ (get item "qty") (vnum 0)) in
  if isFinite rawDocQty then rawDocQty else Fin 0.

Definition docQty_of (item : obj) : num := abs (signedDocQty_of item).

Definition pricingQty_of (item : obj) : num :=
  let rawPricingQty := _resolvePricingQty item in
  let pricingQty :=
    if isFinite rawPricingQty then rawPricingQty else signedDocQty_of item in
  abs pricingQty.

(** The argument object [_applyPricingToLine] hands to the evaluator. *)
Definition line_args (item ctx : obj) (indexes : IndexBundle) : EvalArgs :=
  {| arg_item := item;
     arg_qty := VNum (pricingQty_of item);
     arg_docQty := VNum (docQty_of item);
     arg_baseRate := VNum (_resolveBaseRate item);
     arg_ctx := ctx;
     arg_indexes := indexes |}.

(** The body of [if (allowRateUpdate) { ... }]; [baseRate] and
    [signedDocQty] were computed on entry. *)
Definition apply_rate_update (item : obj) (pricing : Pricing)
  (baseRate signedDocQty : num) : obj :=
  let proposedRate :=
    if isFinite (rate pricing) then rate pricing else baseRate in
  let proposedDiscount :=
    if isFinite (discountPerUnit pricing) then discountPerUnit pricing
    else sub baseRate proposedRate in
  let baseDiscountPerUnit :=
    abs (parseFloat (or_ (VNum proposedDiscount) (vnum 0))) in
  let baseDiscountPerUnit :=
    if negb (isFinite baseDiscountPerUnit) then Fin 0 else baseDiscountPerUnit in
  let maxDiscount := max baseRate (Fin 0) in
  let baseDiscountPerUnit :=
    if gt baseDiscountPerUnit maxDiscount then maxDiscount
    else baseDiscountPerUnit in
  let discountedRate := max (sub baseRate baseDiscountPerUnit) (Fin 0) in
  let effectiveBaseRate := min proposedRate baseRate in
  let effectiveBaseRate :=
    if lt discountedRate effectiveBaseRate then discountedRate
    else effectiveBaseRate in
  let baseAmount := mul effectiveBaseRate signedDocQty in
  let convertedRate := _fromBaseCurrency (VNum effectiveBaseRate) in
  let convertedDiscount := _fromBaseCurrency (VNum baseDiscountPerUnit) in
  let normalizedBaseDiscount := abs baseDiscountPerUnit in
  let normalizedDiscount := abs convertedDiscount in
  let item := <["base_price_list_rate" := VNum baseRate]> item in
  let item := <["base_rate" := VNum effectiveBaseRate]> item in
  let item := <["base_discount_amount" := VNum normalizedBaseDiscount]> item in
  let item :=
    <["price_list_rate" :=
        VNum (flt this (VNum (_fromBaseCurrency (VNum baseRate)))
                  (currency_precision this))]> item in
  let item :=
    <["rate" := VNum (flt this (VNum convertedRate) (currency_precision this))]>
      item in
  let item :=
    <["discount_amount" :=
        VNum (flt this (VNum normalizedDiscount) (currency_precision this))]>
      item in
  let rawDiscountPercentage :=
    if truthy (VNum baseRate)
    then mul (div normalizedBaseDiscount baseRate) (Fin 100) else Fin 0 in
  let item :=
    <["discount_percentage" :=
        (if truthy (VNum baseRate)
         then VNum (flt this (VNum (abs rawDiscountPercentage))
                        (float_precision this))
         else vnum 0)]> item in
  let item :=
    <["amount" :=
        VNum (flt this (VNum (mul (to_number (get item "rate"))
                                  (to_number (get item "qty"))))
                  (currency_precision this))]> item in
  <["base_amount" := VNum (flt this (VNum baseAmount) (currency_precision this))]>
    item.

Definition _applyPricingToLine (item ctx : obj) (indexes : IndexBundle)
  (freebiesMap : smap) : obj * smap :=
  let allowRateUpdate := allowRateUpdate_of item in
  let docQty := docQty_of item in
  let qty := pricingQty_of item in
  if eqb docQty (Fin 0) && eqb qty (Fin 0) then (item, freebiesMap)
  else
    let ev := evaluatePricingRules (line_args item ctx indexes) in
    let baseRate := _resolveBaseRate item in
    let item' := _updatePricingBadge item (applied (pricing ev)) in
    let item' :=
      if allowRateUpdate
      then apply_rate_update item' (pricing ev) baseRate (signedDocQty_of item)
      else item' in
    (item', fold_left (merge_freebie item') (freebies ev) freebiesMap).

(** ** [_syncAutoFreeLines] *)

Fixpoint preferString (v : value) : value :=
  if negb (truthy v) then vstr ""
  else
    match v with
    | VStr _ => v
    | VArr l =>
        (fix each (l : list value) : value :=
           match l with
           | [] => vstr ""
           | entry :: r =>
               let resolved := preferString entry in
               if truthy resolved then resolved else each r
           end) l
    | VObj o =>
        or_ (or_ (or_ (or_ (get o "name") (get o "rule")) (get o "pricing_rule"))
                 (get o "pricingRule")) (vstr "")
    | _ => vstr ""
    end.

Definition resolveRuleName (l : obj) : value :=
  if truthy (get l "source_rule") then VStr (to_string (get l "source_rule"))
  else if truthy (get l "pricing_rule") then preferString (get l "pricing_rule")
  else
    match get l "pricing_rules" with
    | VStr raw =>
        let trimmed := trim raw in
        if String.eqb trimmed "" then vstr ""
        else if (startsWith trimmed "[" && endsWith trimmed "]") ||
                (startsWith trimmed "{" && endsWith trimmed "}") then
          match JSON_parse trimmed with
          | Some parsed => preferString parsed
          | None => VStr trimmed
          end
        else VStr trimmed
    | raw => preferString raw
    end.

(** An entry of [legacyFreeLines]; the line is held by reference. *)
Record LegacyEntry := {
  lg_line : nat;
  lg_rule : value;
  lg_used : bool;
}.

(** The fields of the object [oid], read through the cart. *)
Definition fields_of (its : list line) (oid : nat) : obj :=
  default ∅ (snd <$> List.find (fun l => (fst l =? oid)%nat) its).

(** In-place mutation of the object [oid]. *)
Definition update_line (oid : nat) (f : obj -> obj) (its : list line)
  : list line :=
  map (fun l => if (fst l =? oid)%nat then (fst l, f (snd l)) else l) its.

(** The first pass over [this.items]: [existing] maps a tag to the last line
    carrying it (only string tags can ever be looked up, the keys of the
    freebie map being strings; the index stored next to the line is never
    read), [legacyFreeLines] lists the untagged free lines with a rule name. *)
Definition index_line (acc : gmap string nat * list LegacyEntry) (l : line)
  : gmap string nat * list LegacyEntry :=
  let '(existing, legacyFreeLines) := acc in
  if truthy (get (snd l) "auto_free_source") then
    match get (snd l) "auto_free_source" with
    | VStr tag => (<[tag := fst l]> existing, legacyFreeLines)
    | _ => acc
    end
  else if truthy (get (snd l) "is_free_item") then
    let ruleName := resolveRuleName (snd l) in
    if truthy ruleName then
      (existing,
       legacyFreeLines ++
         [{| lg_line := fst l; lg_rule := ruleName; lg_used := false |}])
    else acc
  else acc.

Definition parseFinite := parseOptionalFloat.

Definition currencyPrecision : value :=
  if Number_isFinite (currency_precision this) then currency_precision this
  else vnum 2.

Definition floatPrecision : value :=
  if Number_isFinite (float_precision this) then float_precision this
  else vnum 2.

Definition formatCurrency (v : num) : num :=
  if negb (isFinite v) then Fin 0 else flt this (VNum v) currencyPrecision.

Definition formatPercentage (v : num) : num :=
  if negb (isFinite v) then Fin 0 else flt this (VNum v) floatPrecision.

Definition convertFromBase (v : num) : option num :=
  match parseFinite (VNum v) with
  | None => None
  | Some numeric =>
      let converted := _fromBaseCurrency (VNum numeric) in
      if isFinite converted then Some (formatCurrency converted)
      else Some (formatCurrency numeric)
  end.

Definition applyFreeLinePricing (l data : obj) (qty : num) : obj :=
  let baseRate :=
    parseFinite (coalesce (get data "base_rate") (get data "rate")) in
  let basePriceListRate :=
    parseFinite (coalesce (coalesce (get data "base_price_list_rate")
                                    (get data "price_list_rate"))
                          (vopt baseRate)) in
  let baseDiscount :=
    parseFinite (coalesce (get data "base_discount_amount")
                          (get data "discount_amount")) in
  let baseDiscount :=
    match baseDiscount, basePriceListRate, baseRate with
    | None, Some plr, Some r => Some (max (sub plr r) (Fin 0))
    | _, _, _ => baseDiscount
    end in
  let resolvedBaseRate := default (Fin 0) baseRate in
  let resolvedBasePriceListRate := default resolvedBaseRate basePriceListRate in
  let resolvedBaseDiscount :=
    match baseDiscount with
    | Some bd => max bd (Fin 0)
    | None => max (sub resolvedBasePriceListRate resolvedBaseRate) (Fin 0)
    end in
  let discountPercentageRaw := parseFinite (get data "discount_percentage") in
  let resolvedDiscountPercentage :=
    match discountPercentageRaw with
    | Some dp => max dp (Fin 0)
    | None =>
        if truthy (VNum resolvedBasePriceListRate)
        then max (mul (div resolvedBaseDiscount resolvedBasePriceListRate)
                      (Fin 100)) (Fin 0)
        else Fin 0
    end in
  let baseAmount := mul resolvedBaseRate qty in
  let convertedRate := convertFromBase resolvedBaseRate in
  let convertedPriceListRate := convertFromBase resolvedBasePriceListRate in
  let convertedDiscount := convertFromBase resolvedBaseDiscount in
  let convertedAmount := convertFromBase baseAmount in
  let l := <["base_rate" := VNum resolvedBaseRate]> l in
  let l := <["base_price_list_rate" := VNum resolvedBasePriceListRate]> l in
  let l := <["base_discount_amount" := VNum resolvedBaseDiscount]> l in
  let l := <["base_amount" := VNum baseAmount]> l in
  let l :=
    <["rate" := VNum (default (formatCurrency resolvedBaseRate) convertedRate)]>
      l in
  let l :=
    <["price_list_rate" :=
        VNum (default (formatCurrency resolvedBasePriceListRate)
                      convertedPriceListRate)]> l in
  let l :=
    <["discount_amount" :=
        VNum (match convertedDiscount with
              | Some cd => max cd (Fin 0)
              | None => formatCurrency (max resolvedBaseDiscount (Fin 0))
              end)]> l in
  let l :=
    <["amount" :=
        VNum (default (formatCurrency (mul resolvedBaseRate qty))
                      convertedAmount)]> l in
  <["discount_percentage" :=
      VNum (formatPercentage resolvedDiscountPercentage)]> l.

Definition buildFreeBadgeMeta (data : obj) : value :=
  let ruleLabel := or_ (get data "rule") (vstr "") in
  let label :=
    translate "Free" +:+ " (" +:+ translate "Rule" +:+ ": " +:+
    to_string ruleLabel +:+ ")" in
  let parsedFreeQty := parseFloat (coalesce (get data "qty") (vnum 0)) in
  let freeQty := if isFinite parsedFreeQty then parsedFreeQty else Fin 0 in
  let parsedThreshold :=
    parseFloat (coalesce (coalesce (coalesce (get data "threshold_qty")
                                             (get data "min_qty"))
                                   (get data "minimum")) (vnum 0)) in
  let thresholdQty :=
    if isFinite parsedThreshold then parsedThreshold else Fin 0 in
  let parsedPerThreshold :=
    parseFloat (coalesce (coalesce (get data "free_qty_per_threshold")
                                   (get data "free_qty")) (vnum 0)) in
  let perThreshold := parseFinite (VNum parsedPerThreshold) in
  let parsedMultiplier := parseFloat (coalesce (get data "multiplier") (vnum 0)) in
  let multiplier := parseFinite (VNum parsedMultiplier) in
  let parts :=
    match truthy (get data "apply_per_threshold") && gt thresholdQty (Fin 0),
          perThreshold with
    | true, Some perThresholdValue =>
        [translate "Every" +:+ " " +:+ to_string (VNum thresholdQty) +:+
         " → " +:+ to_string (VNum perThresholdValue) +:+ " " +:+
         translate "Free"] ++
        match multiplier with
        | Some m =>
            if ge m (Fin 0)
            then [translate "Qualified" +:+ ": " +:+ to_string (VNum m)]
            else []
        | None => []
        end
    | _, _ =>
        if gt thresholdQty (Fin 0)
        then [translate "Minimum Qty" +:+ ": " +:+ to_string (VNum thresholdQty)]
        else []
    end in
  let parts :=
    parts ++ [translate "Free Qty" +:+ ": " +:+ to_string (VNum freeQty)] in
  VObj {[ "label" := VStr label; "tooltip" := VStr (join "; " parts) ]}.

Definition applyFreeLineState (l data : obj) : obj :=
  let qty := flt this (get data "qty") (float_precision this) in
  let hasUom :=
    truthy (get data "uom") && negb (strict_eq (get l "uom") (get data "uom")) in
  let l := if hasUom then <["uom" := get data "uom"]> l else l in
  let hasConversion := negb (nullish (get data "conversion_factor")) in
  let l :=
    if hasConversion then
      let parsed := parseFloat (get data "conversion_factor") in
      if isFinite parsed && gt parsed (Fin 0)
      then <["conversion_factor" := VNum parsed]> l else l
    else l in
  let requiresQtyUpdate :=
    negb (eqb (parseFloat (or_ (get l "qty") (vnum 0))) qty) ||
    hasUom || hasConversion in
  let parsedStockQty := parseFloat (get data "stock_qty") in
  let hasStockQty := isFinite parsedStockQty in
  let l :=
    if requiresQtyUpdate then
      let l := <["qty" := VNum qty]> l in
      let l := if hasStockQty then <["stock_qty" := VNum parsedStockQty]> l
               else l in
      calc_stock_qty this l (get l "qty")
    else if hasStockQty then <["stock_qty" := VNum parsedStockQty]> l
    else l in
  let l := <["is_free_item" := vnum 1]> l in
  let l := <["locked_price" := VBool true]> l in
  let l := applyFreeLinePricing l data qty in
  let l := <["source_rule" := get data "rule"]> l in
  <["pricing_rule_badge" := buildFreeBadgeMeta data]> l.

(** The state threaded through the loop over the entries of the map. *)
Record SyncState := {
  st_cart : Cart;
  st_existing : gmap string nat;
  st_legacy : list LegacyEntry;
}.

Definition with_items (c : Cart) (its : list line) : Cart :=
  {| items := its; packed_items := packed_items c; next_oid := next_oid c |}.

(** The predicate of [legacyFreeLines.findIndex(...)]. *)
Definition legacy_matches (its : list line) (data : obj) (entry : LegacyEntry)
  : bool :=
  let normalizedRule := or_ (get data "rule") (vstr "") in
  negb (lg_used entry) &&
  strict_eq (get (fields_of its (lg_line entry)) "item_code")
            (get data "item_code") &&
  (negb (truthy normalizedRule) || strict_eq (lg_rule entry) normalizedRule).

(** [arr.findIndex(p)]: [None] stands for -1. *)
Fixpoint findIndex {A} (p : A -> bool) (l : list A) : option nat :=
  match l with
  | [] => None
  | x :: r => if p x then Some 0%nat else S <$> findIndex p r
  end.

(** [arr.splice(i, 0, x)] *)
Definition splice_in {A} (i : nat) (x : A) (l : list A) : list A :=
  take i l ++ x :: drop i l.

(** [arr.splice(i, 1)] *)
Definition splice_out {A} (i : nat) (l : list A) : list A :=
  take i l ++ drop (S i) l.

(** The line synthesised for an entry no live line matches. *)
Definition new_free_line (its : list line) (oid : nat) (key : string)
  (data : obj) : obj :=
  let catalogItem := or_ (getItemByCode this (get data "item_code")) VNull in
  let parentLine :=
    if truthy (get data "parentRowId") then
      match List.find (fun l => strict_eq (get (snd l) "posa_row_id")
                                          (get data "parentRowId")) its with
      | Some l => VObj (snd l)
      | None => VUndef
      end
    else VNull in
  let resolvedUom :=
    or_ (or_ (or_ (or_ (or_ (get data "uom") (prop catalogItem "uom"))
                       (prop parentLine "uom"))
                  (prop catalogItem "stock_uom"))
             (prop parentLine "stock_uom")) VNull in
  let parsedConversion := parseFloat (get data "conversion_factor") in
  let resolvedConversion :=
    if isFinite parsedConversion && gt parsedConversion (Fin 0)
    then VNum parsedConversion
    else if truthy resolvedUom && truthy parentLine &&
            strict_eq (prop parentLine "uom") resolvedUom
    then prop parentLine "conversion_factor"
    else if truthy resolvedUom && truthy catalogItem &&
            strict_eq (prop catalogItem "uom") resolvedUom
    then prop catalogItem "conversion_factor"
    else if truthy resolvedUom &&
            strict_eq resolvedUom
              (or_ (prop catalogItem "stock_uom") (prop parentLine "stock_uom"))
    then vnum 1
    else VNull in
  let quantity := flt this (get data "qty") (float_precision this) in
  let template : obj :=
    <["uom" := or_ resolvedUom
                 (if truthy catalogItem then prop catalogItem "uom" else VUndef)]>
      (<["price_list_rate" := vnum 0]>
         (<["rate" := vnum 0]>
            (<["qty" := VNum quantity]>
               (<["item_name" := or_ (prop catalogItem "item_name")
                                     (get data "item_code")]>
                  (<["item_code" := get data "item_code"]>
                     (match catalogItem with VObj o => o | _ => ∅ end)))))) in
  let freeLine := get_new_item this oid template in
  let freeLine := <["qty" := VNum quantity]> freeLine in
  let freeLine :=
    if truthy resolvedUom then <["uom" := resolvedUom]> freeLine else freeLine in
  let freeLine :=
    if negb (nullish resolvedConversion)
    then <["conversion_factor" := resolvedConversion]> freeLine else freeLine in
  let parsedStockQty := parseFloat (get data "stock_qty") in
  let freeLine :=
    if isFinite parsedStockQty
    then <["stock_qty" := VNum parsedStockQty]> freeLine else freeLine in
  let freeLine := <["is_free_item" := vnum 1]> freeLine in
  let freeLine := <["locked_price" := VBool true]> freeLine in
  let freeLine := <["_manual_rate_set" := VBool true]> freeLine in
  let freeLine := <["source_rule" := get data "rule"]> freeLine in
  let freeLine := <["auto_free_source" := VStr key]> freeLine in
  let freeLine := <["parent_row_id" := get data "parentRowId"]> freeLine in
  let freeLine := <["pricing_rule_badge" := buildFreeBadgeMeta data]> freeLine in
  applyFreeLinePricing freeLine data quantity.

(** One iteration of [for (const [key, data] of freebiesMap.entries())]. *)
Definition sync_entry (st : SyncState) (e : string * obj) : SyncState :=
  let '(key, data) := e in
  let cart := st_cart st in
  match st_existing st !! key with
  | Some oid =>
      {| st_cart :=
           with_items cart
             (update_line oid (fun l => applyFreeLineState l data) (items cart));
         st_existing := st_existing st;
         st_legacy := st_legacy st |}
  | None =>
      match findIndex (legacy_matches (items cart) data) (st_legacy st) with
      | Some legacyMatchIndex =>
          match st_legacy st !! legacyMatchIndex with
          | Some legacyEntry =>
              let oid := lg_line legacyEntry in
              let adopt (l : obj) : obj :=
                let l := <["auto_free_source" := VStr key]> l in
                let l := <["parent_row_id" := get data "parentRowId"]> l in
                applyFreeLineState l data in
              {| st_cart := with_items cart (update_line oid adopt (items cart));
                 st_existing := <[key := oid]> (st_existing st);
                 st_legacy :=
                   <[legacyMatchIndex :=
                       {| lg_line := oid; lg_rule := lg_rule legacyEntry;
                          lg_used := true |}]> (st_legacy st) |}
          | None => st
          end
      | None =>
          let oid := next_oid cart in
          let freeLine := new_free_line (items cart) oid key data in
          let parentIndex :=
            findIndex (fun l => strict_eq (get (snd l) "posa_row_id")
                                          (get data "parentRowId")) (items cart) in
          let insertAt :=
            match parentIndex with
            | Some i => S i
            | None => length (items cart)
            end in
          let its := splice_in insertAt (oid, freeLine) (items cart) in
          let its :=
            update_line oid
              (fun l => calc_stock_qty this l (get l "qty")) its in
          {| st_cart :=
               {| items := its; packed_items := packed_items cart;
                  next_oid := S oid |};
             st_existing := st_existing st;
             st_legacy := st_legacy st |}
      end
  end.

(** [expectedKeys.has(tag)] *)
Definition expected_has (expectedKeys : list string) (tag : value) : bool :=
  match tag with
  | VStr t => existsb (String.eqb t) expectedKeys
  | _ => false
  end.

Definition stale_line (expectedKeys : list string) (l : line) : bool :=
  truthy (get (snd l) "auto_free_source") &&
  negb (expected_has expectedKeys (get (snd l) "auto_free_source")).

(** The indices collected in [removable]. *)
Fixpoint removable_from (expectedKeys : list string) (i : nat) (its : list line)
  : list nat :=
  match its with
  | [] => []
  | l :: r =>
      if stale_line expectedKeys l
      then i :: removable_from expectedKeys (S i) r
      else removable_from expectedKeys (S i) r
  end.

(** One iteration of [removable.reverse().forEach(...)]. *)
Definition remove_at (c : Cart) (idx : nat) : Cart :=
  match items c !! idx with
  | None => c
  | Some l =>
      {| items := splice_out idx (items c);
         packed_items :=
           if truthy (get (snd l) "bundle_id")
           then List.filter
                  (fun packed => negb (strict_eq (get packed "bundle_id")
                                                 (get (snd l) "bundle_id")))
                  (packed_items c)
           else packed_items c;
         next_oid := next_oid c |}
  end.

Definition _syncAutoFreeLines (c : Cart) (freebiesMap : smap) : Cart :=
  let expectedKeys := smap_keys freebiesMap in
  let '(existing, legacyFreeLines) :=
    fold_left index_line (items c) (∅, []) in
  let st :=
    fold_left sync_entry freebiesMap
      {| st_cart := c; st_existing := existing; st_legacy := legacyFreeLines |} in
  let c := st_cart st in
  let removable := removable_from expectedKeys 0 (items c) in
  fold_left remove_at (rev removable) c.

(** ** [_applyServerPricingRules]

    The reply of the remote call is an argument.  The invoice-level fields
    set from [invoice_updates] (additional discount, document pricing rules)
    do not belong to the cart lines and are left out.  The tags of free lines
    are strings ([registerExistingFreebie] splits them). *)

Definition toBase (v fallback : value) : num :=
  let numeric := parseFloat (coalesce (coalesce v fallback) (vnum 0)) in
  if negb (isFinite numeric) then Fin 0 else _toBaseCurrency (VNum numeric).

Definition fromBase (v : value) : num :=
  let numeric := num_or (parseFloat (coalesce v (vnum 0))) (Fin 0) in
  _fromBaseCurrency (VNum numeric).

Definition parseServerFloat := parseOptionalFloat.

Definition asServerBool (v : value) : bool :=
  strict_eq v (VBool true) || strict_eq v (vnum 1) || strict_eq v (vstr "1").

(** [arr.slice(2).join("::")] for at least three segments, else [null]. *)
Definition parent_segment (segments : list string) : value :=
  if (2 <? length segments)%nat then VStr (join "::" (drop 2 segments))
  else VNull.

Definition registerExistingFreebie (snapshots : gmap string obj) (l : obj)
  : gmap string obj :=
  match get l "auto_free_source" with
  | VStr key =>
      if negb (truthy (VStr key)) then snapshots
      else
        let segments := split_colons key [] in
        let parentSegment := parent_segment segments in
        let sameItemFlag :=
          asServerBool (get l "same_item") ||
          strict_eq (get l "same_item") (vnum 1) ||
          strict_eq (get l "same_item") (vstr "1") in
        let snapshot : obj :=
          {[ "parentRowId" :=
               or_ (or_ (get l "parent_row_id") parentSegment) VNull;
             "qty" := vopt (parseServerFloat (get l "qty"));
             "stock_qty" := vopt (parseServerFloat (get l "stock_qty"));
             "base_rate" :=
               vopt (parseServerFloat (coalesce (get l "base_rate") (get l "rate")));
             "rate" := vopt (parseServerFloat (get l "rate"));
             "base_price_list_rate" :=
               vopt (parseServerFloat (coalesce (get l "base_price_list_rate")
                                                (get l "price_list_rate")));
             "price_list_rate" := vopt (parseServerFloat (get l "price_list_rate"));
             "base_discount_amount" :=
               vopt (parseServerFloat (coalesce (get l "base_discount_amount")
                                                (get l "discount_amount")));
             "discount_amount" := vopt (parseServerFloat (get l "discount_amount"));
             "discount_percentage" :=
               vopt (parseServerFloat (get l "discount_percentage"));
             "uom" := get l "uom";
             "conversion_factor" :=
               vopt (parseServerFloat (get l "conversion_factor"));
             "same_item" := vnum (if sameItemFlag then 1 else 0) ]} in
        let snapshots := <[key := snapshot]> snapshots in
        match segments with
        | s0 :: s1 :: _ =>
            let baseKey := s0 +:+ "::" +:+ s1 in
            match snapshots !! baseKey with
            | Some _ => snapshots
            | None => <[baseKey := snapshot]> snapshots
            end
        | _ => snapshots
        end
  | _ => snapshots
  end.

Definition existingFreebieSnapshots_of (its : list line) : gmap string obj :=
  fold_left (fun acc l =>
               if truthy (get (snd l) "auto_free_source")
               then registerExistingFreebie acc (snd l) else acc) its ∅.

Definition resolveWithFallback (primary : option num) (fallback : value)
  (treatZeroAsMissing : bool) : option num :=
  let fallbackFinite := if Number_isFinite fallback then Some (parseFloat fallback)
                        else None in
  match primary with
  | None => fallbackFinite
  | Some p =>
      if treatZeroAsMissing && le p (Fin 0) && Number_isFinite fallback &&
         gt (parseFloat fallback) (Fin 0)
      then Some (parseFloat fallback)
      else Some p
  end.

(** The two collections the guard of the update loop consults. *)
Record SameItemIndex := {
  sameItemFreeParents : list (value * list value);
  sameItemFreeCodes : list value;
}.

Definition vmap_get {A} (m : list (value * A)) (k : value) : option A :=
  snd <$> List.find (fun e => same_value_zero (fst e) k) m.

Fixpoint vmap_set {A} (m : list (value * A)) (k : value) (v : A)
  : list (value * A) :=
  match m with
  | [] => [(k, v)]
  | (k', v') :: r =>
      if same_value_zero k' k then (k', v) :: r else (k', v') :: vmap_set r k v
  end.

Definition set_add (s : list value) (v : value) : list value :=
  if set_has s v then s else s ++ [v].

(** The values one entry of [free_lines] resolves to. *)
Record FreeEntry := {
  fe_key : string;
  fe_parent : value;
  fe_sameItem : bool;
  fe_data : obj;
}.

Definition resolve_free_entry (snapshots : gmap string obj) (entry : value)
  : FreeEntry :=
  let ruleName := or_ (or_ (prop entry "pricing_rules") (prop entry "source_rule"))
                      (vstr "") in
  let parentRowId :=
    or_ (or_ (or_ (or_ (prop entry "parent_row_id")
                       (prop entry "parent_detail_docname"))
                  (prop entry "parent_row"))
             (prop entry "parent_docname")) VNull in
  let keyBase :=
    to_string (or_ ruleName (vstr "")) +:+ "::" +:+
    to_string (prop entry "item_code") in
  let lookup (k : string) : value :=
    match snapshots !! k with Some o => VObj o | None => VUndef end in
  let fallbackSnapshot :=
    or_ (or_ (lookup (if truthy parentRowId
                      then keyBase +:+ "::" +:+ to_string parentRowId
                      else keyBase))
             (lookup keyBase)) VNull in
  let fb (k : string) : value := prop fallbackSnapshot k in
  let normalizedParentRowId := or_ (or_ parentRowId (fb "parentRowId")) VNull in
  let key :=
    if truthy normalizedParentRowId
    then keyBase +:+ "::" +:+ to_string normalizedParentRowId
    else keyBase in
  let qtyRaw := parseServerFloat (prop entry "qty") in
  let qty := default (Fin 0) (resolveWithFallback qtyRaw (fb "qty") false) in
  let stockQtyRaw :=
    parseServerFloat (coalesce (coalesce (prop entry "stock_qty")
                                         (prop entry "base_qty"))
                               (prop entry "qty")) in
  let stockQty :=
    default qty (resolveWithFallback stockQtyRaw
                   (coalesce (fb "stock_qty") (fb "qty")) false) in
  let conversionFactorRaw :=
    parseServerFloat (coalesce (prop entry "conversion_factor")
                               (prop entry "cf")) in
  let conversionFactor :=
    resolveWithFallback conversionFactorRaw (fb "conversion_factor") false in
  let baseRate :=
    resolveWithFallback
      (parseServerFloat (coalesce (prop entry "base_rate") (prop entry "rate")))
      (coalesce (fb "base_rate") (fb "rate")) true in
  let displayRate :=
    resolveWithFallback (parseServerFloat (prop entry "rate")) (fb "rate") true in
  let basePriceListRate :=
    resolveWithFallback
      (parseServerFloat (coalesce (prop entry "base_price_list_rate")
                                  (prop entry "price_list_rate")))
      (coalesce (fb "base_price_list_rate") (fb "price_list_rate")) true in
  let displayPriceListRate :=
    resolveWithFallback (parseServerFloat (prop entry "price_list_rate"))
                        (fb "price_list_rate") true in
  let baseDiscount :=
    resolveWithFallback
      (parseServerFloat (coalesce (prop entry "base_discount_amount")
                                  (prop entry "discount_amount")))
      (coalesce (fb "base_discount_amount") (fb "discount_amount")) true in
  let discountAmount :=
    resolveWithFallback (parseServerFloat (prop entry "discount_amount"))
                        (fb "discount_amount") true in
  let discountPercentage :=
    resolveWithFallback (parseServerFloat (prop entry "discount_percentage"))
                        (fb "discount_percentage") true in
  let baseRate := orElse baseRate displayRate in
  let displayRate := orElse displayRate baseRate in
  let basePriceListRate := orElse basePriceListRate displayPriceListRate in
  let displayPriceListRate := orElse displayPriceListRate basePriceListRate in
  let baseDiscount := orElse baseDiscount discountAmount in
  let discountAmount := orElse discountAmount baseDiscount in
  let discountPercentage :=
    match discountPercentage, baseDiscount, basePriceListRate with
    | None, Some bd, Some plr =>
        if truthy (VNum plr)
        then Some (max (mul (div bd plr) (Fin 100)) (Fin 0)) else None
    | _, _, _ => discountPercentage
    end in
  let sameItem :=
    asServerBool (prop entry "same_item") ||
    (truthy fallbackSnapshot &&
     (strict_eq (fb "same_item") (vnum 1) ||
      strict_eq (fb "same_item") (VBool true))) in
  let uom := or_ (prop entry "uom") (fb "uom") in
  let data : obj :=
    {[ "rule" := ruleName;
       "item_code" := prop entry "item_code";
       "qty" := VNum qty;
       "parentRowId" := normalizedParentRowId;
       "uom" := uom;
       "stock_qty" := VNum stockQty;
       "conversion_factor" :=
         match conversionFactor with Some cf => VNum cf | None => VUndef end ]} in
  let data := if sameItem then <["same_item" := vnum 1]> data else data in
  let data := with_opt "base_rate" (VNum <$> baseRate) data in
  let data := with_opt "rate" (VNum <$> displayRate) data in
  let data := with_opt "base_price_list_rate" (VNum <$> basePriceListRate) data in
  let data := with_opt "price_list_rate" (VNum <$> displayPriceListRate) data in
  let data := with_opt "base_discount_amount" (VNum <$> baseDiscount) data in
  let data := with_opt "discount_amount" (VNum <$> discountAmount) data in
  let data := with_opt "discount_percentage" (VNum <$> discountPercentage) data in
  {| fe_key := key; fe_parent := normalizedParentRowId;
     fe_sameItem := sameItem; fe_data := data |}.

(** One iteration of [serverFree.forEach(...)]. *)
Definition register_server_free (snapshots : gmap string obj)
  (acc : smap * SameItemIndex) (entry : value) : smap * SameItemIndex :=
  let '(freebiesMap, idx) := acc in
  if negb (truthy entry) || negb (truthy (prop entry "item_code")) then acc
  else
    let fe := resolve_free_entry snapshots entry in
    let freebiesMap := smap_set freebiesMap (fe_key fe) (fe_data fe) in
    let idx :=
      if fe_sameItem fe then
        if truthy (fe_parent fe) then
          let bucket :=
            default [] (vmap_get (sameItemFreeParents idx) (fe_parent fe)) in
          {| sameItemFreeParents :=
               vmap_set (sameItemFreeParents idx) (fe_parent fe)
                        (set_add bucket (prop entry "item_code"));
             sameItemFreeCodes := sameItemFreeCodes idx |}
        else
          {| sameItemFreeParents := sameItemFreeParents idx;
             sameItemFreeCodes :=
               set_add (sameItemFreeCodes idx) (prop entry "item_code") |}
      else idx in
    (freebiesMap, idx).

(** The line an update addresses. *)
Definition update_target (targetId : value) (l : line) : bool :=
  negb (truthy (get (snd l) "is_free_item")) &&
  (strict_eq (get (snd l) "posa_row_id") targetId ||
   strict_eq (get (snd l) "name") targetId ||
   (strict_eq (get (snd l) "item_code") targetId &&
    negb (truthy (get (snd l) "auto_free_source")))).

(** The four values an update proposes for a line. *)
Record Proposal := {
  p_baseRate : num;
  p_basePriceListRate : num;
  p_baseDiscount : num;
  p_discountPercentage : num;
}.

Definition proposal_of (update : value) (item : obj) : Proposal :=
  {| p_baseRate :=
       num_or (parseFloat (coalesce (coalesce (prop update "rate")
                                              (get item "base_rate")) (vnum 0)))
              (Fin 0);
     p_basePriceListRate :=
       num_or (parseFloat (coalesce (coalesce (prop update "price_list_rate")
                                              (get item "base_price_list_rate"))
                                    (vnum 0))) (Fin 0);
     p_baseDiscount :=
       num_or (parseFloat (coalesce (coalesce (prop update "discount_amount")
                                              (get item "base_discount_amount"))
                                    (vnum 0))) (Fin 0);
     p_discountPercentage :=
       num_or (parseFloat (coalesce (coalesce (prop update "discount_percentage")
                                              (get item "discount_percentage"))
                                    (vnum 0))) (Fin 0) |}.

Definition priceLocked_of (item : obj) : bool := is_true (get item "locked_price").

Definition offerApplied_of (item : obj) : bool :=
  strict_eq (get item "posa_offer_applied") (VBool true) ||
  strict_eq (get item "posa_offer_applied") (vnum 1) ||
  strict_eq (get item "posa_offer_applied") (vstr "1").

(** [Number.isFinite(parseFloat(a)) ? parseFloat(a) : toBase(b)] *)
Definition original_base (a b : value) : num :=
  if isFinite (parseFloat a) then parseFloat a else toBase b VUndef.

Definition hasSameItemFree_of (idx : SameItemIndex) (item : obj)
  (targetId : value) : bool :=
  let parentKey :=
    or_ (or_ (or_ (get item "posa_row_id") (get item "name")) targetId) VNull in
  let sameItemCodes :=
    if truthy parentKey then vmap_get (sameItemFreeParents idx) parentKey
    else None in
  let hasSameItemFree :=
    match sameItemCodes with
    | Some codes => set_has codes (get item "item_code")
    | None => false
    end in
  if negb hasSameItemFree && set_has (sameItemFreeCodes idx) (get item "item_code")
  then true else hasSameItemFree.

Definition epsilon : num := Fin (1 # 1000000).

(** The same-item-freebie guard: [true] when the update must be withheld. *)
Definition same_item_guard (idx : SameItemIndex) (item : obj)
  (targetId : value) (p : Proposal) : bool :=
  let baseRate := p_baseRate p in
  let basePriceListRate := p_basePriceListRate p in
  let baseDiscount := p_baseDiscount p in
  let discountPercentage := p_discountPercentage p in
  let hasSameItemFree := hasSameItemFree_of idx item targetId in
  let originalBaseRate := original_base (get item "base_rate") (get item "rate") in
  let originalBasePriceList :=
    original_base (get item "base_price_list_rate") (get item "price_list_rate") in
  let originalBaseDiscount :=
    original_base (get item "base_discount_amount") (get item "discount_amount") in
  let zeroRateFromServer :=
    gt basePriceListRate (Fin 0) && le baseRate (Fin 0) in
  let zeroPriceListFromServer :=
    negb (isFinite basePriceListRate) || le basePriceListRate (Fin 0) in
  let serverRemovedPriceList :=
    if zeroPriceListFromServer && isFinite originalBasePriceList
    then gt originalBasePriceList (Fin 0) else false in
  let serverRemovedDiscount :=
    if (negb (isFinite baseDiscount) || le baseDiscount (Fin 0)) &&
       isFinite originalBaseDiscount
    then gt originalBaseDiscount (Fin 0) else false in
  let serverRemovedPercentage :=
    if (negb (isFinite discountPercentage) || le discountPercentage (Fin 0)) &&
       isFinite originalBaseDiscount && isFinite originalBasePriceList &&
       gt originalBasePriceList (Fin 0)
    then ge originalBaseDiscount (sub originalBasePriceList epsilon) else false in
  let serverFullDiscount :=
    ge discountPercentage (Fin (9999 # 100)) ||
    (isFinite basePriceListRate && gt basePriceListRate (Fin 0) &&
     isFinite baseDiscount &&
     ge baseDiscount (sub basePriceListRate epsilon)) in
  let fallbackFullDiscount :=
    if isFinite originalBasePriceList && gt originalBasePriceList (Fin 0) &&
       isFinite originalBaseDiscount
    then ge originalBaseDiscount (sub originalBasePriceList epsilon) else false in
  let serverZeroedValues :=
    zeroRateFromServer || serverRemovedPriceList || serverRemovedDiscount ||
    serverRemovedPercentage in
  hasSameItemFree && gt originalBaseRate (Fin 0) &&
  (serverZeroedValues || serverFullDiscount || fallbackFullDiscount).

Definition allowServerRateUpdate_of (idx : SameItemIndex) (item : obj)
  (targetId : value) (p : Proposal) : bool :=
  let allowServerRateUpdate :=
    negb (manualOverride_of item) && negb (priceLocked_of item) &&
    negb (offerApplied_of item) in
  if allowServerRateUpdate then negb (same_item_guard idx item targetId p)
  else false.

(** The body of the second [if (allowServerRateUpdate) { ... }]. *)
Definition apply_server_rates (item : obj) (p : Proposal) : obj :=
  let precision := or_ (currency_precision this) (vnum 2) in
  let convertedRate := fromBase (VNum (p_baseRate p)) in
  let convertedPriceListRate := fromBase (VNum (p_basePriceListRate p)) in
  let convertedDiscount := fromBase (VNum (p_baseDiscount p)) in
  let item := <["base_rate" := VNum (p_baseRate p)]> item in
  let item := <["base_price_list_rate" := VNum (p_basePriceListRate p)]> item in
  let item := <["base_discount_amount" := VNum (p_baseDiscount p)]> item in
  let item := <["discount_percentage" := VNum (p_discountPercentage p)]> item in
  let item := <["rate" := VNum (flt this (VNum convertedRate) precision)]> item in
  let item :=
    <["price_list_rate" := VNum (flt this (VNum convertedPriceListRate) precision)]>
      item in
  let item :=
    <["discount_amount" := VNum (flt this (VNum convertedDiscount) precision)]>
      item in
  let item :=
    <["amount" :=
        VNum (flt this (VNum (mul (to_number (get item "rate"))
                                  (to_number (get item "qty")))) precision)]>
      item in
  <["base_amount" :=
      VNum (flt this (VNum (mul (p_baseRate p) (to_number (get item "qty"))))
                precision)]> item.

Definition array_or_nil (v : value) : list value :=
  match v with VArr l => l | _ => [] end.

Definition is_array (v : value) : bool :=
  match v with VArr _ => true | _ => false end.

Definition has_own (v : value) (k : string) : bool :=
  match v with VObj o => bool_decide (is_Some (o !! k)) | _ => false end.

(** The detail objects handed to [_updatePricingBadge] after an update. *)
Definition server_details (update : value) (item : obj) : list obj :=
  let rulesProvided := has_own update "pricing_rules" in
  let detailsProvided := has_own update "pricing_rule_details" in
  let appliedRules :=
    if rulesProvided
    then List.filter truthy (array_or_nil (prop update "pricing_rules"))
    else List.filter truthy (array_or_nil (get item "pricing_rules")) in
  if detailsProvided && is_array (prop update "pricing_rule_details") then
    omap (fun detail =>
            if negb (truthy detail) then None
            else
              match detail with
              | VStr _ => Some ({[ "name" := detail ]} : obj)
              | _ =>
                  let name :=
                    or_ (or_ (or_ (prop detail "name") (prop detail "pricing_rule"))
                             (prop detail "rule")) VNull in
                  if negb (truthy name) then None
                  else
                    let type :=
                      or_ (or_ (prop detail "type") (prop detail "discount_type"))
                          VNull in
                    if truthy type
                    then Some ({[ "name" := name; "type" := type ]} : obj)
                    else Some ({[ "name" := name ]} : obj)
              end)
         (array_or_nil (prop update "pricing_rule_details"))
  else if negb rulesProvided && is_array (get item "pricing_rule_details") then
    map (fun detail => match detail with VObj o => o | _ => ∅ end)
        (array_or_nil (get item "pricing_rule_details"))
  else map (fun name => ({[ "name" := name ]} : obj)) appliedRules.

(** What one update does to the line it addresses. *)
Definition apply_update_to (idx : SameItemIndex) (update : value) (item : obj)
  : obj :=
  let targetId := prop update "row_id" in
  let p := proposal_of update item in
  let item' :=
    if allowServerRateUpdate_of idx item targetId p
    then apply_server_rates item p else item in
  _updatePricingBadge item' (server_details update item').

(** One iteration of [updates.forEach(...)]. *)
Definition apply_update (idx : SameItemIndex) (its : list line) (update : value)
  : list line :=
  match List.find (update_target (prop update "row_id")) its with
  | None => its
  | Some l => update_line (fst l) (apply_update_to idx update) its
  end.

Definition is_paid_line (l : line) : bool :=
  negb (truthy (get (snd l) "is_free_item")) &&
  negb (truthy (get (snd l) "auto_free_source")).

(** [_applyServerPricingRules(ctx)], given the message of the reply. *)
Definition _applyServerPricingRules (ctx : obj) (message : obj) (c : Cart)
  : Cart :=
  if negb (truthy (get ctx "company")) || negb (truthy (get ctx "price_list")) ||
     negb (truthy (get ctx "currency"))
  then c
  else
    let snapshots := existingFreebieSnapshots_of (items c) in
    match List.filter is_paid_line (items c) with
    | [] => _syncAutoFreeLines c []
    | _ =>
        let updates := array_or_nil (get message "updates") in
        let serverFree := array_or_nil (get message "free_lines") in
        let '(freebiesMap, idx) :=
          fold_left (register_server_free snapshots) serverFree
            ([], {| sameItemFreeParents := []; sameItemFreeCodes := [] |}) in
        let its := fold_left (apply_update idx) updates (items c) in
        _syncAutoFreeLines (with_items c its) freebiesMap
    end.

End InvoiceItemMethods.

(** ** Free lines and the local pass *)

Section LocalPass.
Context `{Host}.
Variable this : Component.

(** [value === true || value === 1 || value === "1"] *)
Definition coerce (v : value) : bool :=
  strict_eq v (VBool true) || strict_eq v (vnum 1) || strict_eq v (vstr "1").

(** [typeof v === "string" && v] *)
Definition filled_string (v : value) : bool :=
  match v with VStr _ => truthy v | _ => false end.

Definition _isFreeLine (item : value) : bool :=
  if negb (truthy item) then false
  else if coerce (prop item "is_free_item") then true
  else if coerce (prop item "same_item") then true
  else if filled_string (prop item "auto_free_source") then true
  else filled_string (prop item "free_item_source").

(** One iteration of [for (const item of this.items)]: the line is read
    and written through its identity. *)
Definition local_pricing_step (ctx : obj) (indexes : IndexBundle)
  (st : list line * smap) (oid : nat) : list line * smap :=
  let '(its, freebiesMap) := st in
  let item := fields_of its oid in
  if truthy (get item "is_free_item") then st
  else
    let '(item', freebiesMap') :=
      _applyPricingToLine this item ctx indexes freebiesMap in
    (update_line oid (fun _ => item') its, freebiesMap').

(** [_applyLocalPricingRules], given the context and the indexes the rule
    store hands out. *)
Definition _applyLocalPricingRules (ctx : obj) (indexes : IndexBundle)
  (c : Cart) : Cart :=
  let '(its, freebiesMap) :=
    fold_left (local_pricing_step ctx indexes) (map fst (items c))
              (items c, []) in
  _syncAutoFreeLines this (with_items c its) freebiesMap.

End LocalPass.

(** ** Manual rate overrides

    The overrides and snapshots these methods build are plain objects and
    arrays, and so are the documents they are applied to.  The entries of an
    items array are distinct objects; the values compared with [===] are
    primitives. *)

Section ManualOverrides.
Context `{Host}.
Variable this : Component.

(** [v !== undefined] *)
Definition defined (v : value) : bool := negb (strict_eq v VUndef).

(** [Array.isArray(v) ? v.find((rule) => !!rule) : v] *)
Definition first_rule (v : value) : value :=
  match v with
  | VArr l => default VUndef (List.find truthy l)
  | _ => v
  end.

(** [rawRule || item.source_rule || item.pricing_rule || null] *)
Definition normalized_rule (item : value) : value :=
  or_ (or_ (or_ (first_rule (prop item "pricing_rules")) (prop item "source_rule"))
           (prop item "pricing_rule")) VNull.

(** [item.idx !== undefined && item.idx !== null ? Number(item.idx) : null] *)
Definition idx_number (item : value) : value :=
  if nullish (prop item "idx") then VNull
  else VNum (to_number (prop item "idx")).

(** The [values] both a collected override and a snapshot carry. *)
Definition override_values (item : value) : obj :=
  {[ "rate" := prop item "rate";
     "base_rate" := prop item "base_rate";
     "price_list_rate" := prop item "price_list_rate";
     "base_price_list_rate" := prop item "base_price_list_rate";
     "discount_amount" := prop item "discount_amount";
     "base_discount_amount" := prop item "base_discount_amount";
     "discount_percentage" := prop item "discount_percentage";
     "amount" := prop item "amount";
     "base_amount" := prop item "base_amount";
     "conversion_factor" := prop item "conversion_factor";
     "uom" := prop item "uom" ]}.

Definition identity_keys (item : value) (idx : value) : obj :=
  {[ "name" := or_ (prop item "name") VNull;
     "posa_row_id" := or_ (prop item "posa_row_id") VNull;
     "item_code" := or_ (prop item "item_code") VNull;
     "idx" := idx;
     "batch_no" := or_ (prop item "batch_no") VNull;
     "serial_no" := or_ (prop item "serial_no") VNull ]}.

(** The [keys] of a collected override; [this._isFreeLine] is a method of
    the component. *)
Definition collect_keys (item : value) : obj :=
  let keys := identity_keys item (idx_number item) in
  if _isFreeLine item then
    let keys := <["is_free_item" := vnum 1]> keys in
    let keys :=
      if truthy (prop item "auto_free_source")
      then <["auto_free_source" := prop item "auto_free_source"]> keys
      else keys in
    let keys :=
      if truthy (prop item "parent_row_id")
      then <["parent_row_id" := prop item "parent_row_id"]> keys
      else keys in
    let normalizedRule := normalized_rule item in
    if truthy normalizedRule then <["source_rule" := normalizedRule]> keys
    else keys
  else keys.

Definition collect_override (item : value) : value :=
  VObj {[ "keys" := VObj (collect_keys item);
          "values" := VObj (override_values item) ]}.

Definition _collectManualRateOverrides (items : value) : list value :=
  match items with
  | VArr l =>
      map collect_override
        (List.filter (fun item => truthy item &&
                                  truthy (prop item "_manual_rate_set")) l)
  | _ => []
  end.

(** The free-line test of [_doesManualOverrideMatchItem]. *)
Definition item_is_free (item : value) : bool :=
  _isFreeLine item || coerce (prop item "is_free_item") ||
  coerce (prop item "same_item") ||
  (filled_string (prop item "auto_free_source") ||
   filled_string (prop item "free_item_source")).

Definition item_source (item : value) : value :=
  if filled_string (prop item "auto_free_source")
  then prop item "auto_free_source"
  else if filled_string (prop item "free_item_source")
  then prop item "free_item_source"
  else VNull.

Definition _doesManualOverrideMatchItem (override item : value) : bool :=
  if negb (truthy (prop override "keys")) || negb (truthy item) then false
  else
    let keys := prop override "keys" in
    let name := prop keys "name" in
    let posa_row_id := prop keys "posa_row_id" in
    let item_code := prop keys "item_code" in
    let idx := prop keys "idx" in
    let batch_no := prop keys "batch_no" in
    let serial_no := prop keys "serial_no" in
    let auto_free_source := prop keys "auto_free_source" in
    let parent_row_id := prop keys "parent_row_id" in
    let source_rule := prop keys "source_rule" in
    let is_free_item := prop keys "is_free_item" in
    if truthy name && truthy (prop item "name") &&
       strict_eq name (prop item "name") then true
    else if truthy posa_row_id && truthy (prop item "posa_row_id") &&
            strict_eq posa_row_id (prop item "posa_row_id") then true
    else if negb (nullish is_free_item) &&
            negb (Bool.eqb (coerce is_free_item) (item_is_free item)) then false
    else if truthy auto_free_source && truthy (item_source item) &&
            negb (strict_eq (item_source item) auto_free_source) then false
    else if truthy parent_row_id &&
            truthy (or_ (prop item "parent_row_id") VNull) &&
            negb (strict_eq (or_ (prop item "parent_row_id") VNull) parent_row_id)
    then false
    else if truthy source_rule && truthy (normalized_rule item) &&
            negb (strict_eq (normalized_rule item) source_rule) then false
    else if truthy item_code && strict_eq (prop item "item_code") item_code then
      if negb (nullish idx) && negb (strict_eq (idx_number item) VNull) &&
         strict_eq (idx_number item) idx then true
      else
        strict_eq (or_ batch_no VNull) (or_ (prop item "batch_no") VNull) &&
        strict_eq (or_ serial_no VNull) (or_ (prop item "serial_no") VNull)
    else false.

(** [if (values.k !== undefined) item.k = values.k] *)
Definition set_defined (k : string) (values : value) (item : obj) : obj :=
  if defined (prop values k) then <[k := prop values k]> item else item.

(** The amount of a line: the value given, or quantity times rate when
    both are numbers. *)
Definition set_amount (k rate_key : string) (values : value) (item : obj) : obj :=
  if defined (prop values k) then <[k := prop values k]> item
  else
    match get item "qty", get item rate_key with
    | VNum q, VNum r =>
        <[k := VNum (flt this (VNum (mul q r)) (currency_precision this))]> item
    | _, _ => item
    end.

Definition set_uom (values : value) (item : obj) : obj :=
  if truthy (prop values "uom") then <["uom" := prop values "uom"]> item
  else item.

Definition set_conversion_factor (values : value) (item : obj) : obj :=
  if negb (nullish (prop values "conversion_factor"))
  then <["conversion_factor" := prop values "conversion_factor"]> item
  else item.

Definition _assignManualOverrideValues (item : obj) (values : value) : obj :=
  let values := match values with VUndef => VObj ∅ | _ => values end in
  if negb (truthy values) then item
  else
    let item := <["_manual_rate_set" := VBool true]> item in
    let item := <["_manual_rate_set_from_uom" := VBool false]> item in
    let item := set_uom values item in
    let item := set_conversion_factor values item in
    let item := set_defined "price_list_rate" values item in
    let item := set_defined "base_price_list_rate" values item in
    let item := set_defined "rate" values item in
    let item := set_defined "base_rate" values item in
    let item := set_defined "discount_amount" values item in
    let item := set_defined "base_discount_amount" values item in
    let item := set_defined "discount_percentage" values item in
    let item := set_amount "amount" "rate" values item in
    set_amount "base_amount" "base_rate" values item.

(** A method applied to an entry of an items array: only objects match an
    override, so only objects are written. *)
Definition on_object (f : obj -> obj) (item : value) : value :=
  match item with VObj o => VObj (f o) | _ => item end.

(** One iteration of [doc.items.forEach(...)], threading [remaining]. *)
Definition override_step (st : list value * list value) (item : value)
  : list value * list value :=
  let '(items, remaining) := st in
  if negb (truthy item) || (length remaining =? 0)%nat
  then (items ++ [item], remaining)
  else
    match findIndex (fun entry => _doesManualOverrideMatchItem entry item)
                    remaining with
    | None => (items ++ [item], remaining)
    | Some index =>
        let override := default VUndef (remaining !! index) in
        (items ++ [on_object (fun o => _assignManualOverrideValues o
                                         (prop override "values")) item],
         splice_out index remaining)
    end.

(** [_applyManualRateOverridesToDoc]: the document after the call. *)
Definition _applyManualRateOverridesToDoc (doc overrides : value) : value :=
  match doc, overrides with
  | VObj d, VArr (ov :: ovs) =>
      match get d "items" with
      | VArr its =>
          VObj (<["items" :=
                   VArr (fst (fold_left override_step its ([], ov :: ovs)))]> d)
      | _ => doc
      end
  | _, _ => doc
  end.

Definition is_nan (n : num) : bool :=
  match n with NaN => true | _ => false end.

Definition _buildManualOverrideKeyFromItem (item : value) : value :=
  if negb (truthy item) then VNull
  else
    let idx :=
      if negb (nullish (prop item "idx")) &&
         negb (is_nan (to_number (prop item "idx")))
      then VNum (to_number (prop item "idx")) else VNull in
    if negb (truthy (prop item "name")) && negb (truthy (prop item "posa_row_id"))
       && negb (truthy (prop item "item_code"))
    then VNull
    else VObj (identity_keys item idx).

Definition snapshot_of (item : value) : value :=
  let keys := _buildManualOverrideKeyFromItem item in
  if negb (truthy keys) then VNull
  else
    let rate := to_number (coalesce (prop item "rate") (vnum 0)) in
    let priceListRate :=
      to_number (coalesce (prop item "price_list_rate") (VNum rate)) in
    let baseRate := to_number (coalesce (prop item "base_rate") (vnum 0)) in
    let basePriceListRate :=
      to_number (coalesce (prop item "base_price_list_rate") (VNum baseRate)) in
    let discountAmount :=
      to_number (coalesce (prop item "discount_amount") (vnum 0)) in
    let baseDiscountAmount :=
      to_number (coalesce (prop item "base_discount_amount") (vnum 0)) in
    let discountPercentage :=
      to_number (coalesce (prop item "discount_percentage") (vnum 0)) in
    let preserveRate :=
      strict_eq (prop item "_manual_rate_set") (VBool true) ||
      gt (abs (sub rate priceListRate)) epsilon ||
      gt (abs (sub baseRate basePriceListRate)) epsilon ||
      gt (abs discountAmount) epsilon ||
      gt (abs baseDiscountAmount) epsilon ||
      gt (abs discountPercentage) epsilon in
    let preserveUom := truthy (prop item "uom") in
    VObj {[ "keys" := keys;
            "preserveRate" := VBool preserveRate;
            "preserveUom" := VBool preserveUom;
            "values" := VObj (override_values item) ]}.

Definition _snapshotManualValuesFromDocItems (items : value) : list value :=
  match items with
  | VArr l =>
      List.filter (fun entry => negb (strict_eq entry VNull)) (map snapshot_of l)
  | _ => []
  end.

(** What [_restoreManualSnapshots] does to the line a snapshot matches. *)
Definition restore_line (snapshot : value) (item : obj) : obj :=
  let values := or_ (prop snapshot "values") (VObj ∅) in
  if truthy (prop snapshot "preserveRate")
  then _assignManualOverrideValues item values
  else if truthy (prop snapshot "preserveUom") then
    let item := if defined (prop values "uom")
                then <["uom" := prop values "uom"]> item else item in
    let item :=
      if defined (prop values "conversion_factor") &&
         negb (strict_eq (prop values "conversion_factor") VNull)
      then <["conversion_factor" := prop values "conversion_factor"]> item
      else item in
    let item := set_amount "amount" "rate" values item in
    set_amount "base_amount" "base_rate" values item
  else item.

(** One iteration of [items.forEach(...)]; the snapshots are the objects
    [_snapshotManualValuesFromDocItems] builds. *)
Definition restore_step (st : list value * list value) (item : value)
  : list value * list value :=
  let '(items, remaining) := st in
  if negb (truthy item) || (length remaining =? 0)%nat
  then (items ++ [item], remaining)
  else
    match findIndex
            (fun snapshot =>
               _doesManualOverrideMatchItem
                 (VObj {[ "keys" := prop snapshot "keys" ]}) item)
            remaining with
    | None => (items ++ [item], remaining)
    | Some index =>
        let snapshot := default VUndef (remaining !! index) in
        (items ++ [on_object (restore_line snapshot) item],
         splice_out index remaining)
    end.

(** [_restoreManualSnapshots]: the items after the call. *)
Definition _restoreManualSnapshots (items snapshots : value) : value :=
  match items, snapshots with
  | VArr its, VArr (s :: ss) =>
      VArr (fst (fold_left restore_step its ([], s :: ss)))
  | _, _ => items
  end.

End ManualOverrides.

(** ** The stock cache

    [this.item_stock_cache] is unset or an object from keys to entries
    [{ ts, qty }]; the clock [Date.now()] is an argument, in milliseconds.
    The keys are those [_getStockCacheKey] builds. *)

Definition STOCK_CACHE_TTL : Z := 5000.

Record StockEntry := {
  se_ts : Z;
  se_qty : value;
}.

Abbreviation stock_cache := (option (gmap string StockEntry)).

Section StockCache.
Context `{Host}.

(** [warehouse] is [this.pos_profile?.warehouse]. *)
Definition _getStockCacheKey (warehouse : value) (item : value) : value :=
  let code := prop item "item_code" in
  let warehouse := or_ (prop item "warehouse") warehouse in
  if negb (truthy code) || negb (truthy warehouse) then VNull
  else VStr (to_string code +:+ "::" +:+ to_string warehouse).

(** The value returned and the cache after the call. *)
Definition _getCachedStockQty (now : Z) (key : value) (cache : stock_cache)
  : value * stock_cache :=
  if negb (truthy key) then (VNull, cache)
  else
    match cache with
    | None => (VNull, cache)
    | Some entries =>
        match entries !! to_string key with
        | None => (VNull, cache)
        | Some entry =>
            if (STOCK_CACHE_TTL <? now - se_ts entry)%Z
            then (VNull, Some (delete (to_string key) entries))
            else (se_qty entry, cache)
        end
    end.

Definition _storeStockQty (now : Z) (key qty : value) (cache : stock_cache)
  : stock_cache :=
  if negb (truthy key) then cache
  else Some (<[to_string key := {| se_ts := now; se_qty := qty |}]>
               (default ∅ cache)).

Definition clearItemStockCache : stock_cache := Some ∅.

End StockCache.

(** ** Price-list rates *)

(** The currency settings of the component the price-list methods read. *)
Record Currencies := {
  selected_currency : value;
  (** [this.pos_profile?.currency] *)
  company_currency : value;
  conversion_rate : value;
}.

Section PriceListRate.
Context `{Host}.
Variable this : Component.
Variable cur : Currencies.

(** [if (typeof item.qty === "number" && typeof item[rk] === "number")
    item[k] = this.flt(item.qty * item[rk], this.currency_precision)] *)
Definition recompute_amount (k rk : string) (item : obj) : obj :=
  match get item "qty", get item rk with
  | VNum q, VNum r =>
      <[k := VNum (flt this (VNum (mul q r)) (currency_precision this))]> item
  | _, _ => item
  end.

Definition _applyPriceListRate (item : obj) (newRate priceCurrency : value)
  : obj :=
  let rate :=
    if isFinite (to_number newRate) then to_number newRate else Fin 0 in
  let resolvedCurrency := or_ priceCurrency (selected_currency cur) in
  let manualOverride :=
    strict_eq (get item "_manual_rate_set") (VBool true) &&
    negb (strict_eq (get item "_manual_rate_set_from_uom") (VBool true)) in
  let companyCurrency := company_currency cur in
  let item :=
    if negb (truthy (get item "original_currency"))
    then <["original_currency" := resolvedCurrency]> item else item in
  let item :=
    if nullish (get item "original_rate")
    then <["original_rate" := VNum rate]> item else item in
  let item :=
    if strict_eq resolvedCurrency (selected_currency cur) then
      let base :=
        if negb (strict_eq resolvedCurrency companyCurrency)
        then mul rate (to_number (or_ (conversion_rate cur) (vnum 1)))
        else rate in
      let item := <["base_price_list_rate" := VNum base]> item in
      let item :=
        if negb manualOverride then <["base_rate" := VNum base]> item else item in
      let item := <["price_list_rate" := VNum rate]> item in
      if negb manualOverride then <["rate" := VNum rate]> item else item
    else
      let item :=
        if negb (eqb rate (Fin 0)) || negb (truthy (get item "base_price_list_rate"))
        then
          let item := <["base_price_list_rate" := VNum rate]> item in
          if negb manualOverride then <["base_rate" := VNum rate]> item else item
        else item in
      let shown :=
        if negb (strict_eq (selected_currency cur) companyCurrency)
        then flt this (VNum (mul rate (to_number (or_ (exchange_rate this)
                                                      (vnum 1)))))
                 (currency_precision this)
        else rate in
      let item :=
        if negb (eqb rate (Fin 0)) || negb (truthy (get item "price_list_rate"))
        then <["price_list_rate" := VNum shown]> item else item in
      if negb manualOverride &&
         (negb (eqb rate (Fin 0)) || negb (truthy (get item "rate")))
      then <["rate" := VNum shown]> item else item in
  let item := recompute_amount "amount" "rate" item in
  recompute_amount "base_amount" "base_rate" item.

End PriceListRate.

(** * The rule store ([pricingRulesStore.js])

    The store keeps the snapshot of the active rules and the index the
    evaluator reads.  Its maps are [Map]s: keys are compared as a [Map]
    compares them, and entries are kept in the order of insertion. *)

Section RuleStore.
Context `{Host}.

Definition benefitScore (rule : obj) : num :=
  let discount := abs (to_number (or_ (get rule "rate_or_discount") (vnum 0))) in
  let margin :=
    abs (to_number (or_ (get rule "margin_rate_or_amount") (vnum 0))) in
  let freebies :=
    add (abs (to_number (or_ (get rule "free_qty") (vnum 0))))
        (abs (to_number (or_ (get rule "free_qty_per_unit") (vnum 0)))) in
  max3 discount margin freebies.

Definition compareRules (a b : obj) : num :=
  let spec_a := or_ (get a "specificity") (vnum 0) in
  let spec_b := or_ (get b "specificity") (vnum 0) in
  if negb (strict_eq spec_b spec_a) then
    sub (to_number spec_b) (to_number spec_a)
  else
    let prio_a := or_ (get a "priority") (vnum 0) in
    let prio_b := or_ (get b "priority") (vnum 0) in
    if negb (strict_eq prio_b prio_a) then
      sub (to_number prio_b) (to_number prio_a)
    else
      let benefitDelta := sub (benefitScore b) (benefitScore a) in
      if negb (eqb benefitDelta (Fin 0)) then benefitDelta
      else
        of_Z (localeCompare (to_string (or_ (get a "name") (vstr "")))
                            (to_string (or_ (get b "name") (vstr "")))).

Definition normaliseRule (rule : obj) : obj :=
  let copy := rule in
  let copy :=
    <["specificity" :=
        (if truthy (get copy "item_code") then vnum 3
         else if truthy (get copy "item_group") then vnum 2
         else if truthy (get copy "brand") then vnum 1
         else vnum 0)]> copy in
  <["priority" := coalesce (get copy "priority") (vnum 0)]> copy.

(** The three maps and the general bucket that [indexRules] builds. *)
Record StoreIndexes := {
  itemMap : list (value * list obj);
  groupMap : list (value * list obj);
  brandMap : list (value * list obj);
  generalRules : list obj;
}.

(** [const bucket = m.get(key) || []; bucket.push(rule); m.set(key, bucket)] *)
Definition file_rule (m : list (value * list obj)) (key : value) (rule : obj)
  : list (value * list obj) :=
  vmap_set m key (default [] (vmap_get m key) ++ [rule]).

(** One iteration of [for (const entry of rules.value)]. *)
Definition index_rule (st : StoreIndexes) (entry : obj) : StoreIndexes :=
  let rule := normaliseRule entry in
  if truthy (get rule "item_code") then
    {| itemMap := file_rule (itemMap st) (get rule "item_code") rule;
       groupMap := groupMap st; brandMap := brandMap st;
       generalRules := generalRules st |}
  else if truthy (get rule "item_group") then
    {| itemMap := itemMap st;
       groupMap := file_rule (groupMap st) (get rule "item_group") rule;
       brandMap := brandMap st; generalRules := generalRules st |}
  else if truthy (get rule "brand") then
    {| itemMap := itemMap st; groupMap := groupMap st;
       brandMap := file_rule (brandMap st) (get rule "brand") rule;
       generalRules := generalRules st |}
  else
    {| itemMap := itemMap st; groupMap := groupMap st; brandMap := brandMap st;
       generalRules := generalRules st ++ [rule] |}.

(** [for (const bucket of m.values()) bucket.sort(compareRules)] *)
Definition sort_buckets (m : list (value * list obj)) : list (value * list obj) :=
  map (fun e => (fst e, sort_by compareRules (snd e))) m.

Definition indexRules (rules : list obj) : StoreIndexes :=
  let st :=
    fold_left index_rule rules
      {| itemMap := []; groupMap := []; brandMap := []; generalRules := [] |} in
  {| itemMap := sort_buckets (itemMap st);
     groupMap := sort_buckets (groupMap st);
     brandMap := sort_buckets (brandMap st);
     generalRules := sort_by compareRules (generalRules st) |}.

(** The entries of a map a string key can reach; the evaluator looks the
    maps up with string keys only. *)
Definition string_keyed (m : list (value * list obj)) : gmap string (list obj) :=
  foldr (fun e acc => match fst e with
                      | VStr k => <[k := snd e]> acc
                      | _ => acc
                      end) ∅ m.

(** [getIndexes()]: the maps as the evaluator receives them. *)
Definition getIndexes (st : StoreIndexes) : IndexBundle :=
  {| byItem := Some (string_keyed (itemMap st));
     byGroup := Some (string_keyed (groupMap st));
     byBrand := Some (string_keyed (brandMap st));
     general := Some (generalRules st) |}.

End RuleStore.

(** * A concrete environment

    An instance of the host and of the component on which the definitions
    above run: strings are collated by code units, whole numbers print in
    decimal, the component rounds to the requested number of decimals and
    creates lines the way the test-suite does. *)

Definition Z_of_comparison (c : comparison) : Z :=
  match c with Lt => (-1)%Z | Eq => 0%Z | Gt => 1%Z end.

Definition show_Z (z : Z) : string :=
  match z with
  | Z0 => "0"
  | Zpos p => DecimalString.NilEmpty.string_of_uint (Pos.to_uint p)
  | Zneg p => "-" +:+ DecimalString.NilEmpty.string_of_uint (Pos.to_uint p)
  end.

(** Whole numbers in decimal, other rationals as a fraction. *)
Definition show_num (n : num) : string :=
  match n with
  | Fin q =>
      let r := Qred q in
      match Qden r with
      | xH => show_Z (Qnum r)
      | d => show_Z (Qnum r) +:+ "/" +:+ show_Z (Zpos d)
      end
  | NaN => "NaN"
  | PInf => "Infinity"
  | NInf => "-Infinity"
  end.

#[export] Instance codeunit_host : Host := {|
  number_to_string := show_num;
  localeCompare := fun a b => Z_of_comparison (String_as_OT.cmp a b);
  JSON_parse := fun _ => None;
  JSON_stringify := fun _ => ""%string;
  date_time := fun _ => None;
  translate := fun s => s;
|}.

(** [Number(value.toFixed(precision))] at a whole, non-negative precision. *)
Definition round_to (v precision : value) : num :=
  match to_number v, to_number precision with
  | Fin x, Fin p =>
      let scale := pow10 (Qfloor p) in
      Fin (inject_Z (Qfloor (x * scale + (1 # 2))) / scale)
  | _, _ => Fin 0
  end.

Definition test_component : Component := {|
  exchange_rate := vnum 1;
  currency_precision := vnum 2;
  float_precision := vnum 2;
  flt := round_to;
  calc_stock_qty := fun l _ => l;
  get_new_item := fun oid template =>
    template ∪ {[ "posa_row_id" := VStr ("FREE-" +:+ show_Z (Z.of_nat oid)) ]};
  getItemByCode := fun _ => VNull;
|}.

(** * Specifications

    The predicates the properties are stated with, and the sample data they
    are exercised on. *)

(** ** Frames *)

(** [o'] agrees with [o] on every property outside [ks]. *)
Definition frame (ks : list string) (o o' : obj) : Prop :=
  forall k, k ∉ ks -> get o' k = get o k.

Definition badge_keys : list string :=
  ["pricing_rule_badge"; "pricing_rule_details"; "pricing_rules"].

Definition local_rate_keys : list string :=
  ["base_price_list_rate"; "base_rate"; "base_discount_amount";
   "price_list_rate"; "rate"; "discount_amount"; "discount_percentage";
   "amount"; "base_amount"].

Definition server_rate_keys : list string :=
  ["base_rate"; "base_price_list_rate"; "base_discount_amount";
   "discount_percentage"; "rate"; "price_list_rate"; "discount_amount";
   "amount"; "base_amount"].

(** The fields the first claim names. *)
Definition manual_protected : list string :=
  ["rate"; "base_rate"; "price_list_rate"; "discount_amount";
   "discount_percentage"].

(** [_manual_rate_set] is true and [_manual_rate_set_from_uom] is not. *)
Definition manually_set (item : obj) : Prop :=
  get item "_manual_rate_set" = VBool true /\
  get item "_manual_rate_set_from_uom" <> VBool true.

(** What the update loop may do to a line: it keeps its identity, changes
    only rate and badge fields, and only badge fields when the line is
    pinned. *)
Definition update_rel (l l' : line) : Prop :=
  fst l' = fst l /\
  frame (badge_keys ++ server_rate_keys) (snd l) (snd l') /\
  (manually_set (snd l) -> frame badge_keys (snd l) (snd l')).

(** ** Lines the user pinned, and lines without quantity *)

(** The scenario of the test-suite: a pinned line and a reply proposing
    other values for it. *)
Definition manual_item : obj :=
  {[ "posa_row_id" := vstr "ROW-1"; "item_code" := vstr "ITEM-1";
     "qty" := vnum 2; "rate" := vnum 120; "base_rate" := vnum 120;
     "price_list_rate" := vnum 150; "base_price_list_rate" := vnum 150;
     "discount_amount" := vnum 60; "base_discount_amount" := vnum 60;
     "discount_percentage" := vnum 40; "_manual_rate_set" := VBool true;
     "locked_price" := vnum 0 ]}.

Definition manual_update : value :=
  VObj {[ "row_id" := vstr "ROW-1"; "rate" := vnum 80;
          "price_list_rate" := vnum 110; "discount_amount" := vnum 30;
          "discount_percentage" := vnum 27 ]}.

Definition no_same_item : SameItemIndex :=
  {| sameItemFreeParents := []; sameItemFreeCodes := [] |}.

(** A line without quantity, and a snapshot without rules. *)
Definition zero_qty_item : obj :=
  {[ "item_code" := vstr "ITEM-1"; "qty" := vnum 0; "rate" := vnum 100 ]}.

Definition no_indexes : IndexBundle :=
  {| byItem := None; byGroup := None; byBrand := None; general := None |}.

(** ** Slab selection *)

Definition slab_min (s : value) : num :=
  parseFloat (or_ (prop s "min_qty") (vnum 0)).

(** The slab [c] is the choice among the slabs [seen]: it qualifies and no
    qualifying slab has a larger threshold; no choice means none qualifies. *)
Definition slab_choice (qty : num) (seen : list value) (chosen : option value)
  : Prop :=
  match chosen with
  | Some c =>
      c ∈ seen /\ ge qty (slab_min c) = true /\
      forall s, s ∈ seen -> ge qty (slab_min s) = true ->
                ge (slab_min c) (slab_min s) = true
  | None => forall s, s ∈ seen -> ge qty (slab_min s) = false
  end.

Definition index_for (code : string) (rules : list obj) : IndexBundle :=
  {| byItem := Some {[ code := rules ]}; byGroup := Some ∅; byBrand := Some ∅;
     general := Some [] |}.

(** The slab rule of the specification's example, evaluated at quantity 12
    on a base rate of 100. *)
Definition slab_rule : obj :=
  {[ "name" := vstr "SLAB-RULE"; "price_or_discount" := vstr "Discount";
     "discount_type" := vstr "Rate"; "specificity" := vnum 3;
     "priority" := vnum 5;
     "slabs" :=
       VArr [ VObj {[ "min_qty" := vnum 5; "rate_or_discount" := vnum 5 ]};
              VObj {[ "min_qty" := vnum 10; "rate_or_discount" := vnum 10 ]} ] ]}.

Definition slab_args : EvalArgs :=
  {| arg_item := {[ "item_code" := vstr "ITEM-6" ]};
     arg_qty := vnum 12; arg_docQty := VUndef; arg_baseRate := vnum 100;
     arg_ctx := ∅; arg_indexes := index_for "ITEM-6" [slab_rule] |}.

(** ** Free-item quantities *)

(** The threshold [apply_per_threshold] rules divide by, and the threshold
    the other rules compare with. *)
Definition threshold_divisor (rule : obj) : num :=
  num_or (parseFloat (or_ (or_ (get rule "recurse_for") (get rule "min_qty"))
                          (vnum 1))) (Fin 1).

Definition threshold_minimum (rule : obj) : num :=
  num_or (parseFloat (or_ (or_ (get rule "min_qty") (get rule "recurse_for"))
                          (vnum 1))) (Fin 1).

Definition multiplier_of (rule : obj) (qty : num) : num :=
  if truthy (get rule "apply_per_threshold")
  then floor (div qty (threshold_divisor rule))
  else if ge qty (threshold_minimum rule) then Fin 1 else Fin 0.

(** The free quantity before the cap and the rounding. *)
Definition raw_free_qty (rule : obj) (qty : num) : num :=
  let freePerThreshold :=
    if truthy (get rule "free_qty_per_unit")
    then num_or (parseFloat (or_ (get rule "free_qty_per_unit") (vnum 0))) (Fin 0)
    else num_or (parseFloat (or_ (get rule "free_qty") (vnum 0))) (Fin 0) in
  if truthy (get rule "apply_per_threshold")
  then mul (multiplier_of rule qty) freePerThreshold
  else if truthy (get rule "free_qty_per_unit")
  then mul qty (parseFloat (or_ (get rule "free_qty_per_unit") (vnum 0)))
  else num_or (parseFloat (or_ (get rule "free_qty") (vnum 0))) (Fin 0).

Definition capped_free_qty (rule : obj) (qty : num) : num :=
  if negb (nullish (get rule "max_free_qty"))
  then min (raw_free_qty rule qty) (parseFloat (get rule "max_free_qty"))
  else raw_free_qty rule qty.

Definition free_qty_of (rule : obj) (qty : num) : num :=
  if truthy (get rule "round_free_qty") then floor (capped_free_qty rule qty)
  else capped_free_qty rule qty.

(** The free-item rule of the specification's example. *)
Definition free_rule : obj :=
  {[ "name" := vstr "FREE-1"; "is_free_item_rule" := vnum 1;
     "min_qty" := vnum 3; "free_qty" := vnum 1;
     "apply_per_threshold" := VBool true; "same_item" := VBool true;
     "specificity" := vnum 3; "priority" := vnum 5 ]}.

Definition free_item : obj := {[ "item_code" := vstr "ITEM-9" ]}.

Definition free_args : EvalArgs :=
  {| arg_item := free_item; arg_qty := vnum 7; arg_docQty := VUndef;
     arg_baseRate := VUndef; arg_ctx := ∅;
     arg_indexes := index_for "ITEM-9" [free_rule] |}.

Definition free_descriptor : obj :=
  default ∅ (applyFreeItemRule free_rule free_item (Fin 7)).

(** ** Bounds on the evaluated rate *)

(** [x] rounded to six decimals, ties upwards. *)
Definition round6 (x : Q) : Q :=
  inject_Z (Qfloor (x * pow10 6 + (1 # 2))) / pow10 6.

(** Two evaluations: a negative base rate with no rule at all, and a base
    rate of 0.0000006 under a rule discounting 100%%. *)
Definition negative_args : EvalArgs :=
  {| arg_item := {[ "item_code" := vstr "ITEM-X" ]};
     arg_qty := vnum 1; arg_docQty := VUndef; arg_baseRate := vnum (-5);
     arg_ctx := ∅; arg_indexes := no_indexes |}.

Definition full_discount_rule : obj :=
  {[ "name" := vstr "DISC-100"; "price_or_discount" := vstr "Discount";
     "discount_type" := vstr "Rate"; "rate_or_discount" := vnum 100;
     "specificity" := vnum 3; "priority" := vnum 1 ]}.

Definition tiny_args : EvalArgs :=
  {| arg_item := {[ "item_code" := vstr "ITEM-X" ]};
     arg_qty := vnum 1; arg_docQty := VUndef;
     arg_baseRate := vnum (6 # 10000000);
     arg_ctx := ∅; arg_indexes := index_for "ITEM-X" [full_discount_rule] |}.

(** The claim as the specification states it: the rate is at least 0 and
    the discount per unit at most the baseline. *)
Definition rate_bounds_as_stated `{Host} (a : EvalArgs) : Prop :=
  le (Fin 0) (rate (pricing (evaluatePricingRules a))) = true /\
  le (discountPerUnit (pricing (evaluatePricingRules a))) (startRate_of a) = true.

(** ** The rate written by [_applyPricingToLine] *)

(** The margin rule of the test-suite on a line priced 100: the evaluator
    proposes the rate 110 and the discount -10. *)
Definition margin_rule : obj :=
  {[ "name" := vstr "MARGIN"; "price_or_discount" := vstr "Discount";
     "discount_type" := vstr "Margin"; "margin_type" := vstr "Amount";
     "margin_rate_or_amount" := vnum 10; "specificity" := vnum 3;
     "priority" := vnum 1 ]}.

Definition margin_item : obj :=
  {[ "item_code" := vstr "ITEM-NEG"; "qty" := vnum 1;
     "price_list_rate" := vnum 100; "base_price_list_rate" := vnum 100;
     "rate" := vnum 100; "base_rate" := vnum 100; "locked_price" := vnum 0;
     "posa_offer_applied" := vnum 0; "_manual_rate_set" := VBool false ]}.

Definition margin_indexes : IndexBundle := index_for "ITEM-NEG" [margin_rule].

(** The claim as the specification states it: the base rate written is
    the smaller of the proposed rate and the baseline. *)
Definition final_rate_as_stated `{Host} (this : Component) (item ctx : obj)
  (indexes : IndexBundle) : Prop :=
  eqb (parseFloat
         (get (fst (_applyPricingToLine this item ctx indexes [])) "base_rate"))
      (min (rate (pricing (evaluatePricingRules (line_args item ctx indexes))))
           (_resolveBaseRate item)) = true.

(** ** The same-item-freebie guard *)

(** Two values a [Map] or [Set] treats as the same key. *)
Definition svz (a b : value) : Prop := same_value_zero a b = true.

(** The key under which the update loop looks a paid line up. *)
Definition parentKey_of (item : obj) (targetId : value) : value :=
  or_ (or_ (or_ (get item "posa_row_id") (get item "name")) targetId) VNull.

(** A reply entry is a same-item freebie of the paid line [item]: it is
    flagged as one, it is for the item code of the line, and the parent row
    it resolves to is the key of the line, or it resolves to no parent. *)
Definition same_item_freebie_of `{Host} (snapshots : gmap string obj)
  (entry : value) (item : obj) (targetId : value) : Prop :=
  truthy entry = true /\ truthy (prop entry "item_code") = true /\
  fe_sameItem (resolve_free_entry snapshots entry) = true /\
  svz (get item "item_code") (prop entry "item_code") /\
  (truthy (fe_parent (resolve_free_entry snapshots entry)) = false \/
   svz (fe_parent (resolve_free_entry snapshots entry))
       (parentKey_of item targetId)).

(** What the guard looks at: the values [p] the update proposes against the
    values the line holds.  The update is withheld when one of these holds. *)
Definition zeroed_or_full_discount (this : Component) (item : obj)
  (p : Proposal) : bool :=
  let rate := p_baseRate p in
  let plr := p_basePriceListRate p in
  let disc := p_baseDiscount p in
  let pct := p_discountPercentage p in
  let own_plr :=
    original_base this (get item "base_price_list_rate")
                  (get item "price_list_rate") in
  let own_disc :=
    original_base this (get item "base_discount_amount")
                  (get item "discount_amount") in
  (* the reply keeps a price-list rate and proposes no rate *)
  (gt plr (Fin 0) && le rate (Fin 0))
  (* the reply drops the price-list rate the line has *)
  || ((negb (isFinite plr) || le plr (Fin 0)) &&
      isFinite own_plr && gt own_plr (Fin 0))
  (* the reply drops the discount the line has *)
  || ((negb (isFinite disc) || le disc (Fin 0)) &&
      isFinite own_disc && gt own_disc (Fin 0))
  (* the reply drops the percentage of a line that is discounted in full *)
  || ((negb (isFinite pct) || le pct (Fin 0)) &&
      isFinite own_disc && isFinite own_plr && gt own_plr (Fin 0) &&
      ge own_disc (sub own_plr epsilon))
  (* the reply amounts to a full discount *)
  || ge pct (Fin (9999 # 100))
  || (isFinite plr && gt plr (Fin 0) && isFinite disc &&
      ge disc (sub plr epsilon))
  (* the line is discounted in full *)
  || (isFinite own_plr && gt own_plr (Fin 0) && isFinite own_disc &&
      ge own_disc (sub own_plr epsilon)).

(** The scenario of the test-suite: the reply zeroes the rate of a paid
    line for which it grants a same-item free unit. *)
Definition same_item_paid : obj :=
  {[ "posa_row_id" := vstr "ROW-3"; "item_code" := vstr "ITEM-SAME";
     "qty" := vnum 3; "rate" := vnum 50; "base_rate" := vnum 50;
     "price_list_rate" := vnum 50; "base_price_list_rate" := vnum 50;
     "discount_amount" := vnum 0; "base_discount_amount" := vnum 0;
     "discount_percentage" := vnum 0; "locked_price" := vnum 0 ]}.

Definition same_item_free_entry : value :=
  VObj {[ "item_code" := vstr "ITEM-SAME"; "qty" := vnum 1;
          "pricing_rules" := vstr "RULE-SAME"; "parent_row_id" := vstr "ROW-3";
          "same_item" := vnum 1; "rate" := vnum 0 ]}.

Definition same_item_update : value :=
  VObj {[ "row_id" := vstr "ROW-3"; "rate" := vnum 0;
          "price_list_rate" := vnum 50; "discount_amount" := vnum 50;
          "discount_percentage" := vnum 100;
          "pricing_rules" := VArr [vstr "RULE-SAME"] ]}.

(** The same line without a price-list rate of its own, and a reply that
    zeroes rate, price-list rate and discount together. *)
Definition unlisted_paid : obj :=
  <["base_price_list_rate" := vnum 0]>
    (<["price_list_rate" := vnum 0]> same_item_paid).

Definition all_zero_update : value :=
  VObj {[ "row_id" := vstr "ROW-3"; "rate" := vnum 0;
          "price_list_rate" := vnum 0; "discount_amount" := vnum 0;
          "discount_percentage" := vnum 0 ]}.

Definition server_ctx : obj :=
  {[ "company" := vstr "Test Co"; "price_list" := vstr "Standard";
     "currency" := vstr "USD" ]}.

Definition all_zero_message : obj :=
  {[ "updates" := VArr [all_zero_update];
     "free_lines" := VArr [same_item_free_entry] ]}.

Definition unlisted_cart : Cart :=
  {| items := [(0%nat, unlisted_paid)]; packed_items := []; next_oid := 1 |}.

(** ** The rule ordering *)

(** The collation of the host is a strict total order on strings. *)
Class CollationLaws `{Host} : Prop := {
  collate_eq : forall a b, localeCompare a b = 0%Z -> a = b;
  collate_antisym :
    forall a b, (localeCompare a b < 0)%Z <-> (0 < localeCompare b a)%Z;
  collate_trans :
    forall a b c, (localeCompare a b < 0)%Z -> (localeCompare b c < 0)%Z ->
                  (localeCompare a c < 0)%Z;
}.

(** A field of a rule that is a number when it is present. *)
Definition numeric_or_absent (v : value) : Prop :=
  v = VUndef \/ v = VNull \/ exists q, v = VNum (Fin q).

(** A rule as the data model types it: a string for a name, numbers for
    the fields the comparator reads. *)
Definition rule_typed (r : obj) : Prop :=
  (exists s, get r "name" = VStr s) /\
  numeric_or_absent (get r "specificity") /\
  numeric_or_absent (get r "priority") /\
  numeric_or_absent (get r "rate_or_discount") /\
  numeric_or_absent (get r "margin_rate_or_amount") /\
  numeric_or_absent (get r "free_qty") /\
  numeric_or_absent (get r "free_qty_per_unit").

(** The number a field stands for, absent fields counting as 0. *)
Definition qkey (v : value) : Q :=
  match v with VNum (Fin q) => q | _ => 0%Q end.

Definition rule_name (r : obj) : string :=
  match get r "name" with VStr s => s | _ => ""%string end.

Definition rule_specificity (r : obj) : Q := qkey (get r "specificity").
Definition rule_priority (r : obj) : Q := qkey (get r "priority").

(** The benefit score of the specification. *)
Definition rule_benefit (r : obj) : Q :=
  Qmax (Qmax (Qabs (qkey (get r "rate_or_discount")))
             (Qabs (qkey (get r "margin_rate_or_amount"))))
       (Qabs (qkey (get r "free_qty")) + Qabs (qkey (get r "free_qty_per_unit"))).

(** [a] goes before [b]: higher specificity, then higher priority, then
    higher benefit score, then the smaller name. *)
Definition rule_before `{Host} (a b : obj) : Prop :=
  (rule_specificity b < rule_specificity a)%Q \/
  ((rule_specificity a == rule_specificity b)%Q /\
   ((rule_priority b < rule_priority a)%Q \/
    ((rule_priority a == rule_priority b)%Q /\
     ((rule_benefit b < rule_benefit a)%Q \/
      ((rule_benefit a == rule_benefit b)%Q /\
       (localeCompare (rule_name a) (rule_name b) < 0)%Z))))).

Definition item_rule : obj :=
  {[ "name" := vstr "ITEM-RULE"; "price_or_discount" := vstr "Discount";
     "discount_type" := vstr "Amount"; "rate_or_discount" := vnum 5;
     "specificity" := vnum 3; "priority" := vnum 5 ]}.

Definition group_rule : obj :=
  {[ "name" := vstr "GROUP-RULE"; "price_or_discount" := vstr "Discount";
     "discount_type" := vstr "Rate"; "rate_or_discount" := vnum 10;
     "specificity" := vnum 2; "priority" := vnum 20 ]}.

(** ** The free-line synchroniser *)

(** The lines the removal pass leaves in the cart. *)
Definition kept (expectedKeys : list string) (l : line) : bool :=
  negb (stale_line expectedKeys l).

(** What the removal pass leaves of the packed items: nothing new, and
    nothing that belongs to the bundle of a removed line. *)
Definition packed_pruned (expectedKeys : list string) (removed : list line)
  (before after : list obj) : Prop :=
  (forall p, p ∈ after -> p ∈ before) /\
  (forall l p, l ∈ removed -> stale_line expectedKeys l = true ->
     truthy (get (snd l) "bundle_id") = true -> p ∈ after ->
     strict_eq (get p "bundle_id") (get (snd l) "bundle_id") = false).

(** The cart after the loop over the entries of the map, before the
    removal pass. *)
Definition sync_loop `{Host} (this : Component) (c : Cart) (freebiesMap : smap)
  : SyncState :=
  let '(existing, legacyFreeLines) := fold_left index_line (items c) (∅, []) in
  fold_left (sync_entry this) freebiesMap
    {| st_cart := c; st_existing := existing; st_legacy := legacyFreeLines |}.

(** No two lines of the cart are the same object, and the identities in use
    are below the next one. *)
Definition cart_wf (c : Cart) : Prop :=
  NoDup (map fst (items c)) /\
  forall oid, oid ∈ map fst (items c) -> (oid < next_oid c)%nat.

(** What the first pass has collected: an indexed tag is the non-empty tag
    of the line it points to, and a legacy entry is unused and points to an
    untagged line. *)
Definition index_ok (its : list line)
  (acc : gmap string nat * list LegacyEntry) : Prop :=
  (forall k oid, fst acc !! k = Some oid ->
     exists o, (oid, o) ∈ its /\ get o "auto_free_source" = VStr k /\
               k <> ""%string) /\
  (forall e, e ∈ snd acc ->
     lg_used e = false /\
     exists o, (lg_line e, o) ∈ its /\
               truthy (get o "auto_free_source") = false).

(** The lines [stale] are in the cart as they were, and neither the index
    nor the legacy entries point to any of them. *)
Definition stale_kept (stale : list line) (keys : list string)
  (st : SyncState) : Prop :=
  cart_wf (st_cart st) /\
  (forall l, l ∈ stale -> l ∈ items (st_cart st)) /\
  (forall k oid, k ∈ keys -> st_existing st !! k = Some oid ->
                 oid ∉ map fst stale) /\
  (forall e, e ∈ st_legacy st -> lg_line e ∉ map fst stale).

(** The lines whose tag is not a key of the map. *)
Definition stale_of (keys : list string) (its : list line) : list line :=
  List.filter (stale_line keys) its.

(** A cart holding a paid line and the free line a rule no longer grants,
    with the packed item of its bundle. *)
Definition stale_free_line : obj :=
  {[ "item_code" := vstr "FREE-ITEM"; "qty" := vnum 1; "is_free_item" := vnum 1;
     "auto_free_source" := vstr "RULE-1::FREE-ITEM::ROW-PARENT";
     "parent_row_id" := vstr "ROW-PARENT"; "bundle_id" := vstr "BUNDLE-1" ]}.

Definition stale_cart : Cart :=
  {| items :=
       [(0%nat, {[ "item_code" := vstr "ITEM-BASE"; "qty" := vnum 1;
                   "posa_row_id" := vstr "ROW-PARENT" ]} : obj);
        (1%nat, stale_free_line)];
     packed_items := [ {[ "bundle_id" := vstr "BUNDLE-1" ]} : obj ];
     next_oid := 2 |}.

(** The tag of a line. *)
Definition tag_of (o : obj) : value := get o "auto_free_source".

(** The identity and the tag of every line, in cart order. *)
Definition tag_view (its : list line) : list (nat * value) :=
  map (fun l => (fst l, tag_of (snd l))) its.

(** The first pass misses no line with a non-empty string tag, and lists no
    line twice among the legacy entries. *)
Definition index_complete (its : list line)
  (acc : gmap string nat * list LegacyEntry) : Prop :=
  (forall oid o k, (oid, o) ∈ its -> tag_of o = VStr k -> k <> ""%string ->
     is_Some (fst acc !! k)) /\
  NoDup (map lg_line (snd acc)) /\
  (forall e, e ∈ snd acc -> lg_line e ∈ map fst its).

(** The object [oid] is a line of the cart and carries the tag [t]. *)
Definition has_line (its : list line) (oid : nat) (t : value) : Prop :=
  exists o, (oid, o) ∈ its /\ tag_of o = t.

(** The invariant of the loop over the map: the index points to lines
    with the tag it is looked up by, unused legacy entries point to
    untagged lines, and every key processed so far tags a line. *)
Definition tagged (processed : list string) (st : SyncState) : Prop :=
  cart_wf (st_cart st) /\
  (forall k oid, st_existing st !! k = Some oid ->
     k <> ""%string /\ has_line (items (st_cart st)) oid (VStr k)) /\
  (forall e, e ∈ st_legacy st -> lg_used e = false ->
     exists o, (lg_line e, o) ∈ items (st_cart st) /\
               truthy (tag_of o) = false) /\
  NoDup (map lg_line (st_legacy st)) /\
  (forall k, k ∈ processed ->
     k <> ""%string /\ exists oid, has_line (items (st_cart st)) oid (VStr k)).

(** What an iteration leaves alone when a live line carries the key. *)
Definition same_lines (c c' : Cart) : Prop :=
  tag_view (items c') = tag_view (items c) /\
  next_oid c' = next_oid c /\
  packed_items c' = packed_items c.

(** A cart with a paid line, and the map granting one free item for it. *)
Definition paid_cart : Cart :=
  {| items :=
       [(0%nat, {[ "item_code" := vstr "ITEM-BASE"; "qty" := vnum 2;
                   "posa_row_id" := vstr "ROW-PARENT" ]} : obj)];
     packed_items := [];
     next_oid := 1 |}.

Definition granted_freebies : smap :=
  [("RULE-1::FREE-ITEM::ROW-PARENT"%string,
    {[ "rule" := vstr "RULE-1"; "item_code" := vstr "FREE-ITEM";
       "qty" := vnum 1; "rate" := vnum 0;
       "parentRowId" := vstr "ROW-PARENT" ]} : obj)].

(** ** The rule evaluator *)

(** A filter of a rule: it is not set, or the context carries the very
    value it asks for. *)
Definition filter_ok (want have : value) : Prop :=
  truthy want = false \/ (truthy have = true /\ strict_eq want have = true).

(** The rules of the bundle an item is looked up under. *)
Definition offered (item : obj) (indexBundle : IndexBundle) : list obj :=
  bucket_of (byItem indexBundle) (get item "item_code") ++
  bucket_of (byGroup indexBundle) (get item "item_group") ++
  bucket_of (byBrand indexBundle) (get item "brand") ++
  default [] (general indexBundle).

(** No two entries of the list carry the same name. *)
Definition distinct_names (l : list obj) : Prop :=
  forall i j a b, l !! i = Some a -> l !! j = Some b -> i <> j ->
    same_value_zero (get a "name") (get b "name") = false.

(** The rules the chain of [evaluatePricingRules] gets to: the leading rules
    up to and including the first one that stops the chain. *)
Fixpoint chain_prefix (rules : list obj) : list obj :=
  match rules with
  | [] => []
  | rule :: rest =>
      if truthy (get rule "stop_further_rules") ||
         negb (truthy (get rule "apply_multiple_pricing_rules"))
      then [rule] else rule :: chain_prefix rest
  end.

(** A list in precedence order: no entry goes before one that precedes it
    in the list. *)
Fixpoint ordered `{Host} (l : list obj) : Prop :=
  match l with
  | [] => True
  | x :: r => Forall (fun y => ~ rule_before y x) r /\ ordered r
  end.

(** Two rules of one item, offered in the reverse of their precedence. *)
Definition two_rule_args : EvalArgs :=
  {| arg_item := {[ "item_code" := vstr "ITEM-1" ]};
     arg_qty := vnum 1; arg_docQty := VUndef; arg_baseRate := vnum 100;
     arg_ctx := ∅; arg_indexes := index_for "ITEM-1" [group_rule; item_rule] |}.

(** ** Lines that are not repriced *)

(** The tests that keep the local pass, and a server update, from writing
    the rate of a line. *)
Definition locally_locked (item : obj) : Prop :=
  truthy (get item "locked_price") = true \/
  truthy (get item "posa_offer_applied") = true.

Definition server_locked (item : obj) : Prop :=
  get item "locked_price" = VBool true \/
  get item "posa_offer_applied" = VBool true \/
  get item "posa_offer_applied" = vnum 1 \/
  get item "posa_offer_applied" = vstr "1".

(** ** The freebie map *)

(** The quantity a map holds under a key, as [_applyPricingToLine] reads
    it. *)
Definition held_qty (m : smap) (key : string) : num :=
  num_or (parseFloat (or_ (get (default {[ "qty" := vnum 0 ]} (smap_get m key))
                               "qty") (vnum 0))) (Fin 0).

Definition entry_qty (entry : obj) : num :=
  num_or (parseFloat (or_ (get entry "qty") (vnum 0))) (Fin 0).

(** A locked line of the test-suite's kind, and a freebie entry. *)
Definition locked_item : obj :=
  {[ "item_code" := vstr "ITEM-1"; "qty" := vnum 2; "rate" := vnum 100;
     "base_rate" := vnum 100; "price_list_rate" := vnum 100;
     "locked_price" := VBool true ]}.

Definition half_price_update : value :=
  VObj {[ "row_id" := vstr "ROW-1"; "rate" := vnum 50;
          "price_list_rate" := vnum 100; "discount_amount" := vnum 50;
          "discount_percentage" := vnum 50 ]}.

(** A pinned paid line in a cart of its own. *)
Definition manual_cart : Cart :=
  {| items := [(0%nat, manual_item)]; packed_items := []; next_oid := 1 |}.

(** ** Paid lines and the synchroniser *)

(** What the first pass lists as legacy free lines are free lines. *)
Definition legacy_free (its : list line)
  (acc : gmap string nat * list LegacyEntry) : Prop :=
  forall e, e ∈ snd acc ->
    exists o, (lg_line e, o) ∈ its /\ truthy (get o "is_free_item") = true.

(** The lines of a cart that are neither free nor tagged. *)
Definition paid_lines (its : list line) : list line :=
  List.filter is_paid_line its.

(** The paid line of [paid_cart]. *)
Definition base_line : obj :=
  {[ "item_code" := vstr "ITEM-BASE"; "qty" := vnum 2;
     "posa_row_id" := vstr "ROW-PARENT" ]}.

(** ** Manual rate overrides *)

(** The rate fields an override carries, besides the amounts. *)
Definition override_rate_keys : list string :=
  ["price_list_rate"; "base_price_list_rate"; "rate"; "base_rate";
   "discount_amount"; "base_discount_amount"; "discount_percentage"].

(** A value [===] compares by content. *)
Definition primitive (v : value) : Prop :=
  match v with VArr _ | VObj _ => False | _ => True end.

(** The fields a line is recognised by hold primitives. *)
Definition identity_primitive (item : value) : Prop :=
  primitive (prop item "name") /\ primitive (prop item "posa_row_id") /\
  primitive (prop item "item_code") /\ primitive (prop item "batch_no") /\
  primitive (prop item "serial_no").

(** The same for the fields that tell a free line: the tag is a string when
    it is set, the parent row and the rule are primitives. *)
Definition free_identity_primitive (item : value) : Prop :=
  (truthy (prop item "auto_free_source") = true ->
   exists s, prop item "auto_free_source" = VStr s) /\
  primitive (prop item "parent_row_id") /\
  primitive (normalized_rule item).

(** The line has a name, a row id or an item code. *)
Definition has_identity (item : value) : Prop :=
  truthy (prop item "name") = true \/ truthy (prop item "posa_row_id") = true \/
  truthy (prop item "item_code") = true.

(** The fields restoring a snapshot may write on the line it was taken
    from. *)
Definition restore_keys : list string :=
  ["_manual_rate_set"; "_manual_rate_set_from_uom"; "amount"; "base_amount"].

(** What restoring its own snapshot does to a line: nothing, or it pins the
    line and fills in amounts that were missing. *)
Definition restored_line (o o' : obj) : Prop :=
  frame restore_keys o o' /\
  (get o "amount" <> VUndef -> get o' "amount" = get o "amount") /\
  (get o "base_amount" <> VUndef -> get o' "base_amount" = get o "base_amount").

Definition restored (item item' : value) : Prop :=
  item' = item \/
  exists o o', item = VObj o /\ item' = VObj o' /\ restored_line o o'.

(** The two fields a line is told from another one by, whatever else they
    share. *)
Definition same_field (k : string) (src dst : value) : bool :=
  truthy (prop src k) && truthy (prop dst k) &&
  strict_eq (prop src k) (prop dst k).

(** The lines of the test-suite: a paid line and the free line that shares
    its item code. *)
Definition cleaner_paid : value :=
  VObj {[ "name" := vstr "ITEM-PAID-ROW"; "item_code" := vstr "CLEANER";
          "idx" := vnum 1; "rate" := vnum 1900; "base_rate" := vnum 1900;
          "price_list_rate" := vnum 1900; "base_price_list_rate" := vnum 1900;
          "discount_amount" := vnum 0; "base_discount_amount" := vnum 0;
          "is_free_item" := vnum 0 ]}.

Definition cleaner_free : value :=
  VObj (<["auto_free_source" := vstr "RULE-001::CLEANER::PARENT-ROW"]>
          (<["parent_row_id" := vstr "PARENT-ROW"]>
             (<["source_rule" := vstr "RULE-001"]>
                {[ "name" := vstr "ITEM-FREE-ROW"; "item_code" := vstr "CLEANER";
                   "idx" := vnum 2; "rate" := vnum 100; "base_rate" := vnum 100;
                   "price_list_rate" := vnum 100;
                   "base_price_list_rate" := vnum 100;
                   "discount_amount" := vnum 0; "base_discount_amount" := vnum 0;
                   "is_free_item" := vnum 1;
                   "_manual_rate_set" := VBool true ]}))).

Definition cleaner_doc : obj :=
  {[ "items" := VArr [cleaner_paid; cleaner_free] ]}.

Definition cleaner_values : obj :=
  {[ "rate" := vnum 100; "base_rate" := vnum 100;
     "price_list_rate" := vnum 100; "base_price_list_rate" := vnum 100;
     "discount_amount" := vnum 0; "base_discount_amount" := vnum 0;
     "discount_percentage" := vnum 0; "amount" := vnum 100;
     "base_amount" := vnum 100 ]}.

(** An item no override of [ovs] matches comes out as it went in. *)
Definition untouched `{Host} (ovs : list value) (item item' : value) : Prop :=
  (forall ov, ov ∈ ovs -> _doesManualOverrideMatchItem ov item = false) ->
  item' = item.

(** The snapshots taken of a list of items. *)
Definition own_snapshots `{Host} (l : list value) : list value :=
  List.filter (fun entry => negb (strict_eq entry VNull)) (map snapshot_of l).

(** ** The stock cache *)

Definition stock_item : value :=
  VObj {[ "item_code" := vstr "ITEM-1"; "warehouse" := vstr "Stores" ]}.

(** ** Price-list rates *)

(** The fields [_applyPriceListRate] may write on a pinned line. *)
Definition pinned_price_keys : list string :=
  ["original_currency"; "original_rate"; "base_price_list_rate";
   "price_list_rate"; "amount"; "base_amount"].

Definition usd_only : Currencies :=
  {| selected_currency := vstr "USD"; company_currency := vstr "USD";
     conversion_rate := vnum 1 |}.

(** A line whose original rate and currency are on record. *)
Definition recorded_item : obj :=
  {[ "item_code" := vstr "ITEM-1"; "qty" := vnum 1; "rate" := vnum 90;
     "original_rate" := vnum 100; "original_currency" := vstr "USD" ]}.

(** ** The rule store *)

(** The rules of a snapshot filed under a key of one of the maps: [field]
    is the field the map is keyed by, [above] lists the fields that take
    precedence over it. *)
Definition filed_under `{Host} (rules : list obj) (above : list string)
  (field : string) (key : value) (r : obj) : Prop :=
  exists r0, r0 ∈ rules /\ r = normaliseRule r0 /\
    Forall (fun f => truthy (get r0 f) = false) above /\
    truthy (get r0 field) = true /\ svz (get r0 field) key.

(** The invariant of the loop of [indexRules] for one map. *)
Definition map_files `{Host} (rules : list obj) (above : list string)
  (field : string) (m : list (value * list obj)) : Prop :=
  forall key r,
    r ∈ default [] (vmap_get m key) <-> filed_under rules above field key r.

(** The invariant of the loop of [indexRules]. *)
Definition index_files `{Host} (rules : list obj) (st : StoreIndexes) : Prop :=
  map_files rules [] "item_code" (itemMap st) /\
  map_files rules ["item_code"] "item_group" (groupMap st) /\
  map_files rules ["item_code"; "item_group"] "brand" (brandMap st) /\
  forall r, r ∈ generalRules st <->
    exists r0, r0 ∈ rules /\ r = normaliseRule r0 /\
      Forall (fun f => truthy (get r0 f) = false)
             ["item_code"; "item_group"; "brand"].

(** Two rules for one item code, the one of lower priority first. *)
Definition coded_rules : list obj :=
  [ <["item_code" := vstr "ITEM-1"]> item_rule;
    <["item_code" := vstr "ITEM-1"]> group_rule ].

(** * Properties *)

(** ** Reading and writing properties *)

Lemma get_insert_eq (o : obj) (k : string) (v : value) :
  get (<[k := v]> o) k = v.
Proof. unfold get. by rewrite lookup_insert_eq. Qed.

Lemma get_insert_ne (o : obj) (k k' : string) (v : value) :
  k ≠ k' -> get (<[k := v]> o) k' = get o k'.
Proof. intros. unfold get. by rewrite lookup_insert_ne. Qed.

Lemma get_delete_ne (o : obj) (k k' : string) :
  k ≠ k' -> get (delete k o) k' = get o k'.
Proof. intros. unfold get. by rewrite lookup_delete_ne. Qed.

Lemma frame_refl ks o : frame ks o o.
Proof. by intros k _. Qed.

Lemma frame_trans ks o1 o2 o3 :
  frame ks o1 o2 -> frame ks o2 o3 -> frame ks o1 o3.
Proof. intros H12 H23 k Hk. rewrite H23, H12; auto. Qed.

Lemma frame_weaken ks ks' o o' :
  (forall k, k ∈ ks -> k ∈ ks') -> frame ks o o' -> frame ks' o o'.
Proof. intros Hsub Hf k Hk. apply Hf. intros Hin. apply Hk. auto. Qed.

Lemma frame_insert ks o k v : k ∈ ks -> frame ks o (<[k := v]> o).
Proof. intros Hin k' Hk'. apply get_insert_ne. intros ->. auto. Qed.

Lemma frame_delete ks o k : k ∈ ks -> frame ks o (delete k o).
Proof. intros Hin k' Hk'. apply get_delete_ne. intros ->. auto. Qed.

Lemma frame_insert_r ks o o' k v :
  k ∈ ks -> frame ks o o' -> frame ks o (<[k := v]> o').
Proof. intros Hin Hf. eapply frame_trans; [exact Hf|]. by apply frame_insert. Qed.

(** Membership of a literal key in a literal list, by evaluation. *)
Ltac lit_mem :=
  lazymatch goal with
  | |- ?P => apply (bool_decide_unpack P); vm_compute; exact I
  end.

(** Closes [frame ks o (<[k1:=_]> (... o))] for literal keys. *)
Ltac frame_inserts :=
  repeat first
    [ apply frame_refl
    | apply frame_insert_r; [ lit_mem | ] ].

Section Frames.
Context `{Host}.
Variable this : Component.

Lemma updatePricingBadge_frame item applied :
  frame badge_keys item (_updatePricingBadge item applied).
Proof.
  unfold _updatePricingBadge. destruct applied as [|d l].
  - apply frame_insert_r; [lit_mem|].
    apply frame_insert_r; [lit_mem|].
    apply frame_delete. lit_mem.
  - cbv zeta. frame_inserts.
Qed.

Lemma apply_rate_update_frame item p b q :
  frame local_rate_keys item (apply_rate_update this item p b q).
Proof. unfold apply_rate_update. cbv zeta. frame_inserts. Qed.

Lemma apply_server_rates_frame item p :
  frame server_rate_keys item (apply_server_rates this item p).
Proof. unfold apply_server_rates. cbv zeta. frame_inserts. Qed.

Lemma manually_set_override item :
  manually_set item -> manualOverride_of item = true.
Proof.
  intros [Hset Huom]. unfold manualOverride_of. rewrite Hset. simpl.
  destruct (get item "_manual_rate_set_from_uom") as [| |[]| | | |]; try done.
Qed.

Lemma manually_set_frame ks item item' :
  "_manual_rate_set" ∉ ks -> "_manual_rate_set_from_uom" ∉ ks ->
  frame ks item item' -> manually_set item -> manually_set item'.
Proof.
  intros H1 H2 Hf [Hset Huom]. split.
  - by rewrite (Hf _ H1).
  - by rewrite (Hf _ H2).
Qed.

(** A line the user pinned keeps everything but its badge in the local pass. *)
Lemma applyPricingToLine_manual_frame item ctx indexes fm :
  manually_set item ->
  frame badge_keys item (fst (_applyPricingToLine this item ctx indexes fm)).
Proof.
  intros Hm. unfold _applyPricingToLine, allowRateUpdate_of.
  rewrite (manually_set_override _ Hm), andb_false_r. cbv zeta.
  destruct (eqb _ _ && eqb _ _); simpl.
  - apply frame_refl.
  - apply updatePricingBadge_frame.
Qed.

Lemma apply_update_to_frame idx update item :
  frame (badge_keys ++ server_rate_keys) item
    (apply_update_to this idx update item).
Proof.
  unfold apply_update_to. cbv zeta.
  eapply frame_trans.
  2: { eapply frame_weaken; [|apply updatePricingBadge_frame].
       intros k Hk. apply elem_of_app. by left. }
  destruct (allowServerRateUpdate_of _ _ _ _ _).
  - eapply frame_weaken; [|apply apply_server_rates_frame].
    intros k Hk. apply elem_of_app. by right.
  - apply frame_refl.
Qed.

Lemma apply_update_to_manual_frame idx update item :
  manually_set item ->
  frame badge_keys item (apply_update_to this idx update item).
Proof.
  intros Hm. unfold apply_update_to, allowServerRateUpdate_of.
  rewrite (manually_set_override _ Hm). simpl.
  apply updatePricingBadge_frame.
Qed.

Lemma update_rel_refl l : update_rel l l.
Proof. repeat split; intros; apply frame_refl. Qed.

Lemma update_rel_trans l1 l2 l3 :
  update_rel l1 l2 -> update_rel l2 l3 -> update_rel l1 l3.
Proof.
  intros (E12 & F12 & M12) (E23 & F23 & M23). repeat split.
  - congruence.
  - eapply frame_trans; eauto.
  - intros Hm. eapply frame_trans; [by apply M12|]. apply M23.
    eapply manually_set_frame; [| |exact F12|exact Hm]; lit_mem.
Qed.

Lemma apply_update_rel idx its update :
  Forall2 update_rel its (apply_update this idx its update).
Proof.
  unfold apply_update.
  destruct (List.find _ its) as [t|].
  - unfold update_line. induction its as [|l its IH]; simpl; constructor; auto.
    destruct (fst l =? fst t)%nat.
    + repeat split; simpl.
      * apply apply_update_to_frame.
      * intros. by apply apply_update_to_manual_frame.
    + apply update_rel_refl.
  - induction its; constructor; auto using update_rel_refl.
Qed.

Lemma Forall2_update_rel_trans l1 l2 l3 :
  Forall2 update_rel l1 l2 -> Forall2 update_rel l2 l3 ->
  Forall2 update_rel l1 l3.
Proof.
  intros H12. revert l3. induction H12; intros l3 H23; inversion H23; subst.
  - constructor.
  - constructor; eauto using update_rel_trans.
Qed.

Lemma apply_updates_rel idx updates its :
  Forall2 update_rel its (fold_left (apply_update this idx) updates its).
Proof.
  revert its. induction updates as [|u updates IH]; intros its; simpl.
  - induction its; constructor; auto using update_rel_refl.
  - eapply Forall2_update_rel_trans; [apply apply_update_rel|apply IH].
Qed.

End Frames.

(** ** Lines the user pinned, and lines without quantity *)

Lemma protected_not_badge k : k ∈ manual_protected -> k ∉ badge_keys.
Proof.
  unfold manual_protected. rewrite !elem_of_cons, elem_of_nil.
  intros [->|[->|[->|[->|[->|[]]]]]]; lit_mem.
Qed.

(** C1: a cart line whose [_manual_rate_set] flag is true, and whose
    [_manual_rate_set_from_uom] flag is not, keeps its [rate], [base_rate],
    [price_list_rate], [discount_amount] and [discount_percentage] through
    [_applyPricingToLine], through the application of any one server update
    and through the whole update loop of [_applyServerPricingRules],
    whatever the rules and the reply propose. *)
Theorem manual_rate_never_rewritten `{Host} (this : Component) (item : obj) :
  manually_set item ->
  (forall ctx indexes fm k, k ∈ manual_protected ->
     get (fst (_applyPricingToLine this item ctx indexes fm)) k = get item k)
  /\ (forall idx update k, k ∈ manual_protected ->
        get (apply_update_to this idx update item) k = get item k)
  /\ (forall idx updates its i oid, its !! i = Some (oid, item) ->
        exists item',
          fold_left (apply_update this idx) updates its !! i = Some (oid, item')
          /\ forall k, k ∈ manual_protected -> get item' k = get item k).
Proof.
  intros Hm. split; [|split].
  - intros ctx indexes fm k Hk.
    apply applyPricingToLine_manual_frame; auto using protected_not_badge.
  - intros idx update k Hk.
    apply apply_update_to_manual_frame; auto using protected_not_badge.
  - intros idx updates its i oid Hi.
    pose proof (apply_updates_rel this idx updates its) as Hrel.
    destruct (Forall2_lookup_l _ _ _ _ _ Hrel Hi) as ([oid' item'] & Hi' & Hr).
    destruct Hr as (Hfst & _ & Hfr). simpl in *. subst oid'.
    exists item'. split; [done|].
    intros k Hk. apply Hfr; auto using protected_not_badge.
Qed.

Lemma manual_rate_never_rewritten_witness :
  get (apply_update_to test_component no_same_item manual_update manual_item)
      "rate" = vnum 120.
Proof.
  refine (proj1 (proj2 (manual_rate_never_rewritten test_component manual_item _))
            no_same_item manual_update "rate" _).
  - split; [reflexivity|discriminate].
  - lit_mem.
Defined.

(** C10: when the document quantity and the resolved pricing quantity of a
    line are both 0, [_applyPricingToLine] returns the line and the freebie
    map exactly as it received them. *)
Theorem applyPricingToLine_zero_qty `{Host} (this : Component) (item ctx : obj)
  (indexes : IndexBundle) (fm : smap) :
  eqb (docQty_of item) (Fin 0) = true ->
  eqb (pricingQty_of item) (Fin 0) = true ->
  _applyPricingToLine this item ctx indexes fm = (item, fm).
Proof.
  intros Hd Hq. unfold _applyPricingToLine. cbv zeta. by rewrite Hd, Hq.
Qed.

Lemma applyPricingToLine_zero_qty_witness :
  _applyPricingToLine test_component zero_qty_item ∅ no_indexes [] =
  (zero_qty_item, []).
Proof.
  apply (applyPricingToLine_zero_qty test_component); reflexivity.
Defined.

(** ** Order on numbers *)

Lemma le_Fin x y : le (Fin x) (Fin y) = true <-> (x <= y)%Q.
Proof. simpl. apply Qle_bool_iff. Qed.

Lemma lt_Fin x y : lt (Fin x) (Fin y) = true <-> (x < y)%Q.
Proof.
  simpl. rewrite negb_true_iff. split.
  - intros Hf. apply Qnot_le_lt. intros Hle.
    apply Qle_bool_iff in Hle. congruence.
  - intros Hlt. destruct (Qle_bool y x) eqn:E; [|done].
    apply Qle_bool_iff in E. exfalso. eapply Qlt_not_le; eauto.
Qed.

Lemma eqb_Fin x y : eqb (Fin x) (Fin y) = true <-> (x == y)%Q.
Proof. simpl. apply Qeq_bool_iff. Qed.

Lemma le_trans a b c : le a b = true -> le b c = true -> le a c = true.
Proof.
  destruct a, b, c; simpl; try done.
  rewrite !Qle_bool_iff. apply Qle_trans.
Qed.

Lemma le_total a b x y :
  le a x = true -> le b y = true -> le a b = false -> le b a = true.
Proof.
  destruct a, b, x, y; simpl; try done.
  all: intros _ _ Hf; apply Qle_bool_iff; apply Qlt_le_weak;
       apply Qnot_le_lt; intros Hle; apply Qle_bool_iff in Hle; congruence.
Qed.

Lemma le_refl_of a x : le a x = true -> le a a = true.
Proof.
  destruct a, x; simpl; try done.
  all: intros _; apply Qle_bool_iff, Qle_refl.
Qed.

Lemma max_Fin x y : max (Fin x) (Fin y) = Fin (if Qle_bool x y then y else x).
Proof. simpl. by destruct (Qle_bool x y). Qed.

Lemma min_Fin x y : min (Fin x) (Fin y) = Fin (if Qle_bool x y then x else y).
Proof. simpl. by destruct (Qle_bool x y). Qed.

Lemma isFinite_Fin n : isFinite n = true -> exists q, n = Fin q.
Proof. destruct n; try done. eauto. Qed.

(** ** Slab selection *)

Lemma selectSlab_step_choice qty seen chosen slab :
  slab_choice qty seen chosen ->
  slab_choice qty (seen ++ [slab]) (selectSlab_step qty chosen slab).
Proof.
  unfold selectSlab_step. fold (slab_min slab).
  destruct chosen as [c|]; simpl.
  - intros (Hin & Hq & Hmax). fold (slab_min c).
    destruct (ge qty (slab_min slab)) eqn:Hs; simpl.
    + destruct (ge (slab_min slab) (slab_min c)) eqn:Hc; simpl.
      * split; [apply elem_of_app; right; by apply list_elem_of_singleton|].
        split; [done|]. intros s [Hs'|Hs']%elem_of_app Hqs.
        -- unfold ge in *. eapply le_trans; [|exact Hc]. by apply Hmax.
        -- apply list_elem_of_singleton in Hs'. subst s.
           unfold ge in *. eapply le_refl_of; eauto.
      * split; [apply elem_of_app; by left|]. split; [done|].
        intros s [Hs'|Hs']%elem_of_app Hqs; [by apply Hmax|].
        apply list_elem_of_singleton in Hs'. subst s.
        unfold ge in *. eapply le_total; eauto.
    + split; [apply elem_of_app; by left|]. split; [done|].
      intros s [Hs'|Hs']%elem_of_app Hqs; [by apply Hmax|].
      apply list_elem_of_singleton in Hs'. subst s. congruence.
  - intros Hnone. destruct (ge qty (slab_min slab)) eqn:Hs; simpl.
    + split; [apply elem_of_app; right; by apply list_elem_of_singleton|].
      split; [done|]. intros s [Hs'|Hs']%elem_of_app Hqs.
      * rewrite (Hnone _ Hs') in Hqs. done.
      * apply list_elem_of_singleton in Hs'. subst s.
        unfold ge in *. eapply le_refl_of; eauto.
    + intros s [Hs'|Hs']%elem_of_app; [by apply Hnone|].
      apply list_elem_of_singleton in Hs'. by subst s.
Qed.

Lemma selectSlab_fold_choice qty l :
  slab_choice qty l (fold_left (selectSlab_step qty) l None).
Proof.
  induction l as [|slab l IH] using rev_ind.
  - simpl. intros s Hs. by apply elem_of_nil in Hs.
  - rewrite fold_left_app. simpl. by apply selectSlab_step_choice.
Qed.

Lemma selectSlab_choice (rule : obj) (qty : num) :
  slab_choice qty (slabs_of rule) (selectSlab rule qty).
Proof. apply selectSlab_fold_choice. Qed.

Lemma applyOneRule_detail `{Host} cur rule qty base :
  truthy (get rule "is_free_item_rule") = false ->
  exists d, detail (applyOneRule cur rule qty base) = Some d /\
            get d "value" = VNum (resolveSlabValue rule (selectSlab rule qty)).
Proof.
  intros Hfree. unfold applyOneRule. cbv zeta. rewrite Hfree.
  match goal with |- context [let '(_, _) := ?p in _] => destruct p end.
  eexists. split; [reflexivity|]. simpl.
  rewrite get_insert_ne, get_insert_ne, get_insert_eq; done.
Qed.


(** ** Free-item quantities *)

Lemma computeThresholdInfo_multiplier `{Host} rule qty :
  computeThresholdInfo rule qty = (threshold_minimum rule, multiplier_of rule qty).
Proof. reflexivity. Qed.

Lemma num_or_nonzero n d q :
  num_or n (Fin d) = Fin q -> ~ (d == 0)%Q -> ~ (q == 0)%Q.
Proof.
  unfold num_or. destruct n as [x| | |]; simpl; try (intros [= <-]; done).
  destruct (Qeq_bool x 0) eqn:E; simpl; intros [= <-]; [done|].
  intros _ Hx. apply Qeq_bool_iff in Hx. congruence.
Qed.

Lemma multiplier_per_threshold rule q t :
  truthy (get rule "apply_per_threshold") = true ->
  threshold_divisor rule = Fin t ->
  ~ (t == 0)%Q /\
  multiplier_of rule (Fin q) = Fin (inject_Z (Qfloor (q / t))).
Proof.
  intros Ha Ht. assert (Hnz : ~ (t == 0)%Q).
  { eapply num_or_nonzero; [exact Ht|]. done. }
  split; [done|]. unfold multiplier_of. rewrite Ha, Ht. simpl.
  destruct (Qeq_bool t 0) eqn:E; [|done].
  apply Qeq_bool_iff in E. done.
Qed.

Lemma min_le_r a m x : min a (Fin m) = Fin x -> (x <= m)%Q.
Proof.
  destruct a as [y| | |]; simpl; try done.
  - destruct (Qle_bool y m) eqn:E; intros [= <-].
    + by apply Qle_bool_iff.
    + apply Qle_refl.
  - intros [= <-]. apply Qle_refl.
Qed.

Lemma floor_le a m x :
  (forall y, a = Fin y -> (y <= m)%Q) -> floor a = Fin x -> (x <= m)%Q.
Proof.
  destruct a as [y| | |]; simpl; try done.
  intros Hy [= <-]. eapply Qle_trans; [apply Qfloor_le|]. by apply Hy.
Qed.

Lemma floor_integer a x :
  floor a = Fin x -> (x == inject_Z (Qfloor x))%Q.
Proof.
  destruct a as [y| | |]; simpl; try done.
  intros [= <-]. by rewrite Qfloor_Z.
Qed.

Lemma free_qty_capped rule qty m x :
  nullish (get rule "max_free_qty") = false ->
  parseFloat (get rule "max_free_qty") = Fin m ->
  free_qty_of rule qty = Fin x -> (x <= m)%Q.
Proof.
  intros Hn Hm. unfold free_qty_of, capped_free_qty. rewrite Hn, Hm. simpl.
  destruct (truthy (get rule "round_free_qty")).
  - apply floor_le. intros y. apply min_le_r.
  - apply min_le_r.
Qed.

Lemma free_qty_rounded rule qty x :
  truthy (get rule "round_free_qty") = true ->
  free_qty_of rule qty = Fin x -> (x == inject_Z (Qfloor x))%Q.
Proof.
  intros Hr. unfold free_qty_of. rewrite Hr. apply floor_integer.
Qed.

Lemma applyFreeItemRule_descriptor `{Host} rule item qty :
  match applyFreeItemRule rule item qty with
  | Some d =>
      le (free_qty_of rule qty) (Fin 0) = false /\
      get d "multiplier" = VNum (multiplier_of rule qty) /\
      get d "qty" = VNum (free_qty_of rule qty) /\
      get d "stock_qty" = VNum (free_qty_of rule qty) /\
      get d "min_qty" = VNum (threshold_minimum rule)
  | None => le (free_qty_of rule qty) (Fin 0) = true
  end.
Proof.
  unfold applyFreeItemRule. rewrite computeThresholdInfo_multiplier.
  cbv zeta.
  change (if truthy (get rule "round_free_qty") then _ else _)
    with (free_qty_of rule qty).
  destruct (le (free_qty_of rule qty) (Fin 0)) eqn:Hle; [done|].
  split; [done|].
  repeat match goal with
         | |- context [match ?o with Some _ => _ | None => _ end] =>
             destruct o
         end;
    repeat split;
    repeat first [ rewrite get_insert_eq | rewrite get_insert_ne by done ];
    reflexivity.
Qed.



(** ** Bounds on the evaluated rate *)

Lemma pow10_6_pos : (0 < pow10 6)%Q.
Proof. reflexivity. Qed.

Lemma round6_mono x y : (x <= y)%Q -> (round6 x <= round6 y)%Q.
Proof.
  intros Hxy. unfold round6, Qdiv.
  apply Qmult_le_compat_r; [|apply Qlt_le_weak, Qinv_lt_0_compat, pow10_6_pos].
  rewrite <- Zle_Qle. apply Qfloor_resp_le.
  apply Qplus_le_l. apply Qmult_le_compat_r; [done|].
  apply Qlt_le_weak, pow10_6_pos.
Qed.

Lemma round6_comp x y : (x == y)%Q -> (round6 x == round6 y)%Q.
Proof.
  intros Hxy. apply Qle_antisym; apply round6_mono; rewrite Hxy; apply Qle_refl.
Qed.

Lemma round6_0 : (round6 0 == 0)%Q.
Proof. reflexivity. Qed.

Lemma round6_nonneg x : (0 <= x)%Q -> (0 <= round6 x)%Q.
Proof. intros Hx. rewrite <- round6_0. by apply round6_mono. Qed.

Section RateBounds.
Context `{Host}.

Lemma round_Fin x : exists q, round (VNum (Fin x)) = Fin q /\ (q == round6 x)%Q.
Proof.
  unfold round, or_. cbn [truthy].
  destruct (Qeq_bool x 0) eqn:E; cbn [negb].
  - exists (round6 0). split; [reflexivity|].
    apply Qeq_bool_iff in E. symmetry. by apply round6_comp.
  - exists (round6 x). split; [reflexivity|]. reflexivity.
Qed.

Lemma startRate_finite a : exists b, startRate_of a = Fin b.
Proof.
  unfold startRate_of. cbv zeta.
  match goal with |- context [isFinite ?n] => destruct n end; simpl; eauto.
Qed.

(** A rule that is not a free-item rule leaves a finite, non-negative
    rate. *)
Lemma applyOneRule_nonneg cur rule (qty base : num) c :
  truthy (get rule "is_free_item_rule") = false ->
  cur = Fin c ->
  exists n, newRate (applyOneRule cur rule qty base) = Fin n /\ (0 <= n)%Q.
Proof.
  intros Hfree ->. unfold applyOneRule. cbv zeta. rewrite Hfree.
  match goal with |- context [let '(_, _) := ?p in _] => destruct p as [nr ty] end.
  simpl. destruct nr as [y| | |]; simpl.
  - destruct (Qle_bool 0 y) eqn:E; eexists; split; try reflexivity.
    + by apply Qle_bool_iff.
    + apply Qle_refl.
  - destruct (Qle_bool 0 c) eqn:E; eexists; split; try reflexivity.
    + by apply Qle_bool_iff.
    + apply Qle_refl.
  - destruct (Qle_bool 0 c) eqn:E; eexists; split; try reflexivity.
    + by apply Qle_bool_iff.
    + apply Qle_refl.
  - destruct (Qle_bool 0 c) eqn:E; eexists; split; try reflexivity.
    + by apply Qle_bool_iff.
    + apply Qle_refl.
Qed.

Lemma apply_chain_nonneg qty base rules c applied :
  Forall (fun rule => truthy (get rule "is_free_item_rule") = false) rules ->
  exists n, fst (apply_chain qty base rules (Fin c) applied) = Fin n /\
            ((0 <= c)%Q \/ rules <> [] -> (0 <= n)%Q).
Proof.
  intros Hall. revert c applied.
  induction Hall as [|rule rules Hr Hall IH]; intros c applied; simpl.
  - exists c. split; [done|]. intros [Hc|Hne]; done.
  - destruct (applyOneRule_nonneg (Fin c) rule qty base c Hr eq_refl)
      as (n & Hn & Hpos).
    rewrite Hn.
    destruct (truthy (get rule "stop_further_rules")); simpl.
    { exists n. split; [done|]. auto. }
    destruct (truthy (get rule "apply_multiple_pricing_rules")); simpl.
    2: { exists n. split; [done|]. auto. }
    destruct (IH n (match detail (applyOneRule (Fin c) rule qty base) with
                    | Some d => applied ++ [d]
                    | None => applied
                    end)) as (n' & Hn' & Hpos').
    exists n'. split; [done|]. intros _. apply Hpos'. by left.
Qed.

Lemma sort_insert_elem cmp x l y :
  y ∈ sort_insert cmp x l -> y = x \/ y ∈ l.
Proof.
  induction l as [|z l IH]; simpl.
  - intros Hy%list_elem_of_singleton. by left.
  - destruct (lt (cmp z x) (Fin 0)).
    + intros [->|Hy]%elem_of_cons.
      * right. apply elem_of_cons. by left.
      * destruct (IH Hy) as [->|Hin]; [by left|].
        right. apply elem_of_cons. by right.
    + intros [->|Hy]%elem_of_cons; [by left|by right].
Qed.

Lemma sort_by_elem cmp l y : y ∈ sort_by cmp l -> y ∈ l.
Proof.
  induction l as [|x l IH]; simpl; [done|].
  intros [->|Hy]%sort_insert_elem.
  - apply elem_of_cons. by left.
  - apply elem_of_cons. right. by apply IH.
Qed.

Lemma pricingRules_not_free a :
  Forall (fun rule => truthy (get rule "is_free_item_rule") = false)
         (pricingRules_of a).
Proof.
  apply list.Forall_forall. intros rule Hin.
  apply sort_by_elem in Hin.
  apply list_elem_of_In, filter_In in Hin as [Hin _].
  apply filter_In in Hin as [_ Hfree].
  unfold isFreeRule in Hfree.
  apply negb_true_iff, orb_false_iff in Hfree. tauto.
Qed.

End RateBounds.




(** ** The rate written by [_applyPricingToLine] *)

Lemma Qle_bool_false x y : Qle_bool x y = false -> (y < x)%Q.
Proof.
  intros Hf. apply Qnot_le_lt. intros Hle. apply Qle_bool_iff in Hle. congruence.
Qed.

Lemma Qabs_spec x :
  ((x < 0)%Q /\ (Qabs x == - x)%Q) \/ ((0 <= x)%Q /\ (Qabs x == x)%Q).
Proof.
  destruct (Qlt_le_dec x 0) as [Hlt|Hle].
  - left. split; [done|]. apply Qabs_neg. by apply Qlt_le_weak.
  - right. split; [done|]. by apply Qabs_pos.
Qed.

(** Boolean comparisons in the hypotheses become inequalities. *)
Ltac q_bools :=
  repeat match goal with
         | H : Qle_bool _ _ = true |- _ => apply Qle_bool_iff in H
         | H : Qle_bool _ _ = false |- _ => apply Qle_bool_false in H
         | H : Qeq_bool _ _ = true |- _ => apply Qeq_bool_iff in H
         | H : Qeq_bool _ _ = false |- _ => apply Qeq_bool_neq in H
         end.

(** Replaces [t] by a variable constrained by the two cases of [spec]. *)
Ltac q_abstract t spec :=
  let H := fresh in
  let m := fresh "m" in
  pose proof spec as H; set (m := t) in *; clearbody m;
  destruct H as [[? ?]|[? ?]].

Ltac q_minmax :=
  repeat match goal with
         | |- context [Qabs ?x] => q_abstract (Qabs x) (Qabs_spec x)
         | H : context [Qabs ?x] |- _ => q_abstract (Qabs x) (Qabs_spec x)
         | |- context [Qmin ?x ?y] => q_abstract (Qmin x y) (Q.min_spec x y)
         | H : context [Qmin ?x ?y] |- _ =>
             q_abstract (Qmin x y) (Q.min_spec x y)
         | |- context [Qmax ?x ?y] => q_abstract (Qmax x y) (Q.max_spec x y)
         | H : context [Qmax ?x ?y] |- _ =>
             q_abstract (Qmax x y) (Q.max_spec x y)
         end.

(** The arithmetic of the update on finite numbers: [a] is the absolute
    proposed discount, [fd] the discount kept and [fr] the rate written. *)
Lemma rate_core (b r a : Q) :
  (0 <= a)%Q ->
  let maxDiscount := max (Fin b) (Fin 0) in
  let bd := if gt (Fin a) maxDiscount then maxDiscount else Fin a in
  let discountedRate := max (sub (Fin b) bd) (Fin 0) in
  let eff0 := min (Fin r) (Fin b) in
  let eff := if lt discountedRate eff0 then discountedRate else eff0 in
  exists fr fd,
    eff = Fin fr /\ abs bd = Fin fd /\
    (fd == Qmin a (Qmax b 0))%Q /\
    (fr == Qmin (Qmin r b) (Qmax (b - fd) 0))%Q.
Proof.
  intros Ha. cbv zeta. unfold gt, sub.
  rewrite !max_Fin, !min_Fin.
  destruct (Qle_bool b 0) eqn:E1; cbn [lt neg add];
  destruct (Qle_bool a _) eqn:E2; cbn [negb neg add abs];
  rewrite ?max_Fin, ?min_Fin; cbn [lt];
  repeat match goal with
         | |- context [Qle_bool ?x ?y] => destruct (Qle_bool x y) eqn:?
         end;
  cbn [negb]; eexists; eexists; (split; [reflexivity|]);
  (split; [reflexivity|]); q_bools; split; q_minmax; lra.
Qed.

Lemma abs_proposed d :
  exists a, abs (parseFloat (or_ (VNum (Fin d)) (vnum 0))) = Fin a /\
            (a == Qabs d)%Q /\ (0 <= a)%Q.
Proof.
  unfold or_. cbn [truthy]. destruct (Qeq_bool d 0) eqn:E; cbn [negb].
  - exists (Qabs 0). split; [reflexivity|]. apply Qeq_bool_iff in E.
    split; [by rewrite E|apply Qabs_nonneg].
  - exists (Qabs d). split; [reflexivity|].
    split; [reflexivity|apply Qabs_nonneg].
Qed.

Lemma parseOptionalFloat_finite `{Host} v n :
  parseOptionalFloat v = Some n -> exists q, n = Fin q.
Proof.
  unfold parseOptionalFloat. destruct (parseFloat v); simpl; try done.
  intros [= <-]. eauto.
Qed.

Lemma first_finite_finite `{Host} l n :
  first_finite l = Some n -> exists q, n = Fin q.
Proof.
  unfold first_finite. induction l as [|v l IH]; simpl; [done|].
  destruct (parseOptionalFloat v) as [m|] eqn:E; simpl.
  - intros [= <-]. eapply parseOptionalFloat_finite; eauto.
  - exact IH.
Qed.

Lemma resolveBaseRate_finite `{Host} item : exists b, _resolveBaseRate item = Fin b.
Proof.
  unfold _resolveBaseRate.
  destruct (first_finite _) as [n|] eqn:E; simpl; [|eauto].
  eapply first_finite_finite; eauto.
Qed.

Lemma round_finite `{Host} v : exists q, round v = Fin q.
Proof.
  unfold round. cbv zeta.
  destruct (parseFloat (or_ v (vnum 0))) as [x| | |]; cbn [isFinite negb];
    eauto.
Qed.

Lemma evaluate_finite `{Host} a :
  exists r d, rate (pricing (evaluatePricingRules a)) = Fin r /\
              discountPerUnit (pricing (evaluatePricingRules a)) = Fin d.
Proof.
  unfold evaluatePricingRules. cbv zeta.
  destruct (pricingRules_of a) as [|rule rules].
  - destruct (round_finite (VNum (startRate_of a))) as [q Hq].
    simpl. rewrite Hq. eauto.
  - destruct (apply_chain _ _ _ _ _) as [rt ap]. simpl.
    destruct (round_finite (VNum rt)) as [q Hq].
    destruct (round_finite (VNum (sub (startRate_of a) rt))) as [q' Hq'].
    rewrite Hq, Hq'. eauto.
Qed.

Lemma apply_rate_update_values `{Host} this item p b sq r d :
  rate p = Fin r -> discountPerUnit p = Fin d ->
  exists fr fd,
    get (apply_rate_update this item p (Fin b) sq) "base_rate" = VNum (Fin fr) /\
    get (apply_rate_update this item p (Fin b) sq) "base_discount_amount" =
      VNum (Fin fd) /\
    get (apply_rate_update this item p (Fin b) sq) "base_price_list_rate" =
      VNum (Fin b) /\
    (fd == Qmin (Qabs d) (Qmax b 0))%Q /\
    (fr == Qmin (Qmin r b) (Qmax (b - fd) 0))%Q.
Proof.
  intros Hr Hd. unfold apply_rate_update. cbv zeta. rewrite Hr, Hd.
  cbn [isFinite].
  destruct (abs_proposed d) as (a & Ha & Haq & Ha0). rewrite Ha.
  cbn [isFinite negb].
  destruct (rate_core b r a Ha0) as (fr & fd & He & Hfd & Hq1 & Hq2).
  cbv zeta in He, Hfd.
  exists fr, fd.
  repeat first [ rewrite get_insert_eq | rewrite get_insert_ne by done ].
  rewrite He, Hfd. repeat split; auto.
  by rewrite Hq1, Haq.
Qed.

Lemma applyPricingToLine_rate_counterexample :
  ~ final_rate_as_stated test_component margin_item ∅ margin_indexes
  /\ get (fst (_applyPricingToLine test_component margin_item ∅ margin_indexes
                 [])) "base_rate" = VNum (Fin (90000000 # 1000000))
  /\ rate (pricing (evaluatePricingRules
                      (line_args margin_item ∅ margin_indexes))) =
     Fin (110000000 # 1000000).
Proof.
  split; [|split].
  - unfold final_rate_as_stated. vm_compute. discriminate.
  - vm_compute. reflexivity.
  - vm_compute. reflexivity.
Qed.

(** C4 (amended): for a line that is not price-locked, not
    promotion-applied and not manually overridden (and whose quantities are
    not both 0), [_applyPricingToLine] stores as base discount per unit the
    absolute value of the proposed discount clamped into [0, max(baseline,
    0)], and writes as base rate the smallest of the proposed rate, the
    baseline and max(baseline - that discount, 0); the rate written never
    exceeds the baseline. *)
Theorem applyPricingToLine_rate `{Host} (this : Component) (item ctx : obj)
  (indexes : IndexBundle) (fm : smap) :
  allowRateUpdate_of item = true ->
  eqb (docQty_of item) (Fin 0) && eqb (pricingQty_of item) (Fin 0) = false ->
  let p := pricing (evaluatePricingRules (line_args item ctx indexes)) in
  let item' := fst (_applyPricingToLine this item ctx indexes fm) in
  exists b r d fr fd,
    _resolveBaseRate item = Fin b /\
    rate p = Fin r /\ discountPerUnit p = Fin d /\
    get item' "base_rate" = VNum (Fin fr) /\
    get item' "base_discount_amount" = VNum (Fin fd) /\
    (fd == Qmin (Qabs d) (Qmax b 0))%Q /\
    (fr == Qmin (Qmin r b) (Qmax (b - fd) 0))%Q /\
    (fr <= b)%Q /\ (0 <= fd)%Q /\ (fd <= Qmax b 0)%Q.
Proof.
  intros Hallow Hqty p item'.
  destruct (resolveBaseRate_finite item) as [b Hb].
  destruct (evaluate_finite (line_args item ctx indexes)) as (r & d & Hr & Hd).
  subst p item'. unfold _applyPricingToLine. cbv zeta.
  rewrite Hqty, Hallow, Hb. cbn [fst].
  destruct (apply_rate_update_values this
              (_updatePricingBadge item
                 (applied (pricing (evaluatePricingRules
                                      (line_args item ctx indexes)))))
              _ b (signedDocQty_of item) r d Hr Hd)
    as (fr & fd & G1 & G2 & _ & Q1 & Q2).
  exists b, r, d, fr, fd. rewrite G1, G2.
  repeat split; auto.
  - rewrite Q2. q_minmax; lra.
  - rewrite Q1. q_minmax; lra.
  - rewrite Q1. q_minmax; lra.
Qed.

Lemma applyPricingToLine_rate_witness :
  exists b r d fr fd,
    _resolveBaseRate margin_item = Fin b /\
    rate (pricing (evaluatePricingRules
                     (line_args margin_item ∅ margin_indexes))) = Fin r /\
    discountPerUnit (pricing (evaluatePricingRules
                     (line_args margin_item ∅ margin_indexes))) = Fin d /\
    get (fst (_applyPricingToLine test_component margin_item ∅ margin_indexes
                []))
        "base_rate" = VNum (Fin fr) /\
    get (fst (_applyPricingToLine test_component margin_item ∅ margin_indexes
                []))
        "base_discount_amount" = VNum (Fin fd) /\
    (fd == Qmin (Qabs d) (Qmax b 0))%Q /\
    (fr == Qmin (Qmin r b) (Qmax (b - fd) 0))%Q /\
    (fr <= b)%Q /\ (0 <= fd)%Q /\ (fd <= Qmax b 0)%Q.
Proof.
  apply (applyPricingToLine_rate test_component margin_item ∅ margin_indexes []);
    reflexivity.
Defined.

(** ** The same-item-freebie guard *)

Lemma Qeq_bool_sym x y : Qeq_bool x y = Qeq_bool y x.
Proof.
  destruct (Qeq_bool x y) eqn:E1, (Qeq_bool y x) eqn:E2; try done.
  - apply Qeq_bool_iff in E1. symmetry in E1. apply Qeq_bool_iff in E1.
    congruence.
  - apply Qeq_bool_iff in E2. symmetry in E2. apply Qeq_bool_iff in E2.
    congruence.
Qed.

Lemma same_value_zero_sym a b : same_value_zero a b = same_value_zero b a.
Proof.
  destruct a as [| |x|[x| | |]|x|x|x], b as [| |y|[y| | |]|y|y|y]; simpl;
    try done.
  - by destruct x, y.
  - apply Qeq_bool_sym.
  - apply String.eqb_sym.
Qed.

Lemma svz_sym a b : svz a b -> svz b a.
Proof. unfold svz. by rewrite same_value_zero_sym. Qed.

Lemma svz_trans a b c : svz a b -> svz b c -> svz a c.
Proof.
  unfold svz.
  destruct a as [| |x|[x| | |]|x|x|x], b as [| |y|[y| | |]|y|y|y]; simpl;
    try done;
    destruct c as [| |z|[z| | |]|z|z|z]; simpl; try done.
  - intros ->%Bool.eqb_prop. done.
  - rewrite !Qeq_bool_iff. intros -> ->. reflexivity.
  - intros ->%String.eqb_eq. done.
Qed.

Lemma svz_truthy a b : svz a b -> truthy a = truthy b.
Proof.
  unfold svz.
  destruct a as [| |x|[x| | |]|x|x|x], b as [| |y|[y| | |]|y|y|y]; simpl;
    try done.
  - by intros ->%Bool.eqb_prop.
  - intros E%Qeq_bool_iff.
    destruct (Qeq_bool x 0) eqn:Ex, (Qeq_bool y 0) eqn:Ey; try done.
    + apply Qeq_bool_iff in Ex. rewrite E in Ex. apply Qeq_bool_iff in Ex.
      congruence.
    + apply Qeq_bool_iff in Ey. rewrite <- E in Ey. apply Qeq_bool_iff in Ey.
      congruence.
  - by intros ->%String.eqb_eq.
Qed.

(** Keys that are the same select the same entries. *)
Lemma svz_match k k' x :
  svz k k' -> same_value_zero x k = same_value_zero x k'.
Proof.
  intros Hk.
  destruct (same_value_zero x k) eqn:E1, (same_value_zero x k') eqn:E2;
    try done.
  - assert (svz x k') by (eapply svz_trans; eauto). congruence.
  - assert (svz x k) by (eapply svz_trans; [exact E2|by apply svz_sym]).
    congruence.
Qed.

Lemma vmap_get_svz {A} (m : list (value * A)) k k' :
  svz k k' -> vmap_get m k = vmap_get m k'.
Proof.
  intros Hk. unfold vmap_get. f_equal.
  induction m as [|[x v] m IH]; simpl; [done|].
  rewrite (svz_match k k' x Hk). by rewrite IH.
Qed.

Lemma vmap_get_set_same {A} (m : list (value * A)) k k' v :
  svz k k' -> vmap_get (vmap_set m k v) k' = Some v.
Proof.
  intros Hk. unfold vmap_get.
  induction m as [|[x w] m IH]; simpl.
  - by rewrite Hk.
  - destruct (same_value_zero x k) eqn:E; simpl.
    + rewrite <- (svz_match k k' x Hk), E. done.
    + rewrite <- (svz_match k k' x Hk), E. exact IH.
Qed.

Lemma vmap_get_set_other {A} (m : list (value * A)) k k' v :
  ~ svz k k' -> vmap_get (vmap_set m k v) k' = vmap_get m k'.
Proof.
  intros Hk. unfold vmap_get.
  induction m as [|[x w] m IH]; simpl.
  - destruct (same_value_zero k k') eqn:E; [done|done].
  - destruct (same_value_zero x k) eqn:E; simpl.
    + destruct (same_value_zero x k') eqn:E'; [|done].
      exfalso. apply Hk. eapply svz_trans; [|exact E']. by apply svz_sym.
    + destruct (same_value_zero x k'); [done|]. exact IH.
Qed.

Lemma set_has_add_mono s v x :
  set_has s x = true -> set_has (set_add s v) x = true.
Proof.
  intros Hx. unfold set_add. destruct (set_has s v); [done|].
  unfold set_has in *. rewrite existsb_app, Hx. done.
Qed.

Lemma set_has_add_same s v x : svz x v -> set_has (set_add s v) x = true.
Proof.
  intros Hxv. unfold set_add. destruct (set_has s v) eqn:E.
  - unfold set_has in *. apply existsb_exists in E as (y & Hy & Hvy).
    apply existsb_exists. exists y. split; [done|].
    eapply svz_trans; eauto.
  - unfold set_has. rewrite existsb_app. simpl. rewrite Hxv.
    by rewrite orb_true_r.
Qed.

Lemma hasSameItemFree_iff idx item targetId :
  hasSameItemFree_of idx item targetId = true <->
  (truthy (parentKey_of item targetId) = true /\
   exists codes,
     vmap_get (sameItemFreeParents idx) (parentKey_of item targetId) = Some codes
     /\ set_has codes (get item "item_code") = true)
  \/ set_has (sameItemFreeCodes idx) (get item "item_code") = true.
Proof.
  unfold hasSameItemFree_of. fold (parentKey_of item targetId). cbv zeta.
  destruct (truthy (parentKey_of item targetId)).
  - destruct (vmap_get _ _) as [codes|].
    + destruct (set_has codes _) eqn:E1; simpl.
      * split; [|done]. intros _. left. split; [done|]. eauto.
      * destruct (set_has (sameItemFreeCodes idx) _) eqn:E2.
        -- split; [by right|done].
        -- split; [done|]. intros [(_ & c & [= <-] & Hc)|?]; congruence.
    + simpl. destruct (set_has (sameItemFreeCodes idx) _) eqn:E2.
      * split; [by right|done].
      * split; [done|]. intros [(_ & c & ? & _)|?]; congruence.
  - simpl. destruct (set_has (sameItemFreeCodes idx) _) eqn:E2.
    + split; [by right|done].
    + split; [done|]. intros [(? & _)|?]; congruence.
Qed.

Section Guard.
Context `{Host}.
Variable this : Component.
Variable snapshots : gmap string obj.

Lemma register_server_free_keeps acc entry item targetId :
  hasSameItemFree_of (snd acc) item targetId = true ->
  hasSameItemFree_of (snd (register_server_free snapshots acc entry))
                     item targetId = true.
Proof.
  destruct acc as [fm idx]. unfold register_server_free. cbn [snd].
  destruct (negb (truthy entry) || negb (truthy (prop entry "item_code")));
    [done|].
  cbv zeta. cbn [snd].
  destruct (fe_sameItem _); [|done].
  rewrite !hasSameItemFree_iff.
  destruct (truthy (fe_parent _)) eqn:Hp; cbn [sameItemFreeParents sameItemFreeCodes].
  - intros [(Hk & codes & Hget & Hhas)|Hc]; [|by right]. left. split; [done|].
    set (p := fe_parent (resolve_free_entry snapshots entry)) in *.
    destruct (same_value_zero p (parentKey_of item targetId)) eqn:E.
    + eexists. split; [by apply vmap_get_set_same|].
      apply set_has_add_mono.
      rewrite (vmap_get_svz _ _ _ E), Hget. done.
    + exists codes. split; [|done].
      rewrite vmap_get_set_other; [done|]. unfold svz. congruence.
  - intros [Hl|Hc]; [by left|]. right. by apply set_has_add_mono.
Qed.

Lemma register_server_free_adds acc entry item targetId :
  same_item_freebie_of snapshots entry item targetId ->
  hasSameItemFree_of (snd (register_server_free snapshots acc entry))
                     item targetId = true.
Proof.
  intros (He & Hc & Hs & Hcode & Hpar).
  destruct acc as [fm idx]. unfold register_server_free.
  rewrite He, Hc. cbn [negb orb]. cbv zeta. rewrite Hs. cbn [snd].
  apply hasSameItemFree_iff.
  destruct Hpar as [Hnone|Hsame].
  - rewrite Hnone. cbn [sameItemFreeCodes]. right. by apply set_has_add_same.
  - destruct (truthy (fe_parent _)) eqn:Hp; cbn [sameItemFreeParents sameItemFreeCodes].
    + left. split; [by rewrite <- (svz_truthy _ _ Hsame)|].
      eexists. split; [by apply vmap_get_set_same|].
      by apply set_has_add_same.
    + right. by apply set_has_add_same.
Qed.

Lemma register_all_keeps serverFree acc item targetId :
  hasSameItemFree_of (snd acc) item targetId = true ->
  hasSameItemFree_of
    (snd (fold_left (register_server_free snapshots) serverFree acc))
    item targetId = true.
Proof.
  revert acc. induction serverFree as [|e l IH]; intros acc Hacc; simpl;
    [done|].
  apply IH. by apply register_server_free_keeps.
Qed.

Lemma register_all_adds serverFree acc entry item targetId :
  entry ∈ serverFree ->
  same_item_freebie_of snapshots entry item targetId ->
  hasSameItemFree_of
    (snd (fold_left (register_server_free snapshots) serverFree acc))
    item targetId = true.
Proof.
  intros Hin Hfree. revert acc.
  induction serverFree as [|e l IH]; intros acc; simpl.
  - by apply elem_of_nil in Hin.
  - apply elem_of_cons in Hin as [<-|Hin].
    + apply register_all_keeps. by apply register_server_free_adds.
    + by apply IH.
Qed.

End Guard.

Lemma if_false_andb (c x : bool) : (if c then x else false) = c && x.
Proof. by destruct c. Qed.

Lemma same_item_guard_eq this idx item targetId p :
  same_item_guard this idx item targetId p =
  hasSameItemFree_of idx item targetId &&
  gt (original_base this (get item "base_rate") (get item "rate")) (Fin 0) &&
  zeroed_or_full_discount this item p.
Proof.
  unfold same_item_guard, zeroed_or_full_discount. cbv zeta.
  rewrite !if_false_andb.
  repeat match goal with
         | |- context [isFinite ?x] => generalize (isFinite x); intro
         | |- context [le ?x ?y] => generalize (le x y); intro
         | |- context [gt ?x ?y] => generalize (gt x y); intro
         | |- context [ge ?x ?y] => generalize (ge x y); intro
         | |- context [hasSameItemFree_of ?x ?y ?z] =>
             generalize (hasSameItemFree_of x y z); intro
         end.
  btauto.
Qed.

Lemma same_item_guard_counterexample :
  same_item_freebie_of ∅ same_item_free_entry unlisted_paid (vstr "ROW-3")
  /\ gt (original_base test_component (get unlisted_paid "base_rate")
                       (get unlisted_paid "rate")) (Fin 0) = true
  /\ p_baseRate (proposal_of all_zero_update unlisted_paid) = Fin 0
  /\ p_basePriceListRate (proposal_of all_zero_update unlisted_paid) = Fin 0
  /\ p_baseDiscount (proposal_of all_zero_update unlisted_paid) = Fin 0
  /\ get unlisted_paid "base_rate" = vnum 50
  /\ map (fun l => get (snd l) "base_rate")
         (List.filter is_paid_line
            (items (_applyServerPricingRules test_component server_ctx
                      all_zero_message unlisted_cart))) = [vnum 0].
Proof.
  repeat split; vm_compute; try reflexivity. by right.
Qed.

(** C2 (amended): when the reply contains a same-item freebie of a paid
    line (matched by the parent row it resolves to, or by item code when it
    resolves to none), the original base rate of the line is positive, and
    the update proposes no rate under a positive price-list rate, or drops
    a price-list rate or a discount the line has, or amounts to a full
    discount (or the line is already discounted in full), then the update
    is not applied: every field of the line other than its badge keeps its
    value. *)
Theorem same_item_guard_retains `{Host} (this : Component)
  (snapshots : gmap string obj) (serverFree : list value) (entry update : value)
  (item : obj) (k : string) :
  entry ∈ serverFree ->
  same_item_freebie_of snapshots entry item (prop update "row_id") ->
  gt (original_base this (get item "base_rate") (get item "rate")) (Fin 0)
    = true ->
  zeroed_or_full_discount this item (proposal_of update item) = true ->
  k ∉ badge_keys ->
  get (apply_update_to this
         (snd (fold_left (register_server_free snapshots) serverFree
                 ([], no_same_item)))
         update item) k = get item k.
Proof.
  intros Hin Hfree Hrate Hzero Hk.
  unfold apply_update_to, allowServerRateUpdate_of. cbv zeta.
  rewrite same_item_guard_eq, Hrate, Hzero.
  rewrite (register_all_adds snapshots serverFree _ entry item _ Hin Hfree).
  cbn [andb negb].
  rewrite if_false_andb, andb_false_r.
  by apply updatePricingBadge_frame.
Qed.

Lemma same_item_guard_retains_witness :
  get (apply_update_to test_component
         (snd (fold_left (register_server_free ∅) [same_item_free_entry]
                 ([], no_same_item)))
         same_item_update same_item_paid) "base_rate" = vnum 50.
Proof.
  refine (same_item_guard_retains test_component ∅ [same_item_free_entry]
            same_item_free_entry same_item_update same_item_paid "base_rate"
            _ _ _ _ _).
  - apply list_elem_of_singleton. reflexivity.
  - repeat split; vm_compute; try reflexivity. by right.
  - reflexivity.
  - reflexivity.
  - lit_mem.
Defined.

(** ** The rule ordering *)

Lemma or_zero_typed v :
  numeric_or_absent v ->
  exists q, or_ v (vnum 0) = VNum (Fin q) /\ (q == qkey v)%Q.
Proof.
  intros [->|[->|[q ->]]]; unfold or_; cbn [truthy qkey].
  - exists 0%Q. split; reflexivity.
  - exists 0%Q. split; reflexivity.
  - destruct (Qeq_bool q 0) eqn:E; cbn [negb].
    + exists 0%Q. split; [reflexivity|].
      apply Qeq_bool_iff in E. by rewrite E.
    + exists q. split; reflexivity.
Qed.

Section RuleOrder.
Context `{Host}.

Lemma abs_or_zero_typed v :
  numeric_or_absent v ->
  exists q, abs (to_number (or_ v (vnum 0))) = Fin q /\ (q == Qabs (qkey v))%Q.
Proof.
  intros Hv. destruct (or_zero_typed v Hv) as (q & -> & Hq).
  exists (Qabs q). split; [reflexivity|]. by rewrite Hq.
Qed.

Lemma max_Fin_Qmax x y : exists m, max (Fin x) (Fin y) = Fin m /\ (m == Qmax x y)%Q.
Proof.
  rewrite max_Fin. eexists. split; [reflexivity|].
  destruct (Qle_bool x y) eqn:E.
  - apply Qle_bool_iff in E. symmetry. by apply Q.max_r.
  - apply Qle_bool_false in E. symmetry. apply Q.max_l. by apply Qlt_le_weak.
Qed.

Lemma ruleBenefitScore_typed r :
  rule_typed r ->
  exists s, ruleBenefitScore r = Fin s /\ (s == rule_benefit r)%Q.
Proof.
  intros (_ & _ & _ & Hd & Hm & Hf & Hu). unfold ruleBenefitScore. cbv zeta.
  destruct (abs_or_zero_typed _ Hd) as (d & -> & Ed).
  destruct (abs_or_zero_typed _ Hm) as (m & -> & Em).
  destruct (abs_or_zero_typed _ Hf) as (f & -> & Ef).
  destruct (abs_or_zero_typed _ Hu) as (u & -> & Eu).
  unfold max3. cbn [add].
  destruct (max_Fin_Qmax d m) as (x & -> & Ex).
  destruct (max_Fin_Qmax x (f + u)) as (y & -> & Ey).
  exists y. split; [done|].
  unfold rule_benefit. by rewrite Ey, Ex, Ed, Em, Ef, Eu.
Qed.

Lemma rule_name_typed r :
  rule_typed r -> to_string (or_ (get r "name") (vstr "")) = rule_name r.
Proof.
  intros ((s & Hs) & _). unfold rule_name, or_. rewrite Hs. cbn [truthy].
  destruct (String.eqb s "") eqn:E; cbn [negb to_string]; [|done].
  apply String.eqb_eq in E. by subst s.
Qed.

(** The value of the comparator on typed rules: the first difference that
    is not zero, read off the specification's keys. *)
Lemma ruleSort_typed a b :
  rule_typed a -> rule_typed b ->
  exists z, ruleSort a b = Fin z /\
    ((~ (rule_specificity b == rule_specificity a)%Q /\
      (z == rule_specificity b - rule_specificity a)%Q) \/
     ((rule_specificity b == rule_specificity a)%Q /\
      ((~ (rule_priority b == rule_priority a)%Q /\
        (z == rule_priority b - rule_priority a)%Q) \/
       ((rule_priority b == rule_priority a)%Q /\
        ((~ (rule_benefit b == rule_benefit a)%Q /\
          (z == rule_benefit b - rule_benefit a)%Q) \/
         ((rule_benefit b == rule_benefit a)%Q /\
          z = inject_Z (localeCompare (rule_name a) (rule_name b)))))))).
Proof.
  intros Ha Hb. unfold ruleSort. cbv zeta.
  pose proof Ha as (Hna & Hsa & Hpa & Hrest_a).
  pose proof Hb as (Hnb & Hsb & Hpb & Hrest_b).
  destruct (or_zero_typed _ Hsa) as (sa & -> & Esa).
  destruct (or_zero_typed _ Hsb) as (sb & -> & Esb).
  destruct (or_zero_typed _ Hpa) as (pa & -> & Epa).
  destruct (or_zero_typed _ Hpb) as (pb & -> & Epb).
  fold (rule_specificity a) in Esa. fold (rule_specificity b) in Esb.
  fold (rule_priority a) in Epa. fold (rule_priority b) in Epb.
  cbn [strict_eq eqb to_number sub neg add].
  destruct (Qeq_bool sb sa) eqn:E1; cbn [negb].
  2: { eexists. split; [reflexivity|]. left. apply Qeq_bool_neq in E1.
       rewrite <- Esa, <- Esb. split; [done|]. unfold Qminus. reflexivity. }
  apply Qeq_bool_iff in E1.
  destruct (Qeq_bool pb pa) eqn:E2; cbn [negb].
  2: { eexists. split; [reflexivity|]. right. rewrite <- Esa, <- Esb.
       split; [done|]. left. apply Qeq_bool_neq in E2.
       rewrite <- Epa, <- Epb. split; [done|]. unfold Qminus. reflexivity. }
  apply Qeq_bool_iff in E2.
  destruct (ruleBenefitScore_typed a) as (ba & -> & Eba); [done|].
  destruct (ruleBenefitScore_typed b) as (bb & -> & Ebb); [done|].
  cbn [sub neg add eqb].
  destruct (Qeq_bool (bb + - ba) 0) eqn:E3; cbn [negb].
  - apply Qeq_bool_iff in E3.
    rewrite !rule_name_typed by done.
    eexists. split; [reflexivity|]. right. rewrite <- Esa, <- Esb.
    split; [done|]. right. rewrite <- Epa, <- Epb. split; [done|]. right.
    split; [|reflexivity]. rewrite <- Eba, <- Ebb. lra.
  - apply Qeq_bool_neq in E3.
    eexists. split; [reflexivity|]. right. rewrite <- Esa, <- Esb.
    split; [done|]. right. rewrite <- Epa, <- Epb. split; [done|]. left.
    rewrite <- Eba, <- Ebb. split; [lra|]. unfold Qminus. reflexivity.
Qed.

End RuleOrder.

Section RuleOrderLaws.
Context `{Host} `{!CollationLaws}.

Lemma collate_refl s : localeCompare s s = 0%Z.
Proof.
  pose proof (collate_antisym s s) as Hs. lia.
Qed.

(** Closes a goal by linear arithmetic, or by contradicting one of the
    disequalities among the hypotheses. *)
Ltac q_order :=
  first
    [ lra
    | exfalso;
      match goal with
      | Hne : ~ (_ == _)%Q |- _ => apply Hne; lra
      end ].

Lemma inject_Z_neg z : (inject_Z z < 0)%Q <-> (z < 0)%Z.
Proof. change 0%Q with (inject_Z 0). by rewrite <- Zlt_Qlt. Qed.

Lemma inject_Z_pos z : (0 < inject_Z z)%Q <-> (0 < z)%Z.
Proof. change 0%Q with (inject_Z 0). by rewrite <- Zlt_Qlt. Qed.

Lemma inject_Z_zero z : (inject_Z z == 0)%Q <-> z = 0%Z.
Proof. apply (inject_Z_injective z 0). Qed.

(** The sign of the comparator is the order of the specification. *)
Lemma ruleSort_sign a b :
  rule_typed a -> rule_typed b ->
  exists z, ruleSort a b = Fin z /\
    ((z < 0)%Q <-> rule_before a b) /\
    ((0 < z)%Q <-> rule_before b a) /\
    ((z == 0)%Q -> rule_name a = rule_name b).
Proof.
  intros Ha Hb. destruct (ruleSort_typed a b Ha Hb) as (z & Hz & Hcases).
  exists z. split; [done|]. unfold rule_before.
  destruct Hcases as [[N1 E1]|[S1 [[N2 E2]|[S2 [[N3 E3]|[S3 E3]]]]]].
  - repeat split.
    + intros Hlt. left. lra.
    + intros [?|[? _]]; q_order.
    + intros Hlt. left. lra.
    + intros [?|[? _]]; q_order.
    + intros Hz0. q_order.
  - repeat split.
    + intros Hlt. right. split; [lra|]. left. lra.
    + intros [?|[_ [?|[? _]]]]; q_order.
    + intros Hlt. right. split; [lra|]. left. lra.
    + intros [?|[_ [?|[? _]]]]; q_order.
    + intros Hz0. q_order.
  - repeat split.
    + intros Hlt. right. split; [lra|]. right. split; [lra|]. left. lra.
    + intros [?|[_ [?|[_ [?|[? _]]]]]]; q_order.
    + intros Hlt. right. split; [lra|]. right. split; [lra|]. left. lra.
    + intros [?|[_ [?|[_ [?|[? _]]]]]]; q_order.
    + intros Hz0. q_order.
  - subst z. repeat split.
    + intros Hlt. pose proof (proj1 (inject_Z_neg _) Hlt) as Hlt'.
      right. split; [lra|]. right. split; [lra|]. right. split; [lra|done].
    + intros [?|[_ [?|[_ [?|[_ Hlt]]]]]]; try q_order.
      by apply (proj2 (inject_Z_neg _)).
    + intros Hlt. pose proof (proj1 (inject_Z_pos _) Hlt) as Hlt'.
      right. split; [lra|]. right. split; [lra|]. right. split; [lra|].
      by apply collate_antisym.
    + intros [?|[_ [?|[_ [?|[_ Hlt]]]]]]; try q_order.
      apply (proj2 (inject_Z_pos _)). by apply collate_antisym.
    + intros Hz0. apply collate_eq. by apply (proj1 (inject_Z_zero _)).
Qed.

Lemma rule_before_trans a b c :
  rule_before a b -> rule_before b c -> rule_before a c.
Proof.
  unfold rule_before.
  intros [?|[? [?|[? [?|[? Hab]]]]]] [?|[? [?|[? [?|[? Hbc]]]]]];
    try (left; lra);
    try (right; split; [lra|]; left; lra);
    try (right; split; [lra|]; right; split; [lra|]; left; lra).
  right. split; [lra|]. right. split; [lra|]. right. split; [lra|].
  eapply collate_trans; eauto.
Qed.

End RuleOrderLaws.

(** Collation by code units satisfies the laws. *)
#[export] Instance codeunit_collation : @CollationLaws codeunit_host.
Proof.
  split; simpl.
  - intros a b Hc. apply String_as_OT.cmp_eq.
    destruct (String_as_OT.cmp a b); done.
  - intros a b. rewrite (String_as_OT.cmp_antisym b a).
    destruct (String_as_OT.cmp a b); simpl; lia.
  - intros a b c Hab Hbc.
    assert (String_as_OT.cmp a b = Lt) as Hab'
      by (destruct (String_as_OT.cmp a b); simpl in *; done || lia).
    assert (String_as_OT.cmp b c = Lt) as Hbc'
      by (destruct (String_as_OT.cmp b c); simpl in *; done || lia).
    apply String_as_OT.cmp_lt in Hab', Hbc'.
    pose proof (String_as_OT.lt_trans _ _ _ Hab' Hbc') as Hac.
    apply String_as_OT.cmp_lt in Hac. rewrite Hac. done.
Qed.



(** ** The free-line synchroniser *)

(** *** The removal pass *)

Section Removal.
Variable expectedKeys : list string.

Lemma remove_pass (its prefix : list line) (c : Cart) :
  items c = prefix ++ its ->
  let c' :=
    fold_left remove_at
      (rev (removable_from expectedKeys (length prefix) its)) c in
  items c' = prefix ++ List.filter (kept expectedKeys) its /\
  next_oid c' = next_oid c /\
  packed_pruned expectedKeys its (packed_items c) (packed_items c').
Proof.
  revert prefix c.
  induction its as [|l its IH]; intros prefix c Hc; cbv zeta; simpl.
  - repeat split; auto.
    intros l p Hl. by apply elem_of_nil in Hl.
  - assert (items c = (prefix ++ [l]) ++ its) as Hc'
        by (by rewrite <- app_assoc).
    specialize (IH (prefix ++ [l]) c Hc').
    rewrite length_app in IH. simpl in IH.
    replace (length prefix + 1)%nat with (S (length prefix)) in IH by lia.
    cbv zeta in IH. destruct IH as (Hit & Hnext & Hsub & Hbundle).
    unfold kept at 1. destruct (stale_line expectedKeys l) eqn:Hst; simpl.
    + rewrite fold_left_app. simpl.
      set (c1 := fold_left remove_at _ c) in *.
      assert (items c1 !! length prefix = Some l) as Hlook.
      { rewrite Hit, <- app_assoc. simpl.
        rewrite lookup_app_r by lia. by rewrite Nat.sub_diag. }
      unfold remove_at at 1 2 3. rewrite Hlook.
      cbn [items next_oid packed_items].
      split; [|split; [done|]].
      * unfold splice_out. rewrite Hit. f_equal.
        -- rewrite <- app_assoc. apply take_app_length.
        -- replace (S (length prefix)) with (length (prefix ++ [l]))
             by (rewrite length_app; simpl; lia).
           apply drop_app_length.
      * split.
        -- intros p Hp. apply Hsub.
           destruct (truthy (get (snd l) "bundle_id")); [|done].
           apply list_elem_of_In, filter_In in Hp as [Hp _].
           by apply list_elem_of_In.
        -- intros l' p [->|Hl']%elem_of_cons Hst' Hb Hp.
           ++ rewrite Hb in Hp.
              apply list_elem_of_In, filter_In in Hp as [_ Hp].
              by apply negb_true_iff in Hp.
           ++ eapply Hbundle; eauto.
              destruct (truthy (get (snd l) "bundle_id")); [|done].
              apply list_elem_of_In, filter_In in Hp as [Hp _].
              by apply list_elem_of_In.
    + split; [|split; [done|]].
      * rewrite Hit, <- app_assoc. done.
      * split; [done|].
        intros l' p [->|Hl']%elem_of_cons Hst' Hb Hp; [congruence|].
        eapply Hbundle; eauto.
Qed.

End Removal.

Section Sync.
Context `{Host}.
Variable this : Component.

Lemma syncAutoFreeLines_items c m :
  items (_syncAutoFreeLines this c m) =
    List.filter (kept (smap_keys m)) (items (st_cart (sync_loop this c m))) /\
  next_oid (_syncAutoFreeLines this c m) = next_oid (st_cart (sync_loop this c m)) /\
  packed_pruned (smap_keys m) (items (st_cart (sync_loop this c m)))
    (packed_items (st_cart (sync_loop this c m)))
    (packed_items (_syncAutoFreeLines this c m)).
Proof.
  unfold _syncAutoFreeLines, sync_loop.
  destruct (fold_left index_line (items c) (∅, [])) as [existing legacy].
  cbv zeta.
  set (st := fold_left (sync_entry this) m _).
  apply (remove_pass (smap_keys m) (items (st_cart st)) [] (st_cart st)).
  done.
Qed.

Lemma expected_has_key keys tag :
  expected_has keys tag = true <-> exists k, k ∈ keys /\ tag = VStr k.
Proof.
  unfold expected_has. destruct tag as [| | | |t| |];
    try (split; [done|intros (k & _ & ?); done]).
  rewrite existsb_exists. split.
  - intros (k & Hin & Heq). apply String.eqb_eq in Heq. subst k.
    exists t. split; [by apply list_elem_of_In|done].
  - intros (k & Hin & [= ->]). exists k.
    split; [by apply list_elem_of_In|apply String.eqb_refl].
Qed.

(** Every tagged line of the synchronised cart carries a key of the map. *)
Lemma syncAutoFreeLines_tags c m l :
  l ∈ items (_syncAutoFreeLines this c m) ->
  truthy (get (snd l) "auto_free_source") = true ->
  exists k, k ∈ smap_keys m /\ get (snd l) "auto_free_source" = VStr k.
Proof.
  intros Hl Htag.
  destruct (syncAutoFreeLines_items c m) as (Hit & _).
  rewrite Hit in Hl. apply list_elem_of_In, filter_In in Hl as [_ Hkept].
  unfold kept, stale_line in Hkept. rewrite Htag in Hkept. simpl in Hkept.
  apply negb_true_iff, negb_false_iff in Hkept.
  by apply expected_has_key.
Qed.

End Sync.

(** *** Lines as objects *)

Lemma update_line_fst oid f (its : list line) :
  map fst (update_line oid f its) = map fst its.
Proof.
  unfold update_line. induction its as [|l its IH]; simpl; [done|].
  rewrite IH. by destruct (fst l =? oid)%nat.
Qed.

Lemma update_line_other oid f (its : list line) l :
  l ∈ its -> fst l <> oid -> l ∈ update_line oid f its.
Proof.
  intros Hl Hne. unfold update_line. apply list_elem_of_fmap.
  exists l. split; [|done].
  destruct (Nat.eqb_spec (fst l) oid); [done|done].
Qed.

Lemma update_line_elem oid f (its : list line) l :
  l ∈ update_line oid f its ->
  exists o, (fst l, o) ∈ its /\
            snd l = if (fst l =? oid)%nat then f o else o.
Proof.
  unfold update_line. intros ([i o] & -> & Hin)%list_elem_of_fmap.
  exists o. cbn [fst].
  destruct (i =? oid)%nat eqn:E; cbn [fst snd]; rewrite ?E; split; done.
Qed.

Lemma update_line_same oid f (its : list line) o :
  (oid, o) ∈ its -> (oid, f o) ∈ update_line oid f its.
Proof.
  intros Hin. unfold update_line. apply list_elem_of_fmap.
  exists (oid, o). simpl. by rewrite Nat.eqb_refl.
Qed.

Lemma splice_in_elem {A} i (x : A) l y :
  y ∈ splice_in i x l <-> y = x \/ y ∈ l.
Proof.
  unfold splice_in. rewrite elem_of_app, elem_of_cons.
  rewrite <- (take_drop i l) at 3. rewrite elem_of_app. tauto.
Qed.

Lemma splice_in_perm {A} i (x : A) l : splice_in i x l ≡ₚ x :: l.
Proof.
  unfold splice_in. rewrite <- Permutation_middle. by rewrite take_drop.
Qed.

Lemma NoDup_fst_eq (its : list line) i o o' :
  NoDup (map fst its) -> (i, o) ∈ its -> (i, o') ∈ its -> o = o'.
Proof.
  induction its as [|l its IH]; simpl.
  - intros _ Hin. by apply elem_of_nil in Hin.
  - intros Hnd [E1|H1]%elem_of_cons [E2|H2]%elem_of_cons.
    + congruence.
    + exfalso. apply list.NoDup_cons in Hnd as [Hnot _]. apply Hnot.
      apply list_elem_of_fmap. exists (i, o'). split; [by subst l|done].
    + exfalso. apply list.NoDup_cons in Hnd as [Hnot _]. apply Hnot.
      apply list_elem_of_fmap. exists (i, o). split; [by subst l|done].
    + apply list.NoDup_cons in Hnd as [_ Hnd]. by apply IH.
Qed.

Lemma list_insert_elem {A} (l : list A) i x y :
  y ∈ <[i := x]> l -> y = x \/ y ∈ l.
Proof.
  revert i. induction l as [|z l IH]; intros i; simpl.
  - intros Hy. by right.
  - destruct i as [|i]; simpl.
    + intros [->|Hy]%elem_of_cons; [by left|].
      right. apply elem_of_cons. by right.
    + intros [->|Hy]%elem_of_cons.
      * right. apply elem_of_cons. by left.
      * destruct (IH _ Hy) as [->|Hin]; [by left|].
        right. apply elem_of_cons. by right.
Qed.

Section SyncInvariant.
Context `{Host}.
Variable this : Component.

(** *** The first pass *)

Lemma truthy_VStr k : truthy (VStr k) = true <-> k <> ""%string.
Proof.
  simpl. rewrite negb_true_iff. split.
  - intros Hf ->. done.
  - intros Hne. destruct (String.eqb_spec k ""); done.
Qed.

Lemma index_line_ok its acc l :
  index_ok its acc -> index_ok (its ++ [l]) (index_line acc l).
Proof.
  intros [He Hl].
  assert (index_ok (its ++ [l]) acc) as Hweak.
  { split.
    - intros k oid Hk. destruct (He k oid Hk) as (o & Hin & Ho).
      exists o. split; [apply elem_of_app; by left|done].
    - intros e Hin. destruct (Hl e Hin) as (Hu & o & Hino & Ho).
      split; [done|]. exists o. split; [apply elem_of_app; by left|done]. }
  destruct acc as [existing legacy]. destruct l as [oid o].
  unfold index_line. cbn [fst snd].
  destruct (truthy (get o "auto_free_source")) eqn:Htag.
  - destruct (get o "auto_free_source") as [| | | |tag| |] eqn:Eg; try done.
    split; cbn [fst snd]; [|apply Hweak].
    intros k oid' Hk. destruct (decide (tag = k)) as [->|Hne].
    + rewrite lookup_insert_eq in Hk. injection Hk as <-.
      exists o. split; [apply elem_of_app; right; by apply list_elem_of_singleton|].
      split; [done|]. by apply truthy_VStr.
    + rewrite lookup_insert_ne in Hk by done. by apply Hweak.
  - destruct (truthy (get o "is_free_item")); [|done].
    destruct (truthy (resolveRuleName o)); [|done].
    split; cbn [fst snd]; [apply Hweak|].
    intros e [Hin|Hin]%elem_of_app; [by apply Hweak|].
    apply list_elem_of_singleton in Hin. subst e. simpl. split; [done|].
    exists o. split; [apply elem_of_app; right; by apply list_elem_of_singleton|done].
Qed.

Lemma index_pass_ok_gen its pre acc :
  index_ok pre acc -> index_ok (pre ++ its) (fold_left index_line its acc).
Proof.
  revert pre acc. induction its as [|l its IH]; intros pre acc Hacc; simpl.
  - by rewrite app_nil_r.
  - replace (pre ++ l :: its) with ((pre ++ [l]) ++ its)
      by (by rewrite <- app_assoc).
    apply IH. by apply index_line_ok.
Qed.

Lemma index_pass_ok its : index_ok its (fold_left index_line its (∅, [])).
Proof.
  apply (index_pass_ok_gen its [] (∅, [])). split; simpl.
  - intros k oid Hk. by rewrite lookup_empty in Hk.
  - intros e He. by apply elem_of_nil in He.
Qed.

(** *** The loop over the map keeps stale lines as they are *)

Lemma stale_kept_update stale keys st oid f :
  stale_kept stale keys st ->
  oid ∉ map fst stale ->
  cart_wf (with_items (st_cart st) (update_line oid f (items (st_cart st)))) /\
  (forall l, l ∈ stale -> l ∈ update_line oid f (items (st_cart st))).
Proof.
  intros ((Hnd & Hlt) & Hin & _) Hoid. split.
  - split; simpl.
    + by rewrite update_line_fst.
    + intros o Ho. rewrite update_line_fst in Ho. by apply Hlt.
  - intros l Hl. apply update_line_other; [by apply Hin|].
    intros Heq. apply Hoid. apply list_elem_of_fmap. by exists l.
Qed.

Lemma sync_entry_stale_kept stale keys st key data :
  stale_kept stale keys st -> key ∈ keys ->
  stale_kept stale keys (sync_entry this st (key, data)).
Proof.
  intros Hinv Hkey. pose proof Hinv as ((Hnd & Hlt) & Hin & Hex & Hleg).
  unfold sync_entry.
  destruct (st_existing st !! key) as [oid|] eqn:Elook.
  - destruct (stale_kept_update stale keys st oid
                (fun l => applyFreeLineState this l data) Hinv) as [Hwf Hin'].
    { by eapply Hex. }
    repeat split; try done; apply Hwf.
  - destruct (findIndex _ (st_legacy st)) as [i|] eqn:Efind.
    + destruct (st_legacy st !! i) as [e|] eqn:Ei; [|done].
      assert (lg_line e ∉ map fst stale) as Hoid.
      { apply Hleg. by eapply list_elem_of_lookup_2. }
      match goal with
      | |- stale_kept _ _ {| st_cart := with_items _ (update_line _ ?f _);
                             st_existing := _; st_legacy := _ |} =>
          destruct (stale_kept_update stale keys st (lg_line e) f Hinv Hoid)
            as [Hwf Hin']
      end.
      split; [exact Hwf|]. split; [exact Hin'|]. split; cbn [st_existing st_legacy].
      * intros k oid Hk Hlook. destruct (decide (key = k)) as [->|Hne].
        -- rewrite lookup_insert_eq in Hlook. by injection Hlook as <-.
        -- rewrite lookup_insert_ne in Hlook by done. by eapply Hex.
      * intros e' [->|He']%list_insert_elem; [done|by apply Hleg].
    + cbn [st_cart st_existing st_legacy].
      set (oid := next_oid (st_cart st)).
      set (fl := new_free_line this (items (st_cart st)) oid key data).
      set (at_ := match findIndex _ (items (st_cart st)) with
                  | Some i => S i
                  | None => length (items (st_cart st))
                  end).
      assert (oid ∉ map fst (items (st_cart st))) as Hfresh.
      { intros Hm. apply Hlt in Hm. unfold oid in Hm. lia. }
      split; [|split; [|split; [exact Hex|exact Hleg]]].
      * split; cbn [st_cart items next_oid].
        -- rewrite update_line_fst.
           rewrite (fmap_Permutation fst _ _ (splice_in_perm _ _ _)).
           simpl. apply list.NoDup_cons. split; done.
        -- intros o Ho. rewrite update_line_fst in Ho.
           rewrite (fmap_Permutation fst _ _ (splice_in_perm _ _ _)) in Ho.
           simpl in Ho. apply elem_of_cons in Ho as [->|Ho]; [lia|].
           apply Hlt in Ho. unfold oid. lia.
      * intros l Hl. cbn [st_cart items]. apply update_line_other.
        -- apply splice_in_elem. right. by apply Hin.
        -- intros Heq. apply Hfresh. apply list_elem_of_fmap.
           exists l. split; [done|by apply Hin].
Qed.

Lemma sync_entries_stale_kept stale keys m st :
  stale_kept stale keys st ->
  (forall e, e ∈ m -> fst e ∈ keys) ->
  stale_kept stale keys (fold_left (sync_entry this) m st).
Proof.
  revert st. induction m as [|[key data] m IH]; intros st Hinv Hkeys; simpl.
  - done.
  - apply IH.
    + apply sync_entry_stale_kept; [done|].
      apply (Hkeys (key, data)). apply elem_of_cons. by left.
    + intros e He. apply Hkeys. apply elem_of_cons. by right.
Qed.

Lemma sync_loop_stale_kept c m :
  cart_wf c ->
  stale_kept (stale_of (smap_keys m) (items c)) (smap_keys m)
             (sync_loop this c m).
Proof.
  intros Hwf. unfold sync_loop.
  pose proof (index_pass_ok (items c)) as [Hex Hleg].
  destruct (fold_left index_line (items c) (∅, [])) as [existing legacy].
  cbn [fst snd] in Hex, Hleg.
  apply sync_entries_stale_kept.
  - split; [exact Hwf|]. cbn [st_cart st_existing st_legacy].
    split; [|split].
    + intros l Hl. apply list_elem_of_In, filter_In in Hl as [Hl _].
      by apply list_elem_of_In.
    + intros k oid Hk Hlook Hst.
      destruct (Hex k oid Hlook) as (o & Hin & Htag & Hne).
      apply list_elem_of_fmap in Hst as ([i o'] & -> & Hst).
      apply list_elem_of_In, filter_In in Hst as [Hin' Hstale].
      apply list_elem_of_In in Hin'. simpl in *.
      assert (o = o') as <- by (eapply NoDup_fst_eq; eauto; apply Hwf).
      unfold stale_line in Hstale. simpl in Hstale. rewrite Htag in Hstale.
      apply andb_true_iff in Hstale as [_ Hexp].
      apply negb_true_iff in Hexp.
      assert (expected_has (smap_keys m) (VStr k) = true) as Hyes
        by (apply expected_has_key; eauto).
      congruence.
    + intros e He Hst.
      destruct (Hleg e He) as (_ & o & Hin & Htag).
      apply list_elem_of_fmap in Hst as ([i o'] & Hi & Hst).
      apply list_elem_of_In, filter_In in Hst as [Hin' Hstale].
      apply list_elem_of_In in Hin'. simpl in *. subst i.
      assert (o = o') as <- by (eapply NoDup_fst_eq; eauto; apply Hwf).
      unfold stale_line in Hstale. simpl in Hstale. rewrite Htag in Hstale.
      done.
  - intros e He. unfold smap_keys. apply list_elem_of_fmap. by exists e.
Qed.

End SyncInvariant.

(** C6: after [_syncAutoFreeLines] with the map [m], every cart line that
    carries an [auto_free_source] tag carries a key of [m]; in a cart whose
    lines are distinct objects, a line whose tag is not among the keys of
    [m] is gone after the pass, and so is every packed item of its
    bundle. *)
Theorem sync_removes_stale `{Host} (this : Component) (c : Cart) (m : smap) :
  (forall l, l ∈ items (_syncAutoFreeLines this c m) ->
     truthy (get (snd l) "auto_free_source") = true ->
     exists k, k ∈ smap_keys m /\ get (snd l) "auto_free_source" = VStr k)
  /\ (cart_wf c ->
      forall oid o, (oid, o) ∈ items c ->
        truthy (get o "auto_free_source") = true ->
        (forall k, k ∈ smap_keys m -> get o "auto_free_source" <> VStr k) ->
        (oid ∉ map fst (items (_syncAutoFreeLines this c m))) /\
        (truthy (get o "bundle_id") = true ->
         forall p, p ∈ packed_items (_syncAutoFreeLines this c m) ->
           strict_eq (get p "bundle_id") (get o "bundle_id") = false)).
Proof.
  split; [intros l; apply syncAutoFreeLines_tags|].
  intros Hwf oid o Hin Htag Hnokey.
  assert (stale_line (smap_keys m) (oid, o) = true) as Hstale.
  { unfold stale_line. cbn [snd]. rewrite Htag. simpl.
    apply negb_true_iff. destruct (expected_has _ _) eqn:E; [|done].
    apply expected_has_key in E as (k & Hk & Heq). by destruct (Hnokey k Hk). }
  destruct (sync_loop_stale_kept this c m Hwf) as ((Hnd & _) & Hkept & _).
  destruct (syncAutoFreeLines_items this c m) as (Hit & _ & _ & Hpruned).
  assert ((oid, o) ∈ items (st_cart (sync_loop this c m))) as Hloop.
  { apply Hkept. apply list_elem_of_In, filter_In.
    split; [by apply list_elem_of_In|done]. }
  split.
  - rewrite Hit. intros Hmem.
    apply list_elem_of_fmap in Hmem as ([i o'] & Hi & Hmem). simpl in Hi.
    subst i. apply list_elem_of_In, filter_In in Hmem as [Hmem Hk].
    apply list_elem_of_In in Hmem.
    assert (o = o') as <- by (eapply NoDup_fst_eq; eauto).
    unfold kept in Hk. rewrite Hstale in Hk. done.
  - intros Hb p Hp. by apply (Hpruned (oid, o) p).
Qed.

Lemma stale_cart_wf : cart_wf stale_cart.
Proof.
  split; simpl.
  - apply list.NoDup_cons. split; [by intros ?%list_elem_of_singleton|].
    apply list.NoDup_cons. split; [by intros ?%elem_of_nil|]. apply NoDup_nil_2.
  - intros oid [->|[->|[]%elem_of_nil]%elem_of_cons]%elem_of_cons; lia.
Defined.

Lemma sync_removes_stale_witness :
  (1%nat ∉ map fst (items (_syncAutoFreeLines test_component stale_cart [])))
  /\
  (truthy (get stale_free_line "bundle_id") = true ->
   forall p, p ∈ packed_items (_syncAutoFreeLines test_component stale_cart []) ->
     strict_eq (get p "bundle_id") (get stale_free_line "bundle_id") = false).
Proof.
  refine (proj2 (sync_removes_stale test_component stale_cart [])
            stale_cart_wf 1%nat stale_free_line _ _ _).
  - apply elem_of_cons. right. apply elem_of_cons. by left.
  - reflexivity.
  - intros k Hk. by apply elem_of_nil in Hk.
Defined.

(** *** Tags through the loop *)

Lemma tag_view_fst its : map fst (tag_view its) = map fst its.
Proof. unfold tag_view. rewrite map_map. done. Qed.

Lemma update_line_tag_view oid f its :
  (forall o, tag_of (f o) = tag_of o) ->
  tag_view (update_line oid f its) = tag_view its.
Proof.
  intros Hf. unfold tag_view, update_line. rewrite map_map.
  apply map_ext. intros [i o]. simpl.
  destruct (i =? oid)%nat; simpl; [by rewrite Hf|done].
Qed.

Lemma update_line_tag_elem oid f (its : list line) i o :
  (forall o, tag_of (f o) = tag_of o) ->
  (i, o) ∈ its ->
  exists o', (i, o') ∈ update_line oid f its /\ tag_of o' = tag_of o.
Proof.
  intros Hf Hin. destruct (decide (i = oid)) as [->|Hne].
  - exists (f o). split; [by apply update_line_same|apply Hf].
  - exists o. split; [by apply update_line_other|done].
Qed.

Lemma findIndex_Some {A} (p : A -> bool) l i :
  findIndex p l = Some i -> exists x, l !! i = Some x /\ p x = true.
Proof.
  revert i. induction l as [|y l IH]; intros i; simpl; [done|].
  destruct (p y) eqn:E.
  - intros [= <-]. exists y. done.
  - destruct (findIndex p l) as [j|]; simpl; [|done].
    intros [= <-]. destruct (IH j eq_refl) as (x & Hx & Hp). exists x. done.
Qed.

Lemma list_insert_elem_other {A} (l : list A) i x y :
  y ∈ <[i := x]> l -> y = x \/ exists j, j <> i /\ l !! j = Some y.
Proof.
  intros Hy. apply list_elem_of_lookup in Hy as [j Hj].
  destruct (decide (j = i)) as [->|Hne].
  - left. destruct (decide (i < length l)%nat).
    + rewrite list_lookup_insert_eq in Hj by done. congruence.
    + rewrite list_insert_ge in Hj by lia.
      apply lookup_lt_Some in Hj. lia.
  - right. exists j. split; [done|].
    by rewrite list_lookup_insert_ne in Hj.
Qed.

Section Tags.
Context `{Host}.
Variable this : Component.
Hypothesis calc_keeps_tag :
  forall l q, tag_of (calc_stock_qty this l q) = tag_of l.

Ltac tag_step :=
  match goal with
  | |- context [get (<[_ := _]> _) "auto_free_source"] =>
      rewrite get_insert_ne by done
  | |- context [get (calc_stock_qty this ?l ?q) "auto_free_source"] =>
      change (get (calc_stock_qty this l q) "auto_free_source")
        with (tag_of (calc_stock_qty this l q));
      rewrite calc_keeps_tag; unfold tag_of
  | |- context [get (if ?b then _ else _) "auto_free_source"] => destruct b
  end.

Lemma applyFreeLinePricing_tag l data qty :
  tag_of (applyFreeLinePricing this l data qty) = tag_of l.
Proof.
  unfold applyFreeLinePricing, tag_of. cbv zeta. by repeat tag_step.
Qed.

Lemma applyFreeLineState_tag l data :
  tag_of (applyFreeLineState this l data) = tag_of l.
Proof.
  unfold applyFreeLineState. cbv zeta. unfold tag_of.
  rewrite !get_insert_ne by done.
  change (get (applyFreeLinePricing this ?x ?d ?q) "auto_free_source")
    with (tag_of (applyFreeLinePricing this x d q)).
  rewrite applyFreeLinePricing_tag. unfold tag_of.
  by repeat tag_step.
Qed.

Lemma new_free_line_tag its oid key data :
  tag_of (new_free_line this its oid key data) = VStr key.
Proof.
  unfold new_free_line. cbv zeta. rewrite applyFreeLinePricing_tag.
  unfold tag_of. rewrite !get_insert_ne by done. apply get_insert_eq.
Qed.

End Tags.

(** *** The first pass finds every tagged line *)

Section IndexComplete.
Context `{Host}.

Lemma index_line_complete its acc l :
  index_complete its acc -> fst l ∉ map fst its ->
  index_complete (its ++ [l]) (index_line acc l).
Proof.
  intros (Hall & Hnd & Hleg) Hfresh.
  assert (forall e, e ∈ snd acc -> lg_line e ∈ map fst (its ++ [l])) as Hleg'.
  { intros e He. rewrite map_app. apply elem_of_app. left. by apply Hleg. }
  destruct acc as [existing legacy]. destruct l as [oid o].
  unfold index_line. cbn [fst snd] in *.
  destruct (truthy (get o "auto_free_source")) eqn:Htag.
  - destruct (get o "auto_free_source") as [| | | |tag| |] eqn:Eg;
      (split; [|split; [exact Hnd|exact Hleg']]); cbn [fst];
      intros oid' o' k Hin Hk Hne;
      try (apply lookup_insert_is_Some;
           destruct (decide (tag = k)); [by left|right; split; [done|]]);
      (apply elem_of_app in Hin as [Hin|Hin]; [by eapply Hall|]);
      apply list_elem_of_singleton in Hin; injection Hin as -> ->;
      unfold tag_of in Hk; rewrite Eg in Hk; try done.
    congruence.
  - assert (forall oid' o' k, (oid', o') ∈ its ++ [(oid, o)] ->
              tag_of o' = VStr k -> k <> ""%string -> is_Some (existing !! k))
      as Hall'.
    { intros oid' o' k [Hin|Hin]%elem_of_app Hk Hne; [by eapply Hall|].
      apply list_elem_of_singleton in Hin. injection Hin as -> ->.
      unfold tag_of in Hk. rewrite Hk in Htag.
      apply truthy_VStr in Hne. congruence. }
    destruct (truthy (get o "is_free_item")); [|done].
    destruct (truthy (resolveRuleName o)); [|done].
    split; [exact Hall'|]. cbn [snd]. split.
    + rewrite map_app. simpl. apply list.NoDup_app. split; [done|]. split.
      * intros x Hx ->%list_elem_of_singleton. apply Hfresh.
        apply list_elem_of_fmap in Hx as (e & -> & He). by apply Hleg.
      * apply NoDup_singleton.
    + intros e [He|He]%elem_of_app; [by apply Hleg'|].
      apply list_elem_of_singleton in He. subst e. simpl.
      rewrite map_app. apply elem_of_app. right. by apply list_elem_of_singleton.
Qed.

Lemma index_pass_complete_gen its pre acc :
  NoDup (map fst (pre ++ its)) ->
  index_complete pre acc ->
  index_complete (pre ++ its) (fold_left index_line its acc).
Proof.
  revert pre acc. induction its as [|l its IH]; intros pre acc Hnd Hacc; simpl.
  - by rewrite app_nil_r.
  - assert (pre ++ l :: its = (pre ++ [l]) ++ its) as E
      by (by rewrite <- app_assoc).
    rewrite E in *. apply IH; [done|].
    apply index_line_complete; [done|].
    rewrite !map_app in Hnd. apply list.NoDup_app in Hnd as (Hnd & _ & _).
    apply list.NoDup_app in Hnd as (_ & Hnd & _).
    intros Hin. apply (Hnd _ Hin). simpl. by apply list_elem_of_singleton.
Qed.

Lemma index_pass_complete its :
  NoDup (map fst its) ->
  index_complete its (fold_left index_line its (∅, [])).
Proof.
  intros Hnd. apply (index_pass_complete_gen its [] (∅, [])); [done|].
  split; [|split]; simpl.
  - intros oid o k Hin. by apply elem_of_nil in Hin.
  - apply NoDup_nil_2.
  - intros e He. by apply elem_of_nil in He.
Qed.

End IndexComplete.

(** *** The loop leaves a line tagged with every key it has processed *)

Section FirstPass.
Context `{Host}.
Variable this : Component.
Hypothesis calc_keeps_tag :
  forall l q, tag_of (calc_stock_qty this l q) = tag_of l.

Lemma sync_entry_wf st key data :
  cart_wf (st_cart st) -> cart_wf (st_cart (sync_entry this st (key, data))).
Proof.
  intros Hwf.
  apply (sync_entry_stale_kept this [] [key] st key data).
  - split; [done|]. split; [intros l Hl; by apply elem_of_nil in Hl|].
    split; intros; simpl; apply not_elem_of_nil.
  - by apply list_elem_of_singleton.
Qed.

Lemma sync_entry_tagged processed st key data :
  tagged processed st -> key <> ""%string ->
  tagged (key :: processed) (sync_entry this st (key, data)).
Proof.
  intros (Hwf & Hex & Hleg & Hnd & Hdone) Hkey.
  split; [by apply sync_entry_wf|].
  unfold sync_entry.
  destruct (st_existing st !! key) as [oid|] eqn:Elook.
  - cbn [st_cart st_existing st_legacy with_items items].
    set (f := fun l => applyFreeLineState this l data).
    assert (forall o, tag_of (f o) = tag_of o) as Hf
      by (intros o; by apply applyFreeLineState_tag).
    assert (forall i t, has_line (items (st_cart st)) i t ->
              has_line (update_line oid f (items (st_cart st))) i t) as Hkeep.
    { intros i t (o & Hin & Ht).
      destruct (update_line_tag_elem oid f _ i o Hf Hin) as (o' & Hin' & E).
      exists o'. split; [done|congruence]. }
    split; [|split; [|split; [done|]]].
    + intros k oid' Hk. destruct (Hex k oid' Hk) as [Hne Hl].
      split; [done|by apply Hkeep].
    + intros e He Hu. destruct (Hleg e He Hu) as (o & Hin & Ht).
      destruct (update_line_tag_elem oid f _ _ o Hf Hin) as (o' & Hin' & E).
      exists o'. split; [done|by rewrite E].
    + intros k [->|Hk]%elem_of_cons.
      * destruct (Hex _ _ Elook) as [Hne Hl]. split; [done|].
        exists oid. by apply Hkeep.
      * destruct (Hdone k Hk) as (Hne & i & Hl). split; [done|].
        exists i. by apply Hkeep.
  - destruct (findIndex _ (st_legacy st)) as [i|] eqn:Efind.
    + destruct (findIndex_Some _ _ _ Efind) as (e & Ei & Hmatch).
      rewrite Ei. cbn [st_cart st_existing st_legacy with_items items].
      assert (lg_used e = false) as Hu.
      { unfold legacy_matches in Hmatch.
        apply andb_true_iff in Hmatch as [Hmatch _].
        apply andb_true_iff in Hmatch as [Hmatch _].
        by apply negb_true_iff in Hmatch. }
      destruct (Hleg e (list_elem_of_lookup_2 _ _ _ Ei) Hu) as (o0 & Hin0 & Ht0).
      set (oid := lg_line e) in *.
      match goal with
      | |- context [update_line oid ?g _] => set (adopt := g)
      end.
      assert (forall j k, k <> ""%string ->
                has_line (items (st_cart st)) j (VStr k) ->
                has_line (update_line oid adopt (items (st_cart st))) j (VStr k))
        as Htagged.
      { intros j k Hne (o & Hin & Ht). exists o. split; [|done].
        apply update_line_other; [done|]. cbn [fst]. intros ->.
        assert (o = o0) as -> by (eapply NoDup_fst_eq; eauto; apply Hwf).
        rewrite Ht in Ht0. apply truthy_VStr in Hne. congruence. }
      split; [|split; [|split]].
      * intros k oid' Hk. destruct (decide (key = k)) as [->|Hnk].
        -- rewrite lookup_insert_eq in Hk. injection Hk as <-.
           split; [done|]. exists (adopt o0).
           split; [by apply update_line_same|].
           unfold adopt. rewrite applyFreeLineState_tag by done.
           unfold tag_of. rewrite get_insert_ne by done. apply get_insert_eq.
        -- rewrite lookup_insert_ne in Hk by done.
           destruct (Hex k oid' Hk) as [Hne Hl]. split; [done|by apply Htagged].
      * intros e' He' Hu'.
        apply list_insert_elem_other in He' as [->|(j & Hj & Hlook)]; [done|].
        destruct (Hleg e' (list_elem_of_lookup_2 _ _ _ Hlook) Hu')
          as (o' & Hin' & Ht').
        exists o'. split; [|done].
        apply update_line_other; [done|]. cbn [fst]. intros Heq.
        apply Hj. eapply (NoDup_lookup _ _ _ _ Hnd).
        -- change (map lg_line ?l) with (lg_line <$> l).
           by rewrite list_lookup_fmap, Hlook.
        -- change (map lg_line ?l) with (lg_line <$> l).
           rewrite list_lookup_fmap, Ei. simpl. by rewrite Heq.
      * change (map lg_line ?l) with (lg_line <$> l) in *.
        rewrite list_fmap_insert. cbn [lg_line].
        rewrite list_insert_id; [done|].
        by rewrite list_lookup_fmap, Ei.
      * intros k [->|Hk]%elem_of_cons.
        -- split; [done|]. exists oid, (adopt o0).
           split; [by apply update_line_same|].
           unfold adopt. rewrite applyFreeLineState_tag by done.
           unfold tag_of. rewrite get_insert_ne by done. apply get_insert_eq.
        -- destruct (Hdone k Hk) as (Hne & j & Hl). split; [done|].
           exists j. by apply Htagged.
    + cbn [st_cart st_existing st_legacy items].
      set (oid := next_oid (st_cart st)).
      set (fl := new_free_line this (items (st_cart st)) oid key data).
      set (at_ := match findIndex _ (items (st_cart st)) with
                  | Some i => S i
                  | None => length (items (st_cart st))
                  end).
      set (calc := fun l => calc_stock_qty this l (get l "qty")).
      assert (oid ∉ map fst (items (st_cart st))) as Hfresh.
      { intros Hm. apply Hwf in Hm. unfold oid in Hm. lia. }
      assert (forall j t, has_line (items (st_cart st)) j t ->
                has_line (update_line oid calc
                            (splice_in at_ (oid, fl) (items (st_cart st)))) j t)
        as Hkeep.
      { intros j t (o & Hin & Ht). exists o. split; [|done].
        apply update_line_other.
        - apply splice_in_elem. by right.
        - cbn [fst]. intros ->. apply Hfresh.
          apply list_elem_of_fmap. by exists (oid, o). }
      split; [|split; [|split; [done|]]].
      * intros k oid' Hk. destruct (Hex k oid' Hk) as [Hne Hl].
        split; [done|by apply Hkeep].
      * intros e He Hu. destruct (Hleg e He Hu) as (o & Hin & Ht).
        destruct (Hkeep (lg_line e) (tag_of o)) as (o' & Hin' & E);
          [by exists o|].
        exists o'. split; [done|by rewrite E].
      * intros k [->|Hk]%elem_of_cons.
        -- split; [done|]. exists oid, (calc fl). split.
           ++ apply update_line_same. apply splice_in_elem. by left.
           ++ unfold calc. rewrite calc_keeps_tag.
              by apply new_free_line_tag.
        -- destruct (Hdone k Hk) as (Hne & j & Hl). split; [done|].
           exists j. by apply Hkeep.
Qed.

Lemma sync_entries_tagged m processed st :
  tagged processed st ->
  (forall e, e ∈ m -> fst e <> ""%string) ->
  tagged (reverse (map fst m) ++ processed) (fold_left (sync_entry this) m st).
Proof.
  revert processed st.
  induction m as [|[key data] m IH]; intros processed st Hinv Hkeys; simpl.
  - done.
  - rewrite reverse_cons, <- app_assoc. simpl. apply IH.
    + apply sync_entry_tagged; [done|].
      apply (Hkeys (key, data)). apply elem_of_cons. by left.
    + intros e He. apply Hkeys. apply elem_of_cons. by right.
Qed.

(** After the loop every key of the map tags some line of the cart. *)
Lemma sync_loop_tagged c m :
  cart_wf c ->
  (forall k, k ∈ smap_keys m -> k <> ""%string) ->
  cart_wf (st_cart (sync_loop this c m)) /\
  forall k, k ∈ smap_keys m ->
    exists oid, has_line (items (st_cart (sync_loop this c m))) oid (VStr k).
Proof.
  intros Hwf Hkeys. unfold sync_loop.
  pose proof (index_pass_ok (items c)) as Hok.
  pose proof (index_pass_complete (items c) (proj1 Hwf)) as Hcomplete.
  destruct (fold_left index_line (items c) (∅, [])) as [existing legacy].
  destruct Hok as [Hex Hleg]. destruct Hcomplete as (_ & Hnd & _).
  cbn [fst snd] in Hex, Hleg, Hnd.
  set (st := {| st_cart := c; st_existing := existing; st_legacy := legacy |}).
  assert (tagged [] st) as Hinit.
  { split; [exact Hwf|]. cbn [st_cart st_existing st_legacy].
    split; [|split; [|split; [exact Hnd|]]].
    - intros k oid Hk. destruct (Hex k oid Hk) as (o & Hin & Ht & Hne).
      split; [done|by exists o].
    - intros e He _. destruct (Hleg e He) as (_ & o & Hin & Ht). by exists o.
    - intros k Hk. by apply elem_of_nil in Hk. }
  pose proof (sync_entries_tagged m [] st Hinit) as (Hwf' & _ & _ & _ & Hall).
  { intros e He. apply Hkeys. unfold smap_keys.
    apply list_elem_of_fmap. by exists e. }
  split; [exact Hwf'|].
  intros k Hk. apply Hall. rewrite app_nil_r. apply elem_of_reverse.
  exact Hk.
Qed.

End FirstPass.

(** *** A cart that already holds a line for every key *)

Lemma removable_none keys i (its : list line) :
  (forall l, l ∈ its -> kept keys l = true) -> removable_from keys i its = [].
Proof.
  revert i. induction its as [|l its IH]; intros i Hall; simpl; [done|].
  assert (kept keys l = true) as Hl by (apply Hall, elem_of_cons; by left).
  unfold kept in Hl. apply negb_true_iff in Hl. rewrite Hl.
  apply IH. intros l' Hl'. apply Hall, elem_of_cons. by right.
Qed.

Lemma kept_tag_view keys (its its' : list line) :
  tag_view its' = tag_view its ->
  (forall l, l ∈ its -> kept keys l = true) ->
  forall l, l ∈ its' -> kept keys l = true.
Proof.
  intros Hview Hall l' Hl'.
  assert ((fst l', tag_of (snd l')) ∈ tag_view its) as Hin.
  { rewrite <- Hview. unfold tag_view. apply list_elem_of_fmap. by exists l'. }
  unfold tag_view in Hin. apply list_elem_of_fmap in Hin as (l & E & Hl).
  injection E as _ Etag. specialize (Hall l Hl).
  unfold kept, stale_line, tag_of in *. by rewrite Etag.
Qed.

Lemma NoDup_fst_filter (p : line -> bool) (its : list line) :
  NoDup (map fst its) -> NoDup (map fst (List.filter p its)).
Proof.
  induction its as [|l its IH]; simpl; [done|].
  intros [Hnot Hnd]%list.NoDup_cons. destruct (p l); simpl; [|by apply IH].
  apply list.NoDup_cons. split; [|by apply IH].
  intros Hin. apply Hnot.
  apply list_elem_of_fmap in Hin as (l' & E & Hl').
  apply list_elem_of_In, filter_In in Hl' as [Hl' _].
  apply list_elem_of_fmap. exists l'. split; [done|by apply list_elem_of_In].
Qed.

(** The keys the local pass files freebies under are never empty. *)
Lemma freebie_key_nonempty `{Host} (entry item : obj) :
  freebie_key entry item <> ""%string.
Proof.
  unfold freebie_key. by destruct (to_string (get entry "rule")).
Qed.

Section SecondPass.
Context `{Host}.
Variable this : Component.
Hypothesis calc_keeps_tag :
  forall l q, tag_of (calc_stock_qty this l q) = tag_of l.

Lemma sync_entry_existing st key data :
  is_Some (st_existing st !! key) ->
  same_lines (st_cart st) (st_cart (sync_entry this st (key, data))) /\
  st_existing (sync_entry this st (key, data)) = st_existing st.
Proof.
  intros [oid Hoid]. unfold sync_entry. rewrite Hoid.
  cbn [st_cart st_existing with_items]. split; [|done].
  split; [|done]. cbn [items].
  apply update_line_tag_view. intros o. by apply applyFreeLineState_tag.
Qed.

Lemma sync_entries_existing m st :
  (forall e, e ∈ m -> is_Some (st_existing st !! fst e)) ->
  same_lines (st_cart st) (st_cart (fold_left (sync_entry this) m st)).
Proof.
  revert st. induction m as [|[key data] m IH]; intros st Hall;
    cbn [fold_left].
  - done.
  - destruct (sync_entry_existing st key data) as ((Hv & Hn & Hp) & Hex).
    { apply (Hall (key, data)), elem_of_cons. by left. }
    destruct (IH (sync_entry this st (key, data))) as (Hv' & Hn' & Hp').
    { intros e He. rewrite Hex. apply Hall, elem_of_cons. by right. }
    unfold same_lines. by rewrite Hv', Hn', Hp'.
Qed.

(** On a cart whose tagged lines are exactly those the map asks for, the
    pass creates nothing, removes nothing and keeps every tag. *)
Lemma sync_settled c m :
  NoDup (map fst (items c)) ->
  (forall k, k ∈ smap_keys m -> k <> ""%string) ->
  (forall k, k ∈ smap_keys m -> exists oid, has_line (items c) oid (VStr k)) ->
  (forall l, l ∈ items c -> kept (smap_keys m) l = true) ->
  same_lines c (_syncAutoFreeLines this c m).
Proof.
  intros Hnd Hkeys Hlines Hkept.
  pose proof (index_pass_complete (items c) Hnd) as Hcomplete.
  unfold _syncAutoFreeLines.
  destruct (fold_left index_line (items c) (∅, [])) as [existing legacy].
  destruct Hcomplete as (Hall & _ & _). cbn [fst] in Hall. cbv zeta.
  set (st := {| st_cart := c; st_existing := existing; st_legacy := legacy |}).
  destruct (sync_entries_existing m st) as (Hv & Hn & Hp).
  { intros e He. cbn [st_existing st].
    assert (fst e ∈ smap_keys m) as Hk
      by (unfold smap_keys; apply list_elem_of_fmap; by exists e).
    destruct (Hlines _ Hk) as (oid & o & Hin & Ht).
    eapply Hall; eauto. }
  rewrite removable_none.
  - simpl. by split.
  - eapply kept_tag_view; [exact Hv|exact Hkept].
Qed.

End SecondPass.


Lemma paid_cart_wf : cart_wf paid_cart.
Proof.
  split; simpl.
  - apply list.NoDup_cons. split; [by intros ?%elem_of_nil|]. apply NoDup_nil_2.
  - intros oid [->|[]%elem_of_nil]%elem_of_cons. lia.
Defined.


(** * Further properties *)

(** ** The rule evaluator *)

Lemma Qfloor_half (n : Z) : Qfloor (inject_Z n + (1 # 2)) = n.
Proof.
  pose proof (Qfloor_le (inject_Z n + (1 # 2))) as Hlo.
  pose proof (Qlt_floor (inject_Z n + (1 # 2))) as Hhi.
  set (m := Qfloor (inject_Z n + (1 # 2))) in *.
  assert (inject_Z m < inject_Z (n + 1))%Q as H1.
  { rewrite inject_Z_plus. change (inject_Z 1) with 1%Q. lra. }
  assert (inject_Z n < inject_Z (m + 1))%Q as H2.
  { rewrite inject_Z_plus. change (inject_Z 1) with 1%Q.
    rewrite inject_Z_plus in Hhi. change (inject_Z 1) with 1%Q in Hhi. lra. }
  rewrite <- Zlt_Qlt in H1, H2. lia.
Qed.

Lemma round6_idempotent x : (round6 (round6 x) == round6 x)%Q.
Proof.
  unfold round6 at 1 3.
  set (n := Qfloor (x * pow10 6 + (1 # 2))).
  assert (round6 x * pow10 6 == inject_Z n)%Q as E.
  { unfold round6. fold n. field. discriminate. }
  assert (Qfloor (round6 x * pow10 6 + (1 # 2)) = n) as ->; [|reflexivity].
  rewrite <- (Qfloor_half n). apply Qfloor_comp. by rewrite E.
Qed.

Lemma round_round6 `{Host} v : exists q y, round v = Fin q /\ (q == round6 y)%Q.
Proof.
  unfold round. cbv zeta.
  destruct (parseFloat (or_ v (vnum 0))) as [x| | |]; cbn [isFinite negb].
  - exists (round6 x), x. split; reflexivity.
  - exists 0%Q, 0%Q. split; reflexivity.
  - exists 0%Q, 0%Q. split; reflexivity.
  - exists 0%Q, 0%Q. split; reflexivity.
Qed.



Lemma mismatch_missing_ok want have :
  mismatch want have = false /\ missing want have = false <-> filter_ok want have.
Proof.
  unfold mismatch, missing, filter_ok.
  destruct (truthy want), (truthy have), (strict_eq want have); simpl;
    intuition congruence.
Qed.

(** X2: [matchParty] accepts a rule exactly when each of its customer,
    customer-group and territory filters is unset or equals the value of the
    context, and [matchPriceListAndCurrency] does the same for the price
    list and the currency. *)
Theorem party_and_price_list_filters (rule : obj)
  (customer customerGroup territory priceList currency : value) :
  (matchParty rule customer customerGroup territory = true <->
     filter_ok (get rule "customer") customer /\
     filter_ok (get rule "customer_group") customerGroup /\
     filter_ok (get rule "territory") territory) /\
  (matchPriceListAndCurrency rule priceList currency = true <->
     filter_ok (get rule "price_list") priceList /\
     filter_ok (get rule "currency") currency).
Proof.
  split.
  - rewrite <- !mismatch_missing_ok. unfold matchParty.
    destruct (mismatch (get rule "customer") customer),
             (mismatch (get rule "customer_group") customerGroup),
             (mismatch (get rule "territory") territory),
             (missing (get rule "customer") customer),
             (missing (get rule "customer_group") customerGroup),
             (missing (get rule "territory") territory);
      intuition congruence.
  - rewrite <- !mismatch_missing_ok. unfold matchPriceListAndCurrency.
    destruct (mismatch (get rule "price_list") priceList),
             (mismatch (get rule "currency") currency),
             (missing (get rule "price_list") priceList),
             (missing (get rule "currency") currency);
      intuition congruence.
Qed.

(** The invariant of the loops of [collectCandidates]. *)
Lemma pushUnique_inv (pool : list obj) (acc : list obj * list value) rule :
  snd acc = map (fun r => get r "name") (fst acc) ->
  distinct_names (fst acc) ->
  (forall r, r ∈ fst acc -> r ∈ pool) ->
  rule ∈ pool ->
  snd (pushUnique acc rule) =
    map (fun r => get r "name") (fst (pushUnique acc rule)) /\
  distinct_names (fst (pushUnique acc rule)) /\
  (forall r, r ∈ fst (pushUnique acc rule) -> r ∈ pool).
Proof.
  destruct acc as [bucket seen]. cbn [fst snd]. intros -> Hd Hsub Hin.
  unfold pushUnique. destruct (set_has _ _) eqn:Hseen; cbn [fst snd]; [done|].
  split; [by rewrite map_app|]. split.
  - assert (forall a, a ∈ bucket ->
              same_value_zero (get rule "name") (get a "name") = false) as Hnew.
    { intros a Ha. destruct (same_value_zero _ _) eqn:E; [|done].
      unfold set_has in Hseen.
      assert (existsb (same_value_zero (get rule "name"))
                (map (fun r => get r "name") bucket) = true) as Hyes; [|congruence].
      apply existsb_exists. exists (get a "name"). split; [|done].
      apply in_map_iff. exists a. split; [done|by apply list_elem_of_In]. }
    intros i j a b Ha Hb Hij.
    destruct (decide (i < length bucket)%nat) as [Hi|Hi],
             (decide (j < length bucket)%nat) as [Hj|Hj].
    + rewrite lookup_app_l in Ha, Hb by done. by eapply Hd.
    + rewrite lookup_app_l in Ha by done. rewrite lookup_app_r in Hb by lia.
      apply list_lookup_singleton_Some in Hb as [_ <-].
      rewrite same_value_zero_sym. apply Hnew.
      by eapply list_elem_of_lookup_2.
    + rewrite lookup_app_l in Hb by done. rewrite lookup_app_r in Ha by lia.
      apply list_lookup_singleton_Some in Ha as [_ <-].
      apply Hnew. by eapply list_elem_of_lookup_2.
    + rewrite lookup_app_r in Ha, Hb by lia.
      apply list_lookup_singleton_Some in Ha as [Ha _].
      apply list_lookup_singleton_Some in Hb as [Hb _]. lia.
  - intros r [Hr|Hr]%elem_of_app; [by apply Hsub|].
    apply list_elem_of_singleton in Hr. by subst r.
Qed.

Lemma pushUnique_fold_inv (pool rules : list obj) (acc : list obj * list value) :
  snd acc = map (fun r => get r "name") (fst acc) ->
  distinct_names (fst acc) ->
  (forall r, r ∈ fst acc -> r ∈ pool) ->
  (forall r, r ∈ rules -> r ∈ pool) ->
  snd (fold_left pushUnique rules acc) =
    map (fun r => get r "name") (fst (fold_left pushUnique rules acc)) /\
  distinct_names (fst (fold_left pushUnique rules acc)) /\
  (forall r, r ∈ fst (fold_left pushUnique rules acc) -> r ∈ pool).
Proof.
  revert acc. induction rules as [|rule rules IH]; intros acc Hs Hd Hsub Hin;
    cbn [fold_left]; [done|].
  destruct (pushUnique_inv pool acc rule Hs Hd Hsub) as (Hs' & Hd' & Hsub').
  { apply Hin, elem_of_cons. by left. }
  apply IH; try done. intros r Hr. apply Hin, elem_of_cons. by right.
Qed.

(** X3: the candidates [collectCandidates] returns for an item carry
    pairwise different names, and each of them comes from a bucket the item
    is looked up under or from the general bucket. *)
Theorem collectCandidates_distinct (item : obj) (indexBundle : IndexBundle) :
  distinct_names (collectCandidates item indexBundle) /\
  forall r, r ∈ collectCandidates item indexBundle -> r ∈ offered item indexBundle.
Proof.
  unfold collectCandidates. cbv zeta.
  set (pool := offered item indexBundle).
  assert (forall rules acc,
            snd acc = map (fun r => get r "name") (fst acc) /\
            distinct_names (fst acc) /\ (forall r, r ∈ fst acc -> r ∈ pool) ->
            (forall r, r ∈ rules -> r ∈ pool) ->
            snd (fold_left pushUnique rules acc) =
              map (fun r => get r "name") (fst (fold_left pushUnique rules acc)) /\
            distinct_names (fst (fold_left pushUnique rules acc)) /\
            (forall r, r ∈ fst (fold_left pushUnique rules acc) -> r ∈ pool))
    as Hstep.
  { intros rules acc (Hs & Hd & Hsub). by apply pushUnique_fold_inv. }
  assert (forall r, r ∈ bucket_of (byItem indexBundle) (get item "item_code") ->
                    r ∈ pool) as H1.
  { intros r Hr. unfold pool, offered. rewrite !elem_of_app. tauto. }
  assert (forall r, r ∈ bucket_of (byGroup indexBundle) (get item "item_group") ->
                    r ∈ pool) as H2.
  { intros r Hr. unfold pool, offered. rewrite !elem_of_app. tauto. }
  assert (forall r, r ∈ bucket_of (byBrand indexBundle) (get item "brand") ->
                    r ∈ pool) as H3.
  { intros r Hr. unfold pool, offered. rewrite !elem_of_app. tauto. }
  assert (forall r, r ∈ default [] (general indexBundle) -> r ∈ pool) as H4.
  { intros r Hr. unfold pool, offered. rewrite !elem_of_app. tauto. }
  eapply proj2, Hstep; [|exact H4].
  apply Hstep; [|exact H3]. apply Hstep; [|exact H2]. apply Hstep; [|exact H1].
  cbn [fst snd]. split; [done|]. split.
  - intros i j a b Ha. by rewrite lookup_nil in Ha.
  - intros r Hr. by apply elem_of_nil in Hr.
Qed.

Lemma collectCandidates_distinct_witness :
  item_rule ∈ offered (arg_item two_rule_args) (arg_indexes two_rule_args).
Proof.
  apply (proj2 (collectCandidates_distinct (arg_item two_rule_args)
                  (arg_indexes two_rule_args))).
  assert (collectCandidates (arg_item two_rule_args) (arg_indexes two_rule_args)
          = [group_rule; item_rule]) as -> by reflexivity.
  apply elem_of_cons. right. apply elem_of_cons. by left.
Defined.

Lemma applyOneRule_detail_name `{Host} cur rule (qty base : num) :
  truthy (get rule "is_free_item_rule") = false ->
  exists d, detail (applyOneRule cur rule qty base) = Some d /\
            get d "name" = get rule "name".
Proof.
  intros Hfree. unfold applyOneRule. cbv zeta. rewrite Hfree.
  match goal with |- context [let '(_, _) := ?p in _] => destruct p as [nr ty] end.
  eexists. split; [reflexivity|].
  unfold get. by rewrite lookup_insert_eq.
Qed.

Lemma apply_chain_names `{Host} (qty base : num) rules rate acc :
  Forall (fun rule => truthy (get rule "is_free_item_rule") = false) rules ->
  map (fun d => get d "name") (snd (apply_chain qty base rules rate acc)) =
  map (fun d => get d "name") acc ++
  map (fun r => get r "name") (chain_prefix rules).
Proof.
  intros Hall. revert rate acc.
  induction Hall as [|rule rules Hr Hall IH]; intros rate acc;
    cbn [apply_chain chain_prefix].
  - by rewrite app_nil_r.
  - cbv zeta.
    destruct (applyOneRule_detail_name rate rule qty base Hr) as (d & -> & Hd).
    destruct (truthy (get rule "stop_further_rules")); cbn [orb snd].
    + rewrite map_app. simpl. by rewrite Hd.
    + destruct (truthy (get rule "apply_multiple_pricing_rules"));
        cbn [negb snd].
      * rewrite IH, map_app. simpl. rewrite Hd, <- app_assoc. done.
      * rewrite map_app. simpl. by rewrite Hd.
Qed.

(** X4: the rules [evaluatePricingRules] reports as applied are, by name
    and in order, the leading rules of the sorted qualifying pricing rules,
    up to and including the first one that sets [stop_further_rules] or
    does not set [apply_multiple_pricing_rules]; so a single rule applies
    unless the rules ask for more. *)
Theorem applied_rules_prefix `{Host} (a : EvalArgs) :
  map (fun d => get d "name") (applied (pricing (evaluatePricingRules a))) =
  map (fun r => get r "name") (chain_prefix (pricingRules_of a)).
Proof.
  unfold evaluatePricingRules. cbv zeta.
  pose proof (pricingRules_not_free a) as Hall.
  destruct (pricingRules_of a) as [|rule rules] eqn:E; [done|].
  pose proof (apply_chain_names (effectiveQty_of a) (startRate_of a)
                (rule :: rules) (startRate_of a) [] Hall) as Hn.
  destruct (apply_chain _ _ (rule :: rules) _ []) as [r ap].
  cbn [pricing applied]. exact Hn.
Qed.

Lemma collect_freebies_all `{Host} (P : obj -> Prop) item (qty : num) rules acc :
  (forall rule f, rule ∈ rules ->
     applyFreeItemRule rule item qty = Some f -> P f) ->
  (forall f, f ∈ acc -> P f) ->
  forall f, f ∈ collect_freebies item qty rules acc -> P f.
Proof.
  revert acc. induction rules as [|rule rules IH]; intros acc Hnew Hacc;
    cbn [collect_freebies]; [done|].
  cbv zeta.
  assert (forall f,
            f ∈ match applyFreeItemRule rule item qty with
                | Some freebie => acc ++ [freebie]
                | None => acc
                end -> P f) as Hacc'.
  { destruct (applyFreeItemRule rule item qty) as [d|] eqn:E; [|done].
    intros f [Hf|Hf]%elem_of_app; [by apply Hacc|].
    apply list_elem_of_singleton in Hf. subst f.
    eapply Hnew; [|exact E]. apply elem_of_cons. by left. }
  destruct (truthy (get rule "stop_further_rules")); [done|].
  apply IH; [|done]. intros r f Hr. apply Hnew, elem_of_cons. by right.
Qed.

(** X5: [evaluatePricingRules] never returns a free item with a quantity
    that is zero or negative: the quantity and the stock quantity of every
    freebie are the same number, and that number is not [<= 0]. *)
Theorem freebies_quantity `{Host} (a : EvalArgs) (f : obj) :
  f ∈ freebies (evaluatePricingRules a) ->
  exists q, get f "qty" = VNum q /\ get f "stock_qty" = VNum q /\
            le q (Fin 0) = false.
Proof.
  unfold evaluatePricingRules. cbv zeta. cbn [freebies].
  apply (collect_freebies_all
           (fun f => exists q, get f "qty" = VNum q /\
                               get f "stock_qty" = VNum q /\
                               le q (Fin 0) = false)).
  - intros rule d _ E.
    pose proof (applyFreeItemRule_descriptor rule (arg_item a) (effectiveQty_of a))
      as Hd.
    rewrite E in Hd. destruct Hd as (Hle & _ & Hq & Hs & _).
    by exists (free_qty_of rule (effectiveQty_of a)).
  - intros d Hd. by apply elem_of_nil in Hd.
Qed.

Lemma freebies_quantity_witness :
  exists q, get free_descriptor "qty" = VNum q /\
            get free_descriptor "stock_qty" = VNum q /\ le q (Fin 0) = false.
Proof.
  apply (freebies_quantity free_args free_descriptor).
  assert (freebies (evaluatePricingRules free_args) = [free_descriptor]) as ->
    by reflexivity.
  by apply list_elem_of_singleton.
Defined.

(** *** The order the rules are applied in *)

Section RulePrecedence.
Context `{Host} `{!CollationLaws}.

Lemma rule_before_irrefl a : ~ rule_before a a.
Proof.
  unfold rule_before.
  intros [?|[_ [?|[_ [?|[_ Hn]]]]]]; try lra.
  pose proof (proj1 (collate_antisym _ _) Hn). lia.
Qed.

Lemma collate_cases s t :
  (localeCompare s t < 0)%Z \/ s = t \/ (localeCompare t s < 0)%Z.
Proof.
  destruct (Z.lt_trichotomy (localeCompare s t) 0) as [Hlt|[Heq|Hgt]].
  - by left.
  - right. left. by apply collate_eq.
  - right. right. by apply collate_antisym.
Qed.

Lemma rule_before_cotrans a b c :
  rule_before a c -> rule_before a b \/ rule_before b c.
Proof.
  unfold rule_before.
  set (sa := rule_specificity a). set (sb := rule_specificity b).
  set (sc := rule_specificity c).
  set (pa := rule_priority a). set (pb := rule_priority b).
  set (pc := rule_priority c).
  set (ba := rule_benefit a). set (bb := rule_benefit b).
  set (bc := rule_benefit c).
  intros Hac.
  destruct (Q_dec sb sa) as [[Hs|Hs]|Hs].
  { left. left. lra. }
  { right. left. destruct Hac as [?|[? _]]; lra. }
  destruct Hac as [Hc|[Hsc Hac]]; [right; left; lra|].
  destruct (Q_dec pb pa) as [[Hp|Hp]|Hp].
  { left. right. split; [lra|]. left. lra. }
  { right. right. split; [lra|]. left. destruct Hac as [?|[? _]]; lra. }
  destruct Hac as [Hc|[Hpc Hac]].
  { right. right. split; [lra|]. left. lra. }
  destruct (Q_dec bb ba) as [[Hb|Hb]|Hb].
  { left. right. split; [lra|]. right. split; [lra|]. left. lra. }
  { right. right. split; [lra|]. right. split; [lra|]. left.
    destruct Hac as [?|[? _]]; lra. }
  destruct Hac as [Hc|[Hbc Hn]].
  { right. right. split; [lra|]. right. split; [lra|]. left. lra. }
  destruct (collate_cases (rule_name a) (rule_name b)) as [Hab|[Hab|Hab]].
  - left. right. split; [lra|]. right. split; [lra|]. right. split; [lra|done].
  - right. right. split; [lra|]. right. split; [lra|]. right. split; [lra|].
    by rewrite <- Hab.
  - right. right. split; [lra|]. right. split; [lra|]. right. split; [lra|].
    eapply collate_trans; eauto.
Qed.

Lemma ruleSort_lt a b :
  rule_typed a -> rule_typed b ->
  lt (ruleSort a b) (Fin 0) = true <-> rule_before a b.
Proof.
  intros Ha Hb. destruct (ruleSort_sign a b Ha Hb) as (z & -> & Hlt & _).
  by rewrite lt_Fin.
Qed.

Lemma sort_insert_ordered x l :
  rule_typed x -> Forall rule_typed l -> ordered l ->
  ordered (sort_insert ruleSort x l).
Proof.
  intros Hx. induction l as [|y l IH]; intros Hl Ho.
  - simpl. split; [constructor|done].
  - apply list.Forall_cons in Hl as [Hy Hl]. destruct Ho as [Hall Ho].
    cbn [sort_insert].
    destruct (lt (ruleSort y x) (Fin 0)) eqn:E.
    + apply (ruleSort_lt y x Hy Hx) in E. split; [|by apply IH].
      apply list.Forall_forall. intros w [->|Hw]%sort_insert_elem.
      * intros Hxy. apply (rule_before_irrefl y).
        eapply rule_before_trans; eauto.
      * by apply (proj1 (list.Forall_forall _ _) Hall).
    + assert (~ rule_before y x) as Hyx.
      { intros Hb. apply (ruleSort_lt y x Hy Hx) in Hb. congruence. }
      split; [|by split].
      apply list.Forall_cons. split; [done|].
      apply list.Forall_forall. intros w Hw Hwx.
      destruct (rule_before_cotrans w y x Hwx) as [Hwy|?]; [|done].
      by apply (proj1 (list.Forall_forall _ _) Hall w Hw).
Qed.

Lemma sort_by_ordered l :
  Forall rule_typed l -> ordered (sort_by ruleSort l).
Proof.
  induction l as [|x l IH]; intros Hl; [done|].
  apply list.Forall_cons in Hl as [Hx Hl]. simpl.
  apply sort_insert_ordered; [done| |by apply IH].
  apply list.Forall_forall. intros y Hy%sort_by_elem.
  by apply (proj1 (list.Forall_forall _ _) Hl).
Qed.

Lemma Forall_filter_keep {A} (P : A -> Prop) (f : A -> bool) (l : list A) :
  Forall P l -> Forall P (List.filter f l).
Proof.
  intros Hl. apply list.Forall_forall. intros x Hx.
  apply list_elem_of_In, filter_In in Hx as [Hx _].
  apply (proj1 (list.Forall_forall _ _) Hl). by apply list_elem_of_In.
Qed.

End RulePrecedence.



(** ** Quantities and rates read from a line *)


(** ** Lines that are not repriced *)

Lemma locally_locked_no_update item :
  locally_locked item -> allowRateUpdate_of item = false.
Proof.
  unfold allowRateUpdate_of. intros [-> | ->]; simpl; [done|].
  by rewrite andb_false_r.
Qed.

(** X7: [_applyPricingToLine] changes nothing but the badge fields of a
    line whose [locked_price] or [posa_offer_applied] is truthy: its rates,
    discounts and amounts stay as they are. *)
Theorem locked_line_not_repriced `{Host} (this : Component) (item ctx : obj)
  (indexes : IndexBundle) (fm : smap) :
  locally_locked item ->
  frame badge_keys item (fst (_applyPricingToLine this item ctx indexes fm)).
Proof.
  intros Hl. unfold _applyPricingToLine.
  rewrite (locally_locked_no_update _ Hl). cbv zeta.
  destruct (eqb _ _ && eqb _ _); cbn [fst].
  - apply frame_refl.
  - apply updatePricingBadge_frame.
Qed.

Lemma locked_line_not_repriced_witness :
  frame badge_keys locked_item
    (fst (_applyPricingToLine test_component locked_item ∅ no_indexes [])).
Proof.
  apply (locked_line_not_repriced test_component locked_item).
  left. reflexivity.
Defined.

Lemma server_locked_no_update `{Host} (this : Component) idx item targetId p :
  server_locked item -> allowServerRateUpdate_of this idx item targetId p = false.
Proof.
  unfold allowServerRateUpdate_of, priceLocked_of, offerApplied_of.
  intros [-> | [-> | [-> | ->]]]; cbn; by rewrite ?andb_false_r.
Qed.

(** X8: a server update changes nothing but the badge fields of a line
    whose [locked_price] is [true] or whose [posa_offer_applied] is [true],
    [1] or ["1"]. *)
Theorem server_locked_line_not_repriced `{Host} (this : Component)
  (idx : SameItemIndex) (update : value) (item : obj) :
  server_locked item ->
  frame badge_keys item (apply_update_to this idx update item).
Proof.
  intros Hl. unfold apply_update_to. cbv zeta.
  rewrite (server_locked_no_update this _ _ _ _ Hl).
  apply updatePricingBadge_frame.
Qed.

Lemma server_locked_line_not_repriced_witness :
  frame badge_keys locked_item
    (apply_update_to test_component no_same_item half_price_update locked_item).
Proof.
  apply (server_locked_line_not_repriced test_component).
  left. reflexivity.
Defined.

(** ** The freebie map *)

Lemma smap_get_set_eq (m : smap) k v : smap_get (smap_set m k v) k = Some v.
Proof.
  induction m as [|[k' v'] m IH]; simpl.
  - by rewrite String.eqb_refl.
  - destruct (String.eqb k' k) eqn:E; simpl; rewrite E; [done|exact IH].
Qed.

Lemma smap_get_set_ne (m : smap) k k' v :
  k <> k' -> smap_get (smap_set m k v) k' = smap_get m k'.
Proof.
  intros Hne. induction m as [|[k0 v0] m IH]; simpl.
  - destruct (String.eqb_spec k k'); [done|done].
  - destruct (String.eqb_spec k0 k) as [->|Hk]; simpl.
    + destruct (String.eqb_spec k k'); [done|done].
    + destruct (String.eqb k0 k'); [done|exact IH].
Qed.



(** ** Paid lines and the synchroniser *)

Section PaidLines.
Context `{Host}.
Variable this : Component.

Lemma index_line_legacy_free its acc l :
  legacy_free its acc -> legacy_free (its ++ [l]) (index_line acc l).
Proof.
  intros Hl.
  assert (legacy_free (its ++ [l]) acc) as Hweak.
  { intros e He. destruct (Hl e He) as (o & Hin & Ho).
    exists o. split; [apply elem_of_app; by left|done]. }
  destruct acc as [existing legacy]. destruct l as [oid o].
  unfold index_line. cbn [fst snd].
  destruct (truthy (get o "auto_free_source")).
  - by destruct (get o "auto_free_source").
  - destruct (truthy (get o "is_free_item")) eqn:Hfree; [|done].
    destruct (truthy (resolveRuleName o)); [|done].
    intros e [He|He]%elem_of_app; [by apply Hweak|].
    apply list_elem_of_singleton in He. subst e. cbn [lg_line].
    exists o. split; [|done].
    apply elem_of_app. right. by apply list_elem_of_singleton.
Qed.

Lemma index_pass_legacy_free_gen its pre acc :
  legacy_free pre acc -> legacy_free (pre ++ its) (fold_left index_line its acc).
Proof.
  revert pre acc. induction its as [|l its IH]; intros pre acc Hacc;
    cbn [fold_left].
  - by rewrite app_nil_r.
  - replace (pre ++ l :: its) with ((pre ++ [l]) ++ its)
      by (by rewrite <- app_assoc).
    apply IH. by apply index_line_legacy_free.
Qed.

Lemma index_pass_legacy_free its :
  legacy_free its (fold_left index_line its (∅, [])).
Proof.
  apply (index_pass_legacy_free_gen its [] (∅, [])).
  intros e He. by apply elem_of_nil in He.
Qed.

Lemma paid_line_elem its l :
  l ∈ paid_lines its <-> l ∈ its /\ is_paid_line l = true.
Proof.
  unfold paid_lines. rewrite !list_elem_of_In. apply filter_In.
Qed.

Lemma is_paid_line_spec l :
  is_paid_line l = true <->
  truthy (get (snd l) "is_free_item") = false /\
  truthy (get (snd l) "auto_free_source") = false.
Proof.
  unfold is_paid_line. rewrite andb_true_iff, !negb_true_iff. done.
Qed.

(** The loop over the map leaves the paid lines where and as they are. *)
Lemma sync_loop_paid_kept c m :
  cart_wf c ->
  stale_kept (paid_lines (items c)) (smap_keys m) (sync_loop this c m).
Proof.
  intros Hwf. unfold sync_loop.
  pose proof (index_pass_ok (items c)) as Hok.
  pose proof (index_pass_legacy_free (items c)) as Hfree.
  destruct (fold_left index_line (items c) (∅, [])) as [existing legacy].
  destruct Hok as [Hex _]. unfold legacy_free in Hfree.
  cbn [fst snd] in Hex, Hfree.
  apply sync_entries_stale_kept.
  - split; [exact Hwf|]. cbn [st_cart st_existing st_legacy].
    split; [|split].
    + intros l Hl. by apply paid_line_elem in Hl as [Hl _].
    + intros k oid _ Hlook Hst.
      destruct (Hex k oid Hlook) as (o & Hin & Htag & Hne).
      apply list_elem_of_fmap in Hst as ([i o'] & -> & Hst).
      apply paid_line_elem in Hst as [Hin' Hpaid]. cbn [fst] in Hin.
      assert (o = o') as <- by (eapply NoDup_fst_eq; eauto; apply Hwf).
      apply is_paid_line_spec in Hpaid as [_ Hpaid]. cbn [snd] in Hpaid.
      rewrite Htag in Hpaid. apply truthy_VStr in Hne. congruence.
    + intros e He Hst.
      destruct (Hfree e He) as (o & Hin & Hf).
      apply list_elem_of_fmap in Hst as ([i o'] & Hi & Hst).
      apply paid_line_elem in Hst as [Hin' Hpaid]. cbn [fst] in Hi. subst i.
      assert (o = o') as <- by (eapply NoDup_fst_eq; eauto; apply Hwf).
      apply is_paid_line_spec in Hpaid as [Hpaid _]. cbn [snd] in Hpaid.
      congruence.
  - intros e He. unfold smap_keys. apply list_elem_of_fmap. by exists e.
Qed.

Lemma sync_paid_kept c m l :
  cart_wf c -> l ∈ items c -> is_paid_line l = true ->
  l ∈ items (_syncAutoFreeLines this c m).
Proof.
  intros Hwf Hin Hpaid.
  destruct (sync_loop_paid_kept c m Hwf) as (_ & Hkept & _).
  destruct (syncAutoFreeLines_items this c m) as (Hit & _).
  rewrite Hit. apply list_elem_of_In, filter_In. split.
  - apply list_elem_of_In, Hkept, paid_line_elem. done.
  - apply is_paid_line_spec in Hpaid as [_ Htag].
    unfold kept, stale_line. by rewrite Htag.
Qed.

End PaidLines.





(** ** The local pass *)

Lemma fields_of_elem (its : list line) oid o :
  NoDup (map fst its) -> (oid, o) ∈ its -> fields_of its oid = o.
Proof.
  intros Hnd Hin. unfold fields_of.
  destruct (List.find _ its) as [[i o']|] eqn:E.
  - apply find_some in E as [Hin' Hi]. cbn [fst] in Hi.
    apply Nat.eqb_eq in Hi. subst i. apply list_elem_of_In in Hin'.
    simpl. eapply NoDup_fst_eq; eauto.
  - exfalso. apply list_elem_of_In in Hin.
    pose proof (find_none _ _ E _ Hin) as Hf. cbn [fst] in Hf.
    by rewrite Nat.eqb_refl in Hf.
Qed.

Section LocalPassProperties.
Context `{Host}.
Variable this : Component.
Variables (ctx : obj) (indexes : IndexBundle).

(** What the loop of the local pass keeps of a pinned paid line [o]. *)
Lemma local_pricing_step_pinned ids0 oid o st i :
  map fst (fst st) = ids0 -> NoDup ids0 ->
  manually_set o ->
  (exists o', (oid, o') ∈ fst st /\ frame badge_keys o o') ->
  map fst (fst (local_pricing_step this ctx indexes st i)) = ids0 /\
  exists o', (oid, o') ∈ fst (local_pricing_step this ctx indexes st i) /\
             frame badge_keys o o'.
Proof.
  destruct st as [its fm]. cbn [fst]. intros Hids Hnd Hm (o' & Hin & Hfr).
  unfold local_pricing_step.
  destruct (truthy (get (fields_of its i) "is_free_item")); cbn [fst]; [eauto|].
  destruct (_applyPricingToLine this (fields_of its i) ctx indexes fm)
    as [item' fm'] eqn:E. cbn [fst].
  split; [by rewrite update_line_fst|].
  destruct (decide (i = oid)) as [->|Hne].
  - exists item'.
    split; [by apply (update_line_same oid (fun _ => item') its o')|].
    rewrite (fields_of_elem its oid o') in E by (by rewrite ?Hids).
    eapply frame_trans; [exact Hfr|].
    replace item' with (fst (_applyPricingToLine this o' ctx indexes fm))
      by (by rewrite E).
    apply applyPricingToLine_manual_frame.
    eapply manually_set_frame; [| |exact Hfr|exact Hm]; lit_mem.
  - exists o'. split; [|done]. apply update_line_other; [done|].
    cbn [fst]. congruence.
Qed.

Lemma local_pricing_loop_pinned ids0 oid o ids st :
  map fst (fst st) = ids0 -> NoDup ids0 ->
  manually_set o ->
  (exists o', (oid, o') ∈ fst st /\ frame badge_keys o o') ->
  map fst (fst (fold_left (local_pricing_step this ctx indexes) ids st)) = ids0 /\
  exists o', (oid, o') ∈ fst (fold_left (local_pricing_step this ctx indexes)
                                 ids st) /\
             frame badge_keys o o'.
Proof.
  revert st. induction ids as [|i ids IH]; intros st Hids Hnd Hm Hex;
    cbn [fold_left]; [eauto|].
  destruct (local_pricing_step_pinned ids0 oid o st i Hids Hnd Hm Hex)
    as [Hids' Hex'].
  by apply IH.
Qed.

End LocalPassProperties.



(** ** Manual rate overrides *)

Lemma defined_true v : v <> VUndef -> defined v = true.
Proof. unfold defined. by destruct v. Qed.

Lemma defined_false v : defined v = false -> v = VUndef.
Proof. unfold defined. by destruct v. Qed.

Lemma get_lookup (o : obj) k : get o k <> VUndef -> o !! k = Some (get o k).
Proof. unfold get. by destruct (o !! k). Qed.

Section ManualOverrideProperties.
Context `{Host}.
Variable this : Component.

Lemma get_set_defined_same k values item :
  defined (prop values k) = true ->
  get (set_defined k values item) k = prop values k.
Proof. intros Hd. unfold set_defined. rewrite Hd. apply get_insert_eq. Qed.

Lemma get_set_defined_other k k' values item :
  k <> k' -> get (set_defined k values item) k' = get item k'.
Proof.
  intros Hne. unfold set_defined.
  destruct (defined _); [by apply get_insert_ne|done].
Qed.

Lemma get_set_amount_other k rk k' values item :
  k <> k' -> get (set_amount this k rk values item) k' = get item k'.
Proof.
  intros Hne. unfold set_amount.
  destruct (defined _); [by apply get_insert_ne|].
  destruct (get item "qty") as [| | |q| | |]; try done.
  destruct (get item rk) as [| | |r| | |]; try done.
  by apply get_insert_ne.
Qed.

Lemma get_set_uom_other k' values item :
  "uom" <> k' -> get (set_uom values item) k' = get item k'.
Proof.
  intros Hne. unfold set_uom. destruct (truthy _); [by apply get_insert_ne|done].
Qed.

Lemma get_set_conversion_factor_other k' values item :
  "conversion_factor" <> k' ->
  get (set_conversion_factor values item) k' = get item k'.
Proof.
  intros Hne. unfold set_conversion_factor.
  destruct (negb _); [by apply get_insert_ne|done].
Qed.

(** Reads a field through the writes of [_assignManualOverrideValues] that
    go to other fields. *)
Ltac skip_writes :=
  repeat first
    [ rewrite get_set_amount_other by done
    | rewrite get_set_defined_other by done
    | rewrite get_set_uom_other by done
    | rewrite get_set_conversion_factor_other by done
    | rewrite get_insert_ne by done ].

Lemma assign_pins item (vals : obj) :
  manually_set (_assignManualOverrideValues this item (VObj vals)).
Proof.
  unfold _assignManualOverrideValues. cbn [truthy negb]. cbv zeta. split.
  - skip_writes. apply get_insert_eq.
  - skip_writes. by rewrite get_insert_eq.
Qed.

Lemma assign_writes item (vals : obj) k :
  k ∈ override_rate_keys -> get vals k <> VUndef ->
  get (_assignManualOverrideValues this item (VObj vals)) k = get vals k.
Proof.
  intros Hk Hd. apply defined_true in Hd.
  unfold _assignManualOverrideValues. cbn [truthy negb]. cbv zeta.
  unfold override_rate_keys in Hk.
  rewrite !elem_of_cons, elem_of_nil in Hk.
  destruct Hk as [->|[->|[->|[->|[->|[->|[->|[]]]]]]]];
    skip_writes; by rewrite get_set_defined_same.
Qed.

End ManualOverrideProperties.

(** X13: [_assignManualOverrideValues] pins the line it writes to, gives
    each of the seven rate fields the value of the override wherever the
    override defines one, and the value is still there after
    [_applyPricingToLine] has run over the line. *)
Theorem assigned_override_survives `{Host} (this : Component) (item vals : obj) :
  manually_set (_assignManualOverrideValues this item (VObj vals)) /\
  (forall k, k ∈ override_rate_keys -> get vals k <> VUndef ->
     get (_assignManualOverrideValues this item (VObj vals)) k = get vals k) /\
  (forall ctx indexes fm k, k ∈ manual_protected -> get vals k <> VUndef ->
     get (fst (_applyPricingToLine this
                 (_assignManualOverrideValues this item (VObj vals))
                 ctx indexes fm)) k = get vals k).
Proof.
  split; [apply assign_pins|]. split; [apply assign_writes|].
  intros ctx indexes fm k Hk Hd.
  rewrite applyPricingToLine_manual_frame.
  - apply assign_writes; [|done]. unfold manual_protected in Hk.
    rewrite !elem_of_cons, elem_of_nil in Hk.
    destruct Hk as [->|[->|[->|[->|[->|[]]]]]]; lit_mem.
  - apply assign_pins.
  - by apply protected_not_badge.
Qed.

Lemma assigned_override_survives_witness :
  get (fst (_applyPricingToLine test_component
              (_assignManualOverrideValues test_component margin_item
                 (VObj cleaner_values)) ∅ margin_indexes [])) "rate" = vnum 100.
Proof.
  refine (proj2 (proj2 (assigned_override_survives test_component margin_item
                          cleaner_values)) ∅ margin_indexes [] "rate" _ _).
  - lit_mem.
  - discriminate.
Defined.

Lemma strict_eq_refl v : primitive v -> truthy v = true -> strict_eq v v = true.
Proof.
  destruct v as [| |b|[q| | |]|s| |]; simpl; try done.
  - by destruct b.
  - intros _ _. by apply Qeq_bool_iff.
  - intros _ _. apply String.eqb_refl.
Qed.

Lemma strict_eq_or_null v :
  primitive v -> strict_eq (or_ v VNull) (or_ v VNull) = true.
Proof.
  intros Hp. unfold or_. destruct (truthy v) eqn:E; [|done].
  by apply strict_eq_refl.
Qed.

Lemma or_null_truthy v : truthy (or_ v VNull) = truthy v.
Proof. unfold or_. by destruct (truthy v) eqn:E. Qed.

Lemma or_null_of_truthy v : truthy v = true -> or_ v VNull = v.
Proof. unfold or_. by intros ->. Qed.

Lemma or_null_idem v : or_ (or_ v VNull) VNull = or_ v VNull.
Proof. unfold or_. by destruct (truthy v) eqn:E; rewrite ?E. Qed.

Lemma has_identity_object item : has_identity item -> exists o, item = VObj o.
Proof.
  destruct item; try (intros [?|[?|?]]; done). eauto.
Qed.

Section OverrideMatching.
Context `{Host}.

(** An override whose keys were read off a line matches that line. *)
Lemma own_keys_match (override item : value) (ks : obj) :
  prop override "keys" = VObj ks ->
  has_identity item -> identity_primitive item ->
  get ks "name" = or_ (prop item "name") VNull ->
  get ks "posa_row_id" = or_ (prop item "posa_row_id") VNull ->
  get ks "item_code" = or_ (prop item "item_code") VNull ->
  get ks "batch_no" = or_ (prop item "batch_no") VNull ->
  get ks "serial_no" = or_ (prop item "serial_no") VNull ->
  (get ks "idx" = VNull \/ get ks "idx" = idx_number item) ->
  (get ks "is_free_item" = VUndef \/
   (get ks "is_free_item" = vnum 1 /\ item_is_free item = true)) ->
  (truthy (get ks "auto_free_source") = false \/
   strict_eq (item_source item) (get ks "auto_free_source") = true) ->
  (truthy (get ks "parent_row_id") = false \/
   strict_eq (or_ (prop item "parent_row_id") VNull) (get ks "parent_row_id")
     = true) ->
  (truthy (get ks "source_rule") = false \/
   strict_eq (normalized_rule item) (get ks "source_rule") = true) ->
  _doesManualOverrideMatchItem override item = true.
Proof.
  intros Hks Hid (Pn & Pr & Pc & Pb & Ps) Hn Hr Hc Hb Hs Hi Hf Ha Hp Hsr.
  destruct (has_identity_object item Hid) as [o ->].
  unfold _doesManualOverrideMatchItem. rewrite Hks. cbn [truthy negb orb prop].
  cbv zeta. cbn [prop] in *.
  assert ((negb (nullish (get ks "is_free_item")) &&
           negb (Bool.eqb (coerce (get ks "is_free_item"))
                          (item_is_free (VObj o)))) = false) as ->.
  { destruct Hf as [->|[-> ->]]; done. }
  assert ((truthy (get ks "auto_free_source") &&
           truthy (item_source (VObj o)) &&
           negb (strict_eq (item_source (VObj o)) (get ks "auto_free_source")))
          = false) as ->.
  { destruct Ha as [->| ->]; [done|]. cbn [negb]. by rewrite andb_false_r. }
  assert ((truthy (get ks "parent_row_id") &&
           truthy (or_ (get o "parent_row_id") VNull) &&
           negb (strict_eq (or_ (get o "parent_row_id") VNull)
                           (get ks "parent_row_id"))) = false) as ->.
  { destruct Hp as [->| ->]; [done|]. cbn [negb]. by rewrite andb_false_r. }
  assert ((truthy (get ks "source_rule") && truthy (normalized_rule (VObj o)) &&
           negb (strict_eq (normalized_rule (VObj o)) (get ks "source_rule")))
          = false) as ->.
  { destruct Hsr as [->| ->]; [done|]. cbn [negb]. by rewrite andb_false_r. }
  rewrite Hn, Hr, Hc, Hb, Hs, !or_null_truthy, !or_null_idem.
  destruct (truthy (get o "name")) eqn:En.
  { rewrite (or_null_of_truthy _ En), strict_eq_refl by done. done. }
  destruct (truthy (get o "posa_row_id")) eqn:Er.
  { rewrite (or_null_of_truthy _ Er), strict_eq_refl by done. done. }
  cbn [andb].
  assert (truthy (get o "item_code") = true) as Ec
    by (destruct Hid as [?|[?|?]]; cbn [prop] in *; congruence).
  rewrite Ec, (or_null_of_truthy _ Ec), strict_eq_refl by done. cbn [andb].
  rewrite !strict_eq_or_null by done. cbn [andb].
  by destruct (_ && _ && _).
Qed.

Lemma collect_keys_identity item k :
  k ∈ ["name"; "posa_row_id"; "item_code"; "idx"; "batch_no"; "serial_no"]
  -> get (collect_keys item) k = get (identity_keys item (idx_number item)) k.
Proof.
  intros Hk. unfold collect_keys. cbv zeta.
  rewrite !elem_of_cons, elem_of_nil in Hk.
  destruct Hk as [->|[->|[->|[->|[->|[->|[]]]]]]];
    repeat match goal with
           | |- context [if ?b then _ else _] => destruct b
           end; reflexivity.
Qed.

Lemma collect_keys_free item :
  get (collect_keys item) "is_free_item" =
    (if _isFreeLine item then vnum 1 else VUndef) /\
  get (collect_keys item) "auto_free_source" =
    (if _isFreeLine item && truthy (prop item "auto_free_source")
     then prop item "auto_free_source" else VUndef) /\
  get (collect_keys item) "parent_row_id" =
    (if _isFreeLine item && truthy (prop item "parent_row_id")
     then prop item "parent_row_id" else VUndef) /\
  get (collect_keys item) "source_rule" =
    (if _isFreeLine item && truthy (normalized_rule item)
     then normalized_rule item else VUndef).
Proof.
  unfold collect_keys. cbv zeta.
  destruct (_isFreeLine item), (truthy (prop item "auto_free_source")),
    (truthy (prop item "parent_row_id")), (truthy (normalized_rule item));
    repeat split; reflexivity.
Qed.

End OverrideMatching.

(** X14: an override [_collectManualRateOverrides] builds from a line that
    has a name, a row id or an item code matches that very line in
    [_doesManualOverrideMatchItem], provided the fields compared hold
    primitives and the tag of a free line is a string. *)
Theorem collected_override_matches_its_line `{Host} (item : value) :
  has_identity item -> identity_primitive item -> free_identity_primitive item ->
  _doesManualOverrideMatchItem (collect_override item) item = true.
Proof.
  intros Hid Hp (Ha & Hpr & Hr).
  destruct (collect_keys_free item) as (Ef & Ea & Epr & Er).
  apply (own_keys_match _ _ (collect_keys item)); try done;
    try (rewrite collect_keys_identity by lit_mem; reflexivity).
  - right. rewrite collect_keys_identity by lit_mem. reflexivity.
  - rewrite Ef. destruct (_isFreeLine item) eqn:E; [right|by left].
    split; [done|]. unfold item_is_free. by rewrite E.
  - rewrite Ea. destruct (_isFreeLine item); [|by left].
    destruct (truthy (prop item "auto_free_source")) eqn:E; [|by left].
    right. destruct (Ha eq_refl) as [s Hs]. unfold item_source.
    rewrite Hs in *. cbn [filled_string andb]. rewrite E.
    by apply strict_eq_refl.
  - rewrite Epr. destruct (_isFreeLine item); [|by left].
    destruct (truthy (prop item "parent_row_id")) eqn:E; [|by left].
    right. cbn [andb]. rewrite (or_null_of_truthy _ E).
    by apply strict_eq_refl.
  - rewrite Er. destruct (_isFreeLine item); [|by left].
    destruct (truthy (normalized_rule item)) eqn:E; [|by left].
    right. by apply strict_eq_refl.
Qed.

Lemma collected_override_matches_its_line_witness :
  _doesManualOverrideMatchItem (collect_override cleaner_free) cleaner_free = true.
Proof.
  apply (collected_override_matches_its_line cleaner_free).
  - left. reflexivity.
  - exact (conj I (conj I (conj I (conj I I)))).
  - split; [|split]; [|exact I|exact I].
    intros _. by eexists.
Defined.

(** X15: an override collected from a free line never matches a line that
    is not free, unless the two lines carry the same name or the same row
    id: sharing the item code is not enough. *)
Theorem free_override_skips_paid_line `{Host} (src dst : value) :
  _isFreeLine src = true -> item_is_free dst = false ->
  same_field "name" src dst = false ->
  same_field "posa_row_id" src dst = false ->
  _doesManualOverrideMatchItem (collect_override src) dst = false.
Proof.
  intros Hfree Hpaid Hname Hrow.
  destruct (collect_keys_free src) as (Ef & _). rewrite Hfree in Ef.
  unfold _doesManualOverrideMatchItem.
  change (prop (collect_override src) "keys") with (VObj (collect_keys src)).
  cbn [truthy negb orb prop]. cbv zeta.
  destruct (truthy dst) eqn:Ed; [|done]. cbn [negb].
  rewrite !(collect_keys_identity src) by lit_mem.
  change (get (identity_keys src (idx_number src)) "name")
    with (or_ (prop src "name") VNull).
  change (get (identity_keys src (idx_number src)) "posa_row_id")
    with (or_ (prop src "posa_row_id") VNull).
  assert (forall k, truthy (or_ (prop src k) VNull) && truthy (prop dst k) &&
                    strict_eq (or_ (prop src k) VNull) (prop dst k) =
                    same_field k src dst) as Hsame.
  { intros k. unfold same_field. rewrite or_null_truthy.
    destruct (truthy (prop src k)) eqn:E; [|done].
    by rewrite (or_null_of_truthy _ E). }
  rewrite !Hsame, Hname, Hrow, Ef, Hpaid. done.
Qed.

Lemma free_override_skips_paid_line_witness :
  _doesManualOverrideMatchItem (collect_override cleaner_free) cleaner_paid
  = false.
Proof.
  apply (free_override_skips_paid_line cleaner_free cleaner_paid); reflexivity.
Defined.

Lemma splice_out_elem {A} i (l : list A) x : x ∈ splice_out i l -> x ∈ l.
Proof.
  unfold splice_out. rewrite elem_of_app. intros [Hx|Hx].
  - rewrite <- (take_drop i l). apply elem_of_app. by left.
  - rewrite <- (take_drop (S i) l). apply elem_of_app. by right.
Qed.

Lemma findIndex_None {A} (p : A -> bool) l :
  (forall x, x ∈ l -> p x = false) -> findIndex p l = None.
Proof.
  induction l as [|y l IH]; intros Hall; simpl; [done|].
  rewrite (Hall y) by (apply elem_of_cons; by left).
  rewrite IH; [done|]. intros x Hx. apply Hall, elem_of_cons. by right.
Qed.

Lemma strict_eq_truthy a b : strict_eq a b = true -> truthy a = truthy b.
Proof.
  intros E. apply svz_truthy. unfold svz.
  destruct a as [| |x|[x| | |]|x|x|x], b as [| |y|[y| | |]|y|y|y]; done.
Qed.

Section OverrideApplication.
Context `{Host}.
Variable this : Component.

Lemma override_step_inv ovs st item :
  (forall ov, ov ∈ snd st -> ov ∈ ovs) ->
  (forall ov, ov ∈ snd (override_step this st item) -> ov ∈ ovs) /\
  exists item', fst (override_step this st item) = fst st ++ [item'] /\
                untouched ovs item item'.
Proof.
  destruct st as [done remaining]. cbn [fst snd]. intros Hsub.
  unfold override_step.
  destruct (negb (truthy item) || (length remaining =? 0)%nat); cbn [fst snd].
  { split; [done|]. by exists item. }
  destruct (findIndex _ remaining) as [index|] eqn:E; cbn [fst snd].
  - split.
    + intros ov Hov. apply Hsub. by eapply splice_out_elem.
    + eexists. split; [reflexivity|]. intros Hno.
      destruct (findIndex_Some _ _ _ E) as (ov & Hlook & Hm).
      rewrite Hno in Hm; [done|]. apply Hsub. by eapply list_elem_of_lookup_2.
  - split; [done|]. by exists item.
Qed.

Lemma override_steps_inv ovs its st :
  (forall ov, ov ∈ snd st -> ov ∈ ovs) ->
  exists its', fst (fold_left (override_step this) its st) = fst st ++ its' /\
               Forall2 (untouched ovs) its its'.
Proof.
  revert st. induction its as [|item its IH]; intros st Hsub; cbn [fold_left].
  - exists []. by rewrite app_nil_r.
  - destruct (override_step_inv ovs st item Hsub) as (Hsub' & item' & E & Hu).
    destruct (IH _ Hsub') as (its' & E' & Hall).
    exists (item' :: its'). split; [|by constructor].
    rewrite E', E, <- app_assoc. done.
Qed.

End OverrideApplication.

(** X16: [_applyManualRateOverridesToDoc] keeps the number and the order of
    the items of the document, and an item that none of the overrides
    matches comes out as it went in. *)
Theorem overrides_touch_only_matching_items `{Host} (this : Component)
  (d : obj) (its ovs : list value) :
  get d "items" = VArr its ->
  exists its',
    _applyManualRateOverridesToDoc this (VObj d) (VArr ovs) =
      VObj (<["items" := VArr its']> d) /\
    length its' = length its /\
    forall i item, its !! i = Some item ->
      (forall ov, ov ∈ ovs -> _doesManualOverrideMatchItem ov item = false) ->
      its' !! i = Some item.
Proof.
  intros Hits. unfold _applyManualRateOverridesToDoc.
  destruct ovs as [|ov ovs].
  - exists its. split; [|done]. f_equal. symmetry. apply insert_id.
    rewrite <- Hits. apply get_lookup. by rewrite Hits.
  - rewrite Hits.
    destruct (override_steps_inv this (ov :: ovs) its ([], ov :: ovs))
      as (its' & E & Hall); [done|].
    cbn [fst app] in E. rewrite E. exists its'. split; [done|]. split.
    + symmetry. by eapply Forall2_length.
    + intros i item Hi Hno.
      destruct (Forall2_lookup_l _ _ _ _ _ Hall Hi) as (item' & Hi' & Hu).
      by rewrite (Hu Hno) in Hi'.
Qed.

Lemma overrides_touch_only_matching_items_witness :
  exists its',
    _applyManualRateOverridesToDoc test_component (VObj cleaner_doc)
      (VArr [collect_override cleaner_free]) =
      VObj (<["items" := VArr its']> cleaner_doc) /\
    length its' = length [cleaner_paid; cleaner_free] /\
    forall i item, [cleaner_paid; cleaner_free] !! i = Some item ->
      (forall ov, ov ∈ [collect_override cleaner_free] ->
                  _doesManualOverrideMatchItem ov item = false) ->
      its' !! i = Some item.
Proof.
  apply (overrides_touch_only_matching_items test_component cleaner_doc
           [cleaner_paid; cleaner_free] [collect_override cleaner_free]).
  reflexivity.
Defined.

(** *** Snapshots *)

Lemma frame_set_same ks (o item : obj) k :
  frame ks o item -> frame ks o (<[k := get o k]> item).
Proof.
  intros Hf k' Hk'. destruct (decide (k = k')) as [->|Hne].
  - apply get_insert_eq.
  - rewrite get_insert_ne by done. by apply Hf.
Qed.

Section SnapshotProperties.
Context `{Host}.
Variable this : Component.

Lemma frame_set_defined_own ks (o item : obj) k vals :
  prop vals k = get o k -> frame ks o item ->
  frame ks o (set_defined k vals item).
Proof.
  intros E Hf. unfold set_defined. destruct (defined _); [|done].
  rewrite E. by apply frame_set_same.
Qed.

Lemma frame_set_amount_own ks (o item : obj) k rk vals :
  k ∈ ks -> prop vals k = get o k -> frame ks o item ->
  frame ks o (set_amount this k rk vals item).
Proof.
  intros Hk E Hf. unfold set_amount. destruct (defined _).
  - rewrite E. by apply frame_set_same.
  - destruct (get item "qty") as [| | |q| | |]; try done.
    destruct (get item rk) as [| | |r| | |]; try done.
    by apply frame_insert_r.
Qed.

Lemma get_set_amount_own (o item : obj) k rk vals :
  prop vals k = get o k -> get o k <> VUndef ->
  get (set_amount this k rk vals item) k = get o k.
Proof.
  intros E Hd. unfold set_amount. rewrite E, (defined_true _ Hd).
  apply get_insert_eq.
Qed.

(** Restoring the values read off a line onto that line. *)
Lemma assign_own_values (o : obj) :
  restored_line o
    (_assignManualOverrideValues this o (VObj (override_values (VObj o)))).
Proof.
  unfold _assignManualOverrideValues. cbn [truthy negb]. cbv zeta.
  set (vals := VObj (override_values (VObj o))).
  split; [|split].
  - apply frame_set_amount_own; [lit_mem|reflexivity|].
    apply frame_set_amount_own; [lit_mem|reflexivity|].
    do 7 (apply frame_set_defined_own; [reflexivity|]).
    unfold set_conversion_factor, set_uom.
    change (prop vals "conversion_factor") with (get o "conversion_factor").
    change (prop vals "uom") with (get o "uom").
    destruct (negb (nullish _)), (truthy (get o "uom"));
      repeat (apply frame_set_same); frame_inserts.
  - intros Hd. rewrite get_set_amount_other by done.
    by apply get_set_amount_own.
  - intros Hd. by apply get_set_amount_own.
Qed.

Lemma restore_line_own ks b u (o : obj) :
  restored_line o
    (restore_line this
       (VObj {[ "keys" := ks; "preserveRate" := VBool b;
                "preserveUom" := VBool u;
                "values" := VObj (override_values (VObj o)) ]}) o).
Proof.
  unfold restore_line.
  match goal with
  | |- context [prop ?s "values"] =>
      change (prop s "values") with (VObj (override_values (VObj o)));
      change (prop s "preserveRate") with (VBool b);
      change (prop s "preserveUom") with (VBool u)
  end.
  cbv zeta. change (or_ (VObj ?m) _) with (VObj m). cbn [truthy].
  destruct b; [apply assign_own_values|].
  destruct u.
  - set (vals := VObj (override_values (VObj o))).
    change (prop vals "conversion_factor") with (get o "conversion_factor").
    change (prop vals "uom") with (get o "uom").
    split; [|split].
    + apply frame_set_amount_own; [lit_mem|reflexivity|].
      apply frame_set_amount_own; [lit_mem|reflexivity|].
      destruct (defined (get o "conversion_factor") && _),
               (defined (get o "uom"));
        repeat (apply frame_set_same); apply frame_refl.
    + intros Hd. rewrite get_set_amount_other by done.
      by apply get_set_amount_own.
    + intros Hd. by apply get_set_amount_own.
  - split; [apply frame_refl|done].
Qed.

(** A line without name, row id and item code matches no override. *)
Lemma anonymous_no_match override item :
  truthy (prop item "name") = false ->
  truthy (prop item "posa_row_id") = false ->
  truthy (prop item "item_code") = false ->
  _doesManualOverrideMatchItem override item = false.
Proof.
  intros En Er Ec. unfold _doesManualOverrideMatchItem. cbv zeta.
  rewrite En, Er, !andb_false_r.
  destruct (strict_eq (prop item "item_code") _) eqn:E.
  - apply strict_eq_truthy in E. rewrite Ec in E. rewrite <- E. cbn [andb].
    repeat match goal with
           | |- context [if ?b then _ else _] => destruct b
           end; done.
  - rewrite andb_false_r. cbn [andb].
    repeat match goal with
           | |- context [if ?b then _ else _] => destruct b
           end; done.
Qed.

Lemma build_key_cases item :
  (snapshot_of item = VNull /\
   (truthy item = false \/
    (truthy (prop item "name") = false /\
     truthy (prop item "posa_row_id") = false /\
     truthy (prop item "item_code") = false))) \/
  (has_identity item /\
   exists idx b u,
     (idx = VNull \/ idx = idx_number item) /\
     snapshot_of item =
       VObj {[ "keys" := VObj (identity_keys item idx);
               "preserveRate" := VBool b; "preserveUom" := VBool u;
               "values" := VObj (override_values item) ]}).
Proof.
  unfold snapshot_of, _buildManualOverrideKeyFromItem. cbv zeta.
  destruct (truthy item) eqn:Et; cbn [negb]; [|left; split; [done|by left]].
  destruct (truthy (prop item "name")) eqn:En,
           (truthy (prop item "posa_row_id")) eqn:Er,
           (truthy (prop item "item_code")) eqn:Ec; cbn [negb andb truthy];
    try (left; split; [done|right; done]);
    (right; split; [unfold has_identity; rewrite En, Er, Ec; tauto|]);
    eexists _, _, _; (split; [|reflexivity]);
    unfold idx_number; destruct (nullish (prop item "idx")); cbn [negb andb];
    try (by left); (destruct (is_nan _); cbn [negb]; [by left|by right]).
Qed.

Lemma own_snapshot_matches item idx b u vals :
  has_identity item -> identity_primitive item ->
  (idx = VNull \/ idx = idx_number item) ->
  _doesManualOverrideMatchItem
    (VObj {[ "keys" :=
               prop (VObj {[ "keys" := VObj (identity_keys item idx);
                             "preserveRate" := VBool b;
                             "preserveUom" := VBool u;
                             "values" := vals ]}) "keys" ]}) item = true.
Proof.
  intros Hid Hp Hidx.
  apply (own_keys_match _ _ (identity_keys item idx)); try done.
  - by left.
  - by left.
  - by left.
  - by left.
Qed.

Lemma restore_own_snapshots l processed :
  Forall identity_primitive l ->
  exists l',
    fold_left (restore_step this) l (processed, own_snapshots l) =
      (processed ++ l', []) /\
    Forall2 restored l l'.
Proof.
  intros Hall. revert processed.
  induction Hall as [|item l Hp Hall IH]; intros processed; cbn [fold_left].
  - exists []. by rewrite app_nil_r.
  - unfold own_snapshots. cbn [map List.filter]. fold (own_snapshots l).
    destruct (build_key_cases item)
      as [[-> Hanon]|(Hid & idx & b & u & Hidx & ->)]; cbn [strict_eq negb].
    + assert (restore_step this (processed, own_snapshots l) item =
              (processed ++ [item], own_snapshots l)) as ->.
      { unfold restore_step.
        destruct Hanon as [->|(En & Er & Ec)]; [done|].
        destruct (negb (truthy item) || _); [done|].
        rewrite findIndex_None; [done|].
        intros s _. by apply anonymous_no_match. }
      destruct (IH (processed ++ [item])) as (l' & E & Hr).
      exists (item :: l'). rewrite E, <- app_assoc. split; [done|].
      constructor; [by left|done].
    + destruct (has_identity_object item Hid) as [o ->].
      set (s := VObj _).
      assert (restore_step this (processed, s :: own_snapshots l) (VObj o) =
              (processed ++ [VObj (restore_line this s o)], own_snapshots l))
        as ->.
      { unfold restore_step. cbn [truthy negb orb length Nat.eqb findIndex].
        unfold s at 1.
        rewrite own_snapshot_matches by done. done. }
      destruct (IH (processed ++ [VObj (restore_line this s o)]))
        as (l' & E & Hr).
      exists (VObj (restore_line this s o) :: l').
      rewrite E, <- app_assoc. split; [done|].
      constructor; [|done]. right. exists o, (restore_line this s o).
      split; [done|]. split; [done|]. apply restore_line_own.
Qed.

End SnapshotProperties.

(** X17: restoring the snapshots [_snapshotManualValuesFromDocItems] took
    of a list of items onto those very items gives every item its own
    snapshot and changes no rate, discount, unit or quantity: an item
    comes out as it went in, or pinned, or with an amount filled in that
    was missing.  The fields the items are recognised by hold
    primitives. *)
Theorem snapshot_restore_round_trip `{Host} (this : Component) (l : list value) :
  Forall identity_primitive l ->
  exists l',
    _restoreManualSnapshots this (VArr l)
      (VArr (_snapshotManualValuesFromDocItems (VArr l))) = VArr l' /\
    Forall2 restored l l'.
Proof.
  intros Hall. unfold _restoreManualSnapshots, _snapshotManualValuesFromDocItems.
  fold (own_snapshots l).
  destruct (restore_own_snapshots this l [] Hall) as (l' & E & Hr).
  destruct (own_snapshots l) as [|s ss] eqn:Es.
  - exists l. split; [done|]. clear. induction l; constructor; [by left|done].
  - exists l'. rewrite E. done.
Qed.

Lemma snapshot_restore_round_trip_witness :
  exists l',
    _restoreManualSnapshots test_component (VArr [cleaner_paid; cleaner_free])
      (VArr (_snapshotManualValuesFromDocItems
               (VArr [cleaner_paid; cleaner_free]))) = VArr l' /\
    Forall2 restored [cleaner_paid; cleaner_free] l'.
Proof.
  apply (snapshot_restore_round_trip test_component).
  apply Forall_cons_2; [exact (conj I (conj I (conj I (conj I I))))|].
  apply Forall_cons_2; [exact (conj I (conj I (conj I (conj I I))))|].
  apply Forall_nil_2.
Defined.

(** ** The stock cache *)

(** X18: a quantity stored in the stock cache is returned by every lookup
    of its key made within 5000 ms, which leaves the cache as it is; the
    first lookup made later returns [null] and drops the entry, so that
    every lookup after it returns [null] too. *)
Theorem stock_cache_freshness `{Host} (now now' : Z) (key qty : value)
  (cache : stock_cache) :
  truthy key = true ->
  ((now' - now <= STOCK_CACHE_TTL)%Z ->
   _getCachedStockQty now' key (_storeStockQty now key qty cache) =
     (qty, _storeStockQty now key qty cache)) /\
  ((STOCK_CACHE_TTL < now' - now)%Z ->
   fst (_getCachedStockQty now' key (_storeStockQty now key qty cache)) = VNull /\
   forall now'',
     fst (_getCachedStockQty now'' key
            (snd (_getCachedStockQty now' key
                    (_storeStockQty now key qty cache)))) = VNull).
Proof.
  intros Hkey. unfold _getCachedStockQty, _storeStockQty.
  rewrite Hkey. cbn [negb]. rewrite lookup_insert_eq. cbn [se_ts se_qty].
  split.
  - intros Hfresh. by rewrite (proj2 (Z.ltb_ge _ _) Hfresh).
  - intros Hstale. rewrite (proj2 (Z.ltb_lt _ _) Hstale). cbn [fst snd].
    split; [done|]. intros now''. by rewrite lookup_delete_eq.
Qed.

Lemma stock_cache_freshness_witness :
  _getCachedStockQty 4000
    (_getStockCacheKey VUndef stock_item)
    (_storeStockQty 1000 (_getStockCacheKey VUndef stock_item) (vnum 7) None) =
  (vnum 7,
   _storeStockQty 1000 (_getStockCacheKey VUndef stock_item) (vnum 7) None).
Proof.
  refine (proj1 (stock_cache_freshness 1000 4000
                   (_getStockCacheKey VUndef stock_item) (vnum 7) None _) _).
  - reflexivity.
  - unfold STOCK_CACHE_TTL. lia.
Defined.

(** X19: storing a quantity under one key of the stock cache does not
    change what a lookup of any other key returns, and storing under an
    empty key does nothing. *)
Theorem stock_cache_keys_independent `{Host} (now now' : Z) (key key' qty : value)
  (cache : stock_cache) :
  (truthy key = false -> _storeStockQty now key qty cache = cache) /\
  (to_string key <> to_string key' ->
   fst (_getCachedStockQty now' key' (_storeStockQty now key qty cache)) =
   fst (_getCachedStockQty now' key' cache)).
Proof.
  split.
  - intros Hkey. unfold _storeStockQty. by rewrite Hkey.
  - intros Hne. unfold _getCachedStockQty, _storeStockQty.
    destruct (truthy key'); [|done]. destruct (truthy key); [|done].
    cbn [negb]. rewrite lookup_insert_ne by done.
    destruct cache as [entries|]; cbn [default from_option id].
    + destruct (entries !! to_string key') as [entry|]; [|done].
      by destruct (STOCK_CACHE_TTL <? now' - se_ts entry)%Z.
    + rewrite lookup_empty. done.
Qed.

Lemma stock_cache_keys_independent_witness :
  fst (_getCachedStockQty 0 (vstr "B::Stores")
         (_storeStockQty 0 (vstr "A::Stores") (vnum 1) None)) =
  fst (_getCachedStockQty 0 (vstr "B::Stores") None).
Proof.
  refine (proj2 (stock_cache_keys_independent 0 0 (vstr "A::Stores")
                   (vstr "B::Stores") (vnum 1) None) _).
  discriminate.
Defined.

(** ** Price-list rates *)

Lemma manually_set_tests item :
  manually_set item ->
  strict_eq (get item "_manual_rate_set") (VBool true) &&
  negb (strict_eq (get item "_manual_rate_set_from_uom") (VBool true)) = true.
Proof.
  intros [-> Hu]. simpl.
  destruct (get item "_manual_rate_set_from_uom") as [| |[]| | | |]; done.
Qed.

Lemma recompute_amount_frame `{Host} (this : Component) ks k rk item item0 :
  k ∈ ks -> frame ks item0 item ->
  frame ks item0 (recompute_amount this k rk item).
Proof.
  intros Hk Hf. unfold recompute_amount.
  destruct (get item "qty") as [| | |q| | |]; try done.
  destruct (get item rk) as [| | |r| | |]; try done.
  by apply frame_insert_r.
Qed.

(** X20: on a line the user pinned, [_applyPriceListRate] writes neither
    [rate] nor [base_rate]: it changes nothing but the price-list rates,
    the amounts and the record of the original rate and currency. *)
Theorem price_list_rate_keeps_manual_rate `{Host} (this : Component)
  (cur : Currencies) (item : obj) (newRate priceCurrency : value) :
  manually_set item ->
  frame pinned_price_keys item
    (_applyPriceListRate this cur item newRate priceCurrency).
Proof.
  intros Hm. unfold _applyPriceListRate. cbv zeta.
  rewrite (manually_set_tests _ Hm). cbn [negb andb].
  apply recompute_amount_frame; [lit_mem|].
  apply recompute_amount_frame; [lit_mem|].
  repeat match goal with
         | |- frame _ _ (if ?b then _ else _) => destruct b
         | |- frame _ _ (<[_ := _]> _) => apply frame_insert_r; [lit_mem|]
         end; apply frame_refl.
Qed.

Lemma price_list_rate_keeps_manual_rate_witness :
  frame pinned_price_keys manual_item
    (_applyPriceListRate test_component usd_only manual_item (vnum 80) VUndef).
Proof.
  apply (price_list_rate_keeps_manual_rate test_component usd_only manual_item).
  split; [reflexivity|discriminate].
Defined.

(** X21: [_applyPriceListRate] records the original rate and currency of a
    line once: a line that already has an [original_rate] and a truthy
    [original_currency] keeps both. *)
Theorem original_rate_recorded_once `{Host} (this : Component) (cur : Currencies)
  (item : obj) (newRate priceCurrency : value) :
  nullish (get item "original_rate") = false ->
  truthy (get item "original_currency") = true ->
  get (_applyPriceListRate this cur item newRate priceCurrency) "original_rate"
    = get item "original_rate" /\
  get (_applyPriceListRate this cur item newRate priceCurrency)
      "original_currency" = get item "original_currency".
Proof.
  intros Hr Hc.
  assert (frame ["base_price_list_rate"; "base_rate"; "price_list_rate"; "rate";
                 "amount"; "base_amount"] item
            (_applyPriceListRate this cur item newRate priceCurrency)) as Hf.
  { unfold _applyPriceListRate. cbv zeta. rewrite Hc. cbn [negb]. rewrite Hr.
    apply recompute_amount_frame; [lit_mem|].
    apply recompute_amount_frame; [lit_mem|].
    repeat match goal with
           | |- frame _ _ (if ?b then _ else _) => destruct b
           | |- frame _ _ (<[_ := _]> _) => apply frame_insert_r; [lit_mem|]
           end; apply frame_refl. }
  split; apply Hf; lit_mem.
Qed.

Lemma original_rate_recorded_once_witness :
  get (_applyPriceListRate test_component usd_only recorded_item (vnum 80)
         (vstr "EUR")) "original_rate" = vnum 100 /\
  get (_applyPriceListRate test_component usd_only recorded_item (vnum 80)
         (vstr "EUR")) "original_currency" = vstr "USD".
Proof.
  apply (original_rate_recorded_once test_component usd_only recorded_item);
    reflexivity.
Defined.

(** ** The rule store *)

Lemma sort_insert_elem_of cmp x l y :
  y ∈ sort_insert cmp x l <-> y = x \/ y ∈ l.
Proof.
  split; [apply sort_insert_elem|].
  induction l as [|z l IH]; simpl.
  - intros [->|Hy]; [by apply list_elem_of_singleton|by apply elem_of_nil in Hy].
  - destruct (lt (cmp z x) (Fin 0)).
    + rewrite !elem_of_cons. intros [->|[->|Hy]]; auto.
    + rewrite !elem_of_cons. tauto.
Qed.

Lemma sort_by_elem_of cmp l y : y ∈ sort_by cmp l <-> y ∈ l.
Proof.
  induction l as [|x l IH]; simpl; [done|].
  rewrite sort_insert_elem_of, elem_of_cons, IH. done.
Qed.

Lemma svz_VStr v k : svz v (VStr k) <-> v = VStr k.
Proof.
  unfold svz. split; [|intros ->; simpl; apply String.eqb_refl].
  destruct v as [| | |[]|s| |]; simpl; try done.
  intros E. apply String.eqb_eq in E. by subst.
Qed.

Section RuleStoreProperties.
Context `{Host}.

Lemma string_keyed_lookup m k :
  string_keyed m !! k = vmap_get m (VStr k).
Proof.
  unfold vmap_get. induction m as [|[key b] m IH]; simpl; [done|].
  destruct (same_value_zero key (VStr k)) eqn:E.
  - apply (proj1 (svz_VStr key k)) in E. subst key.
    by rewrite lookup_insert_eq.
  - destruct key as [| | | |s| |]; try exact IH.
    rewrite lookup_insert_ne; [exact IH|].
    intros ->. simpl in E. by rewrite String.eqb_refl in E.
Qed.

Lemma sort_buckets_get m key :
  vmap_get (sort_buckets m) key = sort_by compareRules <$> vmap_get m key.
Proof.
  unfold vmap_get, sort_buckets.
  induction m as [|[k b] m IH]; simpl; [done|].
  destruct (same_value_zero k key); [done|exact IH].
Qed.

(** Filing a rule under the key its field holds keeps the invariant. *)
Lemma file_rule_files rules above field m r0 :
  map_files rules above field m ->
  Forall (fun f => truthy (get r0 f) = false) above ->
  truthy (get r0 field) = true ->
  map_files (rules ++ [r0]) above field
    (file_rule m (get r0 field) (normaliseRule r0)).
Proof.
  intros Hm Habove Hfield key r. unfold file_rule.
  destruct (same_value_zero (get r0 field) key) eqn:E.
  - rewrite (vmap_get_set_same _ _ key) by done. cbn [default from_option id].
    rewrite elem_of_app, list_elem_of_singleton.
    rewrite (vmap_get_svz m _ key) by done. rewrite (Hm key r). split.
    + intros [(r1 & Hin & Hr)| ->].
      * exists r1. split; [apply elem_of_app; by left|done].
      * exists r0. split; [apply elem_of_app; right; by apply list_elem_of_singleton|].
        done.
    + intros (r1 & [Hin|Hin]%elem_of_app & Hr).
      * left. by exists r1.
      * apply list_elem_of_singleton in Hin. subst r1. right. apply Hr.
  - rewrite vmap_get_set_other by (unfold svz; congruence).
    rewrite (Hm key r). split.
    + intros (r1 & Hin & Hr). exists r1. split; [apply elem_of_app; by left|done].
    + intros (r1 & [Hin|Hin]%elem_of_app & Hr); [by exists r1|].
      apply list_elem_of_singleton in Hin. subst r1.
      destruct Hr as (_ & _ & _ & Hk). unfold svz in Hk. congruence.
Qed.

(** A rule filed elsewhere leaves a map's invariant alone. *)
Lemma map_files_skip rules above field m r0 :
  map_files rules above field m ->
  (Exists (fun f => truthy (get r0 f) = true) above \/
   truthy (get r0 field) = false) ->
  map_files (rules ++ [r0]) above field m.
Proof.
  intros Hm Hskip key r. rewrite (Hm key r). split.
  - intros (r1 & Hin & Hr). exists r1. split; [apply elem_of_app; by left|done].
  - intros (r1 & [Hin|Hin]%elem_of_app & Hr); [by exists r1|].
    apply list_elem_of_singleton in Hin. subst r1.
    destruct Hr as (_ & Habove & Hfield & _).
    destruct Hskip as [Hex|Hf]; [|congruence].
    apply list.Exists_exists in Hex as (f & Hf & Ht).
    rewrite list.Forall_forall in Habove. specialize (Habove f Hf). congruence.
Qed.

End RuleStoreProperties.

Section RuleStoreLoop.
Context `{Host}.

Lemma normaliseRule_get r k :
  k <> "specificity" -> k <> "priority" -> get (normaliseRule r) k = get r k.
Proof.
  intros H1 H2. unfold normaliseRule. cbv zeta.
  by rewrite !get_insert_ne.
Qed.

Lemma general_files_skip rules (gen : list obj) r0 :
  (forall r, r ∈ gen <->
     exists r1, r1 ∈ rules /\ r = normaliseRule r1 /\
       Forall (fun f => truthy (get r1 f) = false)
              ["item_code"; "item_group"; "brand"]) ->
  Exists (fun f => truthy (get r0 f) = true)
         ["item_code"; "item_group"; "brand"] ->
  forall r, r ∈ gen <->
    exists r1, r1 ∈ rules ++ [r0] /\ r = normaliseRule r1 /\
      Forall (fun f => truthy (get r1 f) = false)
             ["item_code"; "item_group"; "brand"].
Proof.
  intros Hgen Hex r. rewrite (Hgen r). split.
  - intros (r1 & Hin & Hr). exists r1. split; [apply elem_of_app; by left|done].
  - intros (r1 & [Hin|Hin]%elem_of_app & Hr); [by exists r1|].
    apply list_elem_of_singleton in Hin. subst r1. destruct Hr as (_ & Hall).
    apply list.Exists_exists in Hex as (f & Hf & Ht).
    rewrite list.Forall_forall in Hall. specialize (Hall f Hf). congruence.
Qed.

Lemma general_files_add rules (gen : list obj) r0 :
  (forall r, r ∈ gen <->
     exists r1, r1 ∈ rules /\ r = normaliseRule r1 /\
       Forall (fun f => truthy (get r1 f) = false)
              ["item_code"; "item_group"; "brand"]) ->
  Forall (fun f => truthy (get r0 f) = false)
         ["item_code"; "item_group"; "brand"] ->
  forall r, r ∈ gen ++ [normaliseRule r0] <->
    exists r1, r1 ∈ rules ++ [r0] /\ r = normaliseRule r1 /\
      Forall (fun f => truthy (get r1 f) = false)
             ["item_code"; "item_group"; "brand"].
Proof.
  intros Hgen Hall r. rewrite elem_of_app, list_elem_of_singleton, (Hgen r).
  split.
  - intros [(r1 & Hin & Hr)| ->].
    + exists r1. split; [apply elem_of_app; by left|done].
    + exists r0. split; [|done].
      apply elem_of_app. right. by apply list_elem_of_singleton.
  - intros (r1 & [Hin|Hin]%elem_of_app & Hr); [left; by exists r1|].
    apply list_elem_of_singleton in Hin. subst r1. right. apply Hr.
Qed.

Lemma index_rule_files rules st r0 :
  index_files rules st -> index_files (rules ++ [r0]) (index_rule st r0).
Proof.
  intros (Hi & Hg & Hb & Hgen). unfold index_rule. cbv zeta.
  rewrite !normaliseRule_get by done.
  destruct (truthy (get r0 "item_code")) eqn:Ec;
    [|destruct (truthy (get r0 "item_group")) eqn:Eg;
      [|destruct (truthy (get r0 "brand")) eqn:Eb]];
    (split; [|split; [|split]]); cbn [itemMap groupMap brandMap generalRules].
  - rewrite <- (normaliseRule_get r0 "item_code") at 1 by done.
    rewrite normaliseRule_get by done. by apply file_rule_files.
  - apply map_files_skip; [done|]. left. apply Exists_cons. by left.
  - apply map_files_skip; [done|]. left. apply Exists_cons. by left.
  - apply general_files_skip; [done|]. apply Exists_cons. by left.
  - apply map_files_skip; [done|]. by right.
  - apply file_rule_files; [done| |done]. by repeat constructor.
  - apply map_files_skip; [done|]. left.
    apply Exists_cons. right. apply Exists_cons. by left.
  - apply general_files_skip; [done|].
    apply Exists_cons. right. apply Exists_cons. by left.
  - apply map_files_skip; [done|]. by right.
  - apply map_files_skip; [done|]. by right.
  - apply file_rule_files; [done| |done]. by repeat constructor.
  - apply general_files_skip; [done|].
    apply Exists_cons. right. apply Exists_cons. right. apply Exists_cons. by left.
  - apply map_files_skip; [done|]. by right.
  - apply map_files_skip; [done|]. by right.
  - apply map_files_skip; [done|]. by right.
  - apply general_files_add; [done|]. by repeat constructor.
Qed.

Lemma index_rules_files rules processed st :
  index_files processed st ->
  index_files (processed ++ rules) (fold_left index_rule rules st).
Proof.
  revert processed st. induction rules as [|r0 rules IH]; intros processed st Hinv;
    cbn [fold_left].
  - by rewrite app_nil_r.
  - replace (processed ++ r0 :: rules) with ((processed ++ [r0]) ++ rules)
      by (by rewrite <- app_assoc).
    apply IH. by apply index_rule_files.
Qed.

Lemma index_loop_files rules :
  index_files rules
    (fold_left index_rule rules
       {| itemMap := []; groupMap := []; brandMap := []; generalRules := [] |}).
Proof.
  apply (index_rules_files rules []).
  repeat split; cbn; try (intros Hr; by apply elem_of_nil in Hr);
    try (intros (r0 & Hin & _); by apply elem_of_nil in Hin).
Qed.

(** The bucket a lookup with the string [c] finds in a sorted map. *)
Lemma sorted_bucket rules above field m c r :
  map_files rules above field m ->
  (r ∈ bucket_of (Some (string_keyed (sort_buckets m))) (VStr c) <->
   c <> ""%string /\
   exists r0, r0 ∈ rules /\ r = normaliseRule r0 /\
     Forall (fun f => truthy (get r0 f) = false) above /\
     get r0 field = VStr c).
Proof.
  intros Hm. unfold bucket_of.
  destruct (truthy (VStr c)) eqn:Et.
  - rewrite string_keyed_lookup, sort_buckets_get.
    assert (r ∈ default [] (sort_by compareRules <$> vmap_get m (VStr c)) <->
            r ∈ default [] (vmap_get m (VStr c))) as ->.
    { destruct (vmap_get m (VStr c)); cbn; [apply sort_by_elem_of|done]. }
    rewrite (Hm (VStr c) r). apply truthy_VStr in Et. split.
    + intros (r0 & Hin & Hr & Habove & _ & Hk%svz_VStr). split; [done|].
      by exists r0.
    + intros (_ & r0 & Hin & Hr & Habove & Hk). exists r0.
      split; [done|]. split; [done|]. split; [done|]. rewrite Hk.
      split; [by apply truthy_VStr|by apply svz_VStr].
  - split; [intros Hr; by apply elem_of_nil in Hr|].
    intros (Hne & _). apply truthy_VStr in Hne. congruence.
Qed.

End RuleStoreLoop.

(** X22: [indexRules] files every rule of the snapshot, normalised, in one
    bucket and one only: under its item code if it has one, else under its
    item group, else under its brand, else in the general bucket.  So the
    bucket the evaluator finds for a string holds exactly the rules whose
    most specific key is that string, whatever the order in which the
    buckets are sorted. *)
Theorem index_files_by_most_specific_key `{Host} (rules : list obj) (c : string)
  (r : obj) :
  let idx := getIndexes (indexRules rules) in
  (r ∈ bucket_of (byItem idx) (VStr c) <->
   c <> ""%string /\
   exists r0, r0 ∈ rules /\ r = normaliseRule r0 /\ get r0 "item_code" = VStr c)
  /\
  (r ∈ bucket_of (byGroup idx) (VStr c) <->
   c <> ""%string /\
   exists r0, r0 ∈ rules /\ r = normaliseRule r0 /\
     truthy (get r0 "item_code") = false /\ get r0 "item_group" = VStr c)
  /\
  (r ∈ bucket_of (byBrand idx) (VStr c) <->
   c <> ""%string /\
   exists r0, r0 ∈ rules /\ r = normaliseRule r0 /\
     truthy (get r0 "item_code") = false /\
     truthy (get r0 "item_group") = false /\ get r0 "brand" = VStr c)
  /\
  (r ∈ default [] (general idx) <->
   exists r0, r0 ∈ rules /\ r = normaliseRule r0 /\
     truthy (get r0 "item_code") = false /\
     truthy (get r0 "item_group") = false /\ truthy (get r0 "brand") = false).
Proof.
  cbv zeta. unfold getIndexes, indexRules. cbv zeta.
  cbn [byItem byGroup byBrand general itemMap groupMap brandMap generalRules].
  destruct (index_loop_files rules) as (Hi & Hg & Hb & Hgen).
  split; [|split; [|split]].
  - rewrite (sorted_bucket rules [] "item_code") by done.
    split; intros (Hne & r0 & Hin & Hr & Hrest); (split; [done|]); exists r0.
    + by destruct Hrest.
    + repeat split; try done.
  - rewrite (sorted_bucket rules ["item_code"] "item_group") by done.
    split; intros (Hne & r0 & Hin & Hr & Hrest); (split; [done|]); exists r0.
    + destruct Hrest as [Ha Hk]. rewrite !list.Forall_cons in Ha. by destruct Ha.
    + destruct Hrest as [Ha Hk]. repeat split; try done.
      repeat constructor; done.
  - rewrite (sorted_bucket rules ["item_code"; "item_group"] "brand") by done.
    split; intros (Hne & r0 & Hin & Hr & Hrest); (split; [done|]); exists r0.
    + destruct Hrest as [Ha Hk]. rewrite !list.Forall_cons in Ha.
      by destruct Ha as (? & ? & _).
    + destruct Hrest as (Ha1 & Ha2 & Hk). repeat split; try done.
      repeat constructor; done.
  - cbn [default from_option id]. rewrite sort_by_elem_of, (Hgen r).
    split; intros (r0 & Hin & Hr & Hrest); exists r0.
    + rewrite !list.Forall_cons in Hrest. by destruct Hrest as (? & ? & ? & _).
    + destruct Hrest as (? & ? & ?). repeat split; try done.
      repeat constructor; done.
Qed.

(** X23: [normaliseRule] changes nothing but [specificity] and [priority]:
    the specificity it sets is 3, 2, 1 or 0, the priority is never left
    null or undefined, and normalising a normalised rule changes nothing. *)
Theorem normaliseRule_idempotent `{Host} (rule : obj) :
  normaliseRule (normaliseRule rule) = normaliseRule rule /\
  frame ["specificity"; "priority"] rule (normaliseRule rule) /\
  get (normaliseRule rule) "specificity" ∈ [vnum 3; vnum 2; vnum 1; vnum 0] /\
  nullish (get (normaliseRule rule) "priority") = false.
Proof.
  split; [|split; [|split]].
  - unfold normaliseRule at 1. cbv zeta.
    rewrite !normaliseRule_get by done.
    assert (coalesce (get (<["specificity" :=
                              (if truthy (get rule "item_code") then vnum 3
                               else if truthy (get rule "item_group") then vnum 2
                               else if truthy (get rule "brand") then vnum 1
                               else vnum 0)]> (normaliseRule rule)) "priority")
                     (vnum 0) =
            coalesce (get rule "priority") (vnum 0)) as ->.
    { rewrite get_insert_ne by done. unfold normaliseRule. cbv zeta.
      rewrite get_insert_eq, get_insert_ne by done.
      unfold coalesce. by destruct (get rule "priority"). }
    unfold normaliseRule. cbv zeta.
    rewrite get_insert_ne by done.
    rewrite (insert_insert_ne _ "specificity" "priority") by done.
    by rewrite !insert_insert_eq.
  - unfold normaliseRule. cbv zeta. frame_inserts.
  - unfold normaliseRule. cbv zeta.
    rewrite get_insert_ne, get_insert_eq by done.
    destruct (truthy (get rule "item_code")); [(rewrite !elem_of_cons; tauto)|].
    destruct (truthy (get rule "item_group")); [(rewrite !elem_of_cons; tauto)|].
    destruct (truthy (get rule "brand")); (rewrite !elem_of_cons; tauto).
  - unfold normaliseRule. cbv zeta. rewrite get_insert_eq.
    rewrite get_insert_ne by done. unfold coalesce.
    by destruct (get rule "priority").
Qed.

Section RuleStoreOrder.
Context `{Host} `{!CollationLaws}.

Lemma compareRules_ruleSort a b : compareRules a b = ruleSort a b.
Proof. reflexivity. Qed.

Lemma normaliseRule_typed r : rule_typed r -> rule_typed (normaliseRule r).
Proof.
  intros (Hn & Hs & Hp & Hrest). unfold rule_typed.
  rewrite (normaliseRule_get r "name"),
    (normaliseRule_get r "rate_or_discount"),
    (normaliseRule_get r "margin_rate_or_amount"),
    (normaliseRule_get r "free_qty"),
    (normaliseRule_get r "free_qty_per_unit") by done.
  split; [done|]. split; [|split; [|done]].
  - unfold normaliseRule. cbv zeta.
    rewrite get_insert_ne, get_insert_eq by done.
    right. right.
    destruct (truthy (get r "item_code")); [by eexists|].
    destruct (truthy (get r "item_group")); [by eexists|].
    destruct (truthy (get r "brand")); by eexists.
  - unfold normaliseRule. cbv zeta.
    rewrite get_insert_eq, get_insert_ne by done.
    right. right. destruct Hp as [->|[->|[q ->]]]; by eexists.
Qed.

Lemma sort_by_compareRules_ordered (l : list obj) :
  Forall rule_typed l -> ordered (sort_by compareRules l).
Proof. apply sort_by_ordered. Qed.

Lemma sorted_bucket_ordered rules above field m key :
  Forall rule_typed rules ->
  map_files rules above field m ->
  ordered (bucket_of (Some (string_keyed (sort_buckets m))) key).
Proof.
  intros Hty Hm. unfold bucket_of.
  destruct key as [| | | |k| |]; try done.
  destruct (truthy (VStr k)); [|done].
  rewrite string_keyed_lookup, sort_buckets_get.
  pose proof (Hm (VStr k)) as Hb.
  destruct (vmap_get m (VStr k)) as [b|]; [|done].
  cbn [fmap option_fmap option_map default from_option id] in *.
  apply sort_by_compareRules_ordered, list.Forall_forall.
  intros r Hr. apply Hb in Hr as (r0 & Hin & -> & _).
  apply normaliseRule_typed.
  by apply (proj1 (list.Forall_forall _ _) Hty).
Qed.

End RuleStoreOrder.


